(** * HEAS playground: scenario execution engine

    A shallow embedding of the JavaScript that drives the HEAS web
    playground (docs/app.js, docs/js/validation.js, docs/js/runtime.js,
    docs/js/runtime.worker.js, docs/js/errors.js, docs/js/state.js,
    docs/js/onboarding.js, docs/js/io.js) and the properties its design
    document states about it, followed by further properties of the code.

    Conventions.
    - A JavaScript value is a [JsVal]: JSON data, plus the built-in
      functions an object literal inherits from [Object.prototype].
    - A JavaScript number is an IEEE 754 binary64, that is Rocq's primitive
      [float]; an index or a counter is a [nat], a time in milliseconds
      a [Z].
    - A string is its sequence of code units, each below 256.
    - A plain object is the list of its own properties in enumeration
      order; reading goes through [Object.prototype] as in JavaScript.
    - What ECMAScript computes on doubles or leaves to the engine
      (Number::toString, StringToNumber, the source text of a built-in
      function, the members of [Array.prototype] and of functions) is a
      field of the class [Builtins]; every statement holds for all of them.
    - [String(v)] and [Number(v)] are total: an object that shadows
      [toString] or [valueOf] with a data property of its own, on which
      they would throw, is outside the model.
    - A call that may throw returns a [Completion]; an [await] is modelled at
      the point where its promise has settled. *)

From Stdlib Require Import List String Ascii Bool Arith ZArith Lia.
From Stdlib Require Import Floats Uint63 DecimalString DecimalNat.
From Stdlib Require Import Permutation ZifyNat.
From Stdlib Require HexadecimalString.
Import ListNotations.
Open Scope string_scope.

Set Implicit Arguments.

(** ** JavaScript values *)

#[warnings="-register-all"]
Inductive JsVal : Type :=
| JUndef
| JNull
| JBool (b : bool)
| JNum (x : float)
| JStr (s : string)
| JArr (elems : list JsVal)
| JObj (props : list (string * JsVal))
| JFun (name : string).

(** The own properties of a plain object, in enumeration order. *)
Definition Obj : Type := list (string * JsVal).

Inductive JsType : Type :=
| TUndefined | TObject | TBoolean | TNumber | TString | TFunction.

Definition JsType_eqb (a b : JsType) : bool :=
  match a, b with
  | TUndefined, TUndefined | TObject, TObject | TBoolean, TBoolean
  | TNumber, TNumber | TString, TString | TFunction, TFunction => true
  | _, _ => false
  end.

(** [typeof v] *)
Definition typeof (v : JsVal) : JsType :=
  match v with
  | JUndef => TUndefined
  | JNull => TObject
  | JBool _ => TBoolean
  | JNum _ => TNumber
  | JStr _ => TString
  | JArr _ => TObject
  | JObj _ => TObject
  | JFun _ => TFunction
  end.

Definition nonempty (s : string) : bool :=
  match s with EmptyString => false | String _ _ => true end.

(** ToBoolean: what [if (v)], [!v], [v || w] and [filter(Boolean)] test. *)
Definition truthy (v : JsVal) : bool :=
  match v with
  | JUndef | JNull => false
  | JBool b => b
  | JNum x => negb (PrimFloat.is_zero x || PrimFloat.is_nan x)
  | JStr s => nonempty s
  | JArr _ | JObj _ | JFun _ => true
  end.

(** [v === undefined || v === null], the test behind [??] and [?.]. *)
Definition nullish (v : JsVal) : bool :=
  match v with JUndef | JNull => true | _ => false end.

(** [a ?? b] *)
Definition coalesce (a b : JsVal) : JsVal := if nullish a then b else a.

(** [a || b] *)
Definition or_else (a b : JsVal) : JsVal := if truthy a then a else b.

(** [Array.isArray(v)] *)
Definition isArray (v : JsVal) : bool :=
  match v with JArr _ => true | _ => false end.

(** [v && typeof v === "object"] (as a condition). *)
Definition isObjectLike (v : JsVal) : bool :=
  truthy v && JsType_eqb (typeof v) TObject.

(** [v === s] for a string literal [s]. *)
Definition strictEqStr (v : JsVal) (s : string) : bool :=
  match v with JStr t => String.eqb t s | _ => false end.

(** The number of an array index or length. *)
Definition natToNumber (n : nat) : float :=
  PrimFloat.of_uint63 (Uint63.of_Z (Z.of_nat n)).

(** The decimal numeral of an array index or a loop counter. *)
Definition natToString (n : nat) : string :=
  NilZero.string_of_uint (Nat.to_uint n).

(** The decimal numeral of an integer in a template literal. *)
Definition intToString (z : Z) : string :=
  NilZero.string_of_int (Z.to_int z).

(** ** Own properties and the prototype chain *)

Fixpoint ownGet (o : Obj) (k : string) : option JsVal :=
  match o with
  | [] => None
  | (k', v) :: rest => if String.eqb k' k then Some v else ownGet rest k
  end.

(** [Object.prototype.hasOwnProperty.call(o, k)] on a plain object. *)
Definition hasOwn (o : Obj) (k : string) : bool :=
  match ownGet o k with Some _ => true | None => false end.

(** The property names of [Object.prototype]. *)
Definition objectPrototypeNames : list string :=
  [ "constructor"; "__defineGetter__"; "__defineSetter__"; "hasOwnProperty";
    "__lookupGetter__"; "__lookupSetter__"; "isPrototypeOf";
    "propertyIsEnumerable"; "toString"; "valueOf"; "__proto__";
    "toLocaleString" ].

Definition inObjectPrototype (k : string) : bool :=
  existsb (String.eqb k) objectPrototypeNames.

(** What a read of [k] finds on [Object.prototype]: its methods are
    functions, and the accessor [__proto__] answers the prototype itself. *)
Definition objectPrototypeGet (k : string) : JsVal :=
  if String.eqb k "__proto__" then
    JObj (map (fun n => (n, JFun n))
              (filter (fun n => negb (String.eqb n "__proto__"))
                      objectPrototypeNames))
  else if inObjectPrototype k then JFun k
  else JUndef.

(** [o[k]] on a plain object. *)
Definition objGet (o : Obj) (k : string) : JsVal :=
  match ownGet o k with
  | Some v => v
  | None => objectPrototypeGet k
  end.

(** [map[k] = v] on an object created by a literal: an existing own
    property keeps its place, a new one goes last; the name [__proto__]
    reaches the accessor of [Object.prototype] and adds no own property.
    (JavaScript enumerates integer-like keys first; the objects written
    here are read by key, or have no such key.) *)
Fixpoint ownSet (o : Obj) (k : string) (v : JsVal) : Obj :=
  match o with
  | [] => [(k, v)]
  | (k', v') :: rest =>
      if String.eqb k' k then (k', v) :: rest else (k', v') :: ownSet rest k v
  end.

Definition objSet (o : Obj) (k : string) (v : JsVal) : Obj :=
  if String.eqb k "__proto__" then o else ownSet o k v.

(** The own properties of the value [v] when it is used as an object: those
    of a plain object, the indices and [length] of an array. *)
Definition indexed (l : list JsVal) : Obj :=
  combine (map natToString (seq 0 (List.length l))) l.

Definition ownProps (v : JsVal) : Obj :=
  match v with
  | JObj o => o
  | JArr l =>
      (indexed l ++ [("length", JNum (natToNumber (List.length l)))])%list
  | _ => []
  end.

(** [v.k] for a name [k] that no prototype defines, on any value that is
    not [null] or [undefined]. *)
Definition field (v : JsVal) (k : string) : JsVal :=
  match v with
  | JObj o => objGet o k
  | _ => JUndef
  end.

(** ** Strings *)

(** The WhiteSpace and LineTerminator code units below 256. *)
Definition isWhite (c : ascii) : bool :=
  let n := nat_of_ascii c in
  (((9 <=? n) && (n <=? 13)) || (n =? 32) || (n =? 160))%nat.

Fixpoint trimStart (s : string) : string :=
  match s with
  | EmptyString => EmptyString
  | String c rest => if isWhite c then trimStart rest else s
  end.

Fixpoint trimEnd (s : string) : string :=
  match s with
  | EmptyString => EmptyString
  | String c rest =>
      match trimEnd rest with
      | EmptyString => if isWhite c then EmptyString else String c EmptyString
      | rest' => String c rest'
      end
  end.

(** [s.trim()] *)
Definition trim (s : string) : string := trimEnd (trimStart s).

(** [parts.join(sep)] on an array of strings. *)
Fixpoint join (sep : string) (parts : list string) : string :=
  match parts with
  | [] => ""
  | [p] => p
  | p :: rest => p ++ sep ++ join sep rest
  end.

(** ** Built-in conversions *)

Class Builtins : Type := {
  (** Number::toString, radix 10 *)
  NumberToString : float -> string;
  (** StringToNumber *)
  StringToNumber : string -> float;
  (** the source text [Function.prototype.toString] gives a built-in *)
  FunctionToString : string -> string;
  (** [k in a] for the names [Array.prototype] defines *)
  inArrayPrototype : string -> bool;
  (** [k in f] for a built-in function [f] *)
  inFunction : string -> string -> bool
}.

Section Conversions.
Context {B : Builtins}.

(** [String(v)], also the conversion of a template literal and of a
    computed property key. *)
Fixpoint ToString (v : JsVal) : string :=
  match v with
  | JUndef => "undefined"
  | JNull => "null"
  | JBool true => "true"
  | JBool false => "false"
  | JNum x => NumberToString x
  | JStr s => s
  | JArr l =>
      join "," (map (fun e => if nullish e then "" else ToString e) l)
  | JObj _ => "[object Object]"
  | JFun n => FunctionToString n
  end.

(** [Number(v)] *)
Definition ToNumber (v : JsVal) : float :=
  match v with
  | JUndef => PrimFloat.nan
  | JNull => PrimFloat.zero
  | JBool true => PrimFloat.one
  | JBool false => PrimFloat.zero
  | JNum x => x
  | JStr s => StringToNumber s
  | JArr _ | JObj _ | JFun _ => StringToNumber (ToString v)
  end.

(** [parseNumberish] of docs/app.js; [None] is its [null]. *)
Definition parseNumberish (value : JsVal) : option float :=
  match value with
  | JNum x => if PrimFloat.is_finite x then Some x else None
  | JStr s =>
      let trimmed := trim s in
      if negb (nonempty trimmed) then None
      else
        let parsed := StringToNumber trimmed in
        if PrimFloat.is_finite parsed then Some parsed else None
  | _ => None
  end.

End Conversions.

(** ** Categorical parameter metadata (docs/app.js) *)

(** The object [normalizeCategoryMeta] returns; its [type] is the constant
    ["category"]. *)
Record CategoryMeta : Type := {
  cm_kind : JsVal;
  cm_options : list string;
  cm_value : string;
  cm_map : Obj
}.

Section Metadata.
Context {B : Builtins}.

(** The body of [options.forEach((opt, idx) => ...)] that fills [map]. *)
Definition mapStep (sourceMap : Obj) (map : Obj) (entry : nat * string)
  : Obj :=
  let (idx, opt) := entry in
  match ownGet sourceMap opt with
  | Some raw =>
      match parseNumberish raw with
      | Some mapped => objSet map opt (JNum mapped)
      | None => objSet map opt raw
      end
  | None => objSet map opt (JNum (natToNumber idx))
  end.

Definition withIndex {A : Type} (l : list A) : list (nat * A) :=
  combine (seq 0 (List.length l)) l.

(** [normalizeCategoryMeta(info = {}, fallbackValue = "")]: [info] is
    the object passed, [fallbackArg] the second argument as passed. *)
Definition normalizeCategoryMeta (info : Obj) (fallbackArg : JsVal)
  : CategoryMeta :=
  let fallbackValue :=
    match fallbackArg with JUndef => JStr "" | v => v end in
  let rawOptions :=
    match objGet info "options" with JArr l => l | _ => [] end in
  let options0 :=
    filter nonempty (map (fun opt => trim (ToString opt)) rawOptions) in
  let fallback :=
    coalesce (coalesce fallbackValue (objGet info "value")) (JStr "") in
  let fallbackLabel := trim (ToString fallback) in
  let options :=
    match options0 with
    | [] => if nonempty fallbackLabel then [fallbackLabel] else []
    | _ :: _ => options0
    end in
  let value :=
    if existsb (String.eqb (ToString (objGet info "value"))) options
    then ToString (objGet info "value")
    else
      match options with
      | first :: _ => if nonempty first then first else fallbackLabel
      | [] => fallbackLabel
      end in
  let sourceMap :=
    if isObjectLike (objGet info "map")
    then ownProps (objGet info "map") else [] in
  let map := fold_left (mapStep sourceMap) (withIndex options) [] in
  {| cm_kind := or_else (objGet info "kind") (JStr "condition");
     cm_options := options;
     cm_value := value;
     cm_map := map |}.

End Metadata.

Arguments normalizeCategoryMeta : simpl never.

(** ** Scenario enumeration (docs/app.js) *)

(** A component of [state.components], with the fields the enumerator
    reads. *)
Record Component : Type := {
  id : JsVal;
  params : Obj;
  paramMeta : Obj
}.

(** The application state: [components] lists [Object.values(state.components)]
    in enumeration order. *)
Record State : Type := {
  components : list Component
}.

(** An entry of [categories]. *)
Record Category : Type := {
  componentId : JsVal;
  key : string;
  options : list string
}.

Record Scenario : Type := {
  label : string;
  overrides : Obj
}.

Section Enumerator.
Context {B : Builtins}.

(** [`${componentId}::${key}`] *)
Definition compoundKey (c : Category) : string :=
  ToString (componentId c) ++ "::" ++ key c.

(** [`${componentId}.${key}=${opt}`] *)
Definition fragment (c : Category) (opt : string) : string :=
  ToString (componentId c) ++ "." ++ key c ++ "=" ++ opt.

(** The axis one [paramMeta] entry contributes, if any. *)
Definition categoryOf (component : Component) (entry : string * JsVal)
  : list Category :=
  let (key, info) := entry in
  if strictEqStr (field info "type") "category" then
    match info with
    | JObj o =>
        let normalized := normalizeCategoryMeta o (objGet (params component) key) in
        if negb (strictEqStr (or_else (cm_kind normalized) (JStr "condition"))
                             "condition")
        then []
        else
          match cm_options normalized with
          | [] => []
          | _ :: _ =>
              [ {| componentId := id component;
                   key := key;
                   options := cm_options normalized |} ]
          end
    | _ => []
    end
  else [].

Definition collectCategories (st : State) : list Category :=
  flat_map (fun component => flat_map (categoryOf component)
                                      (paramMeta component))
           (components st).

(** [walk(i, current, labelParts)], by recursion on [categories.slice(i)];
    [combos] is the array it pushes to. *)
Fixpoint walk (cats : list Category) (current : Obj)
         (labelParts : list string) (combos : list Scenario)
  : list Scenario :=
  match cats with
  | [] =>
      (combos ++ [ {| label := join ", " labelParts;
                      overrides := current |} ])%list
  | c :: rest =>
      fold_left
        (fun acc opt =>
           let next := objSet current (compoundKey c) (JStr opt) in
           walk rest next (labelParts ++ [fragment c opt])%list acc)
        (options c) combos
  end.

Definition baseScenario : Scenario := {| label := "Base"; overrides := [] |}.

Definition buildScenarioList (st : State) : list Scenario :=
  match collectCategories st with
  | [] => [ baseScenario ]
  | categories => walk categories [] [] []
  end.

End Enumerator.

(** ** The enumeration, as the design document describes it *)

(** [o1 * o2 * ... * on] *)
Definition product (sizes : list nat) : nat := fold_right Nat.mul 1 sizes.

Definition axisSizes (cats : list Category) : list nat :=
  map (fun c => List.length (options c)) cats.

(** The Cartesian product of the axes: one option per axis, the first axis
    varying slowest. *)
Fixpoint choices (cats : list Category) : list (list (Category * string)) :=
  match cats with
  | [] => [ [] ]
  | c :: rest =>
      flat_map (fun opt => map (cons (c, opt)) (choices rest)) (options c)
  end.

Section EnumeratorSpec.
Context {B : Builtins}.

(** The override map of a choice, written on top of [current]. *)
Definition overridesOf (current : Obj) (choice : list (Category * string))
  : Obj :=
  fold_left (fun m co => objSet m (compoundKey (fst co)) (JStr (snd co)))
            choice current.

(** The scenario of a choice: the fragments joined in axis order. *)
Definition scenarioOf (choice : list (Category * string)) : Scenario :=
  {| label := join ", " (map (fun co => fragment (fst co) (snd co)) choice);
     overrides := overridesOf [] choice |}.

End EnumeratorSpec.

(** A parameter-metadata entry that is a categorical parameter of kind
    [condition] (the kind an entry has when it names none). *)
Definition isConditionAxis (info : JsVal) : bool :=
  strictEqStr (field info "type") "category"
  && strictEqStr (or_else (field info "kind") (JStr "condition")) "condition".

Definition hasConditionAxis (st : State) : bool :=
  existsb (fun component =>
             existsb (fun entry => isConditionAxis (snd entry))
                     (paramMeta component))
          (components st).


(** ** Structured errors (docs/js/errors.js) *)

Module ERROR_CODES.
Module validation.
Definition CFG_INVALID := "validation.cfg_invalid".
Definition STEPS_INVALID := "validation.steps_invalid".
Definition STEPS_LIMIT := "validation.steps_limit".
Definition EPISODES_INVALID := "validation.episodes_invalid".
Definition EPISODES_LIMIT := "validation.episodes_limit".
Definition LAYERS_INVALID := "validation.layers_invalid".
Definition LAYER_EMPTY := "validation.layer_empty".
Definition STREAM_INVALID := "validation.stream_invalid".
Definition TYPE_MISSING := "validation.type_missing".
Definition PARAM_MISSING := "validation.param_missing".
End validation.
Module runtime.
Definition LOAD_FAILED := "runtime.load_failed".
Definition CANCELLED := "runtime.cancelled".
Definition LIMIT_EXCEEDED := "runtime.limit_exceeded".
Definition FAILED := "runtime.failed".
Definition BAD_RESULT_SHAPE := "runtime.bad_result_shape".
End runtime.
Module io.
Definition IMPORT_LIMIT := "io.import_limit".
Definition IMPORT_ERROR := "io.import_error".
Definition EXPORT_ERROR := "io.export_error".
End io.
Module share.
Definition TOO_LARGE := "share.too_large".
Definition BUILD_FAILED := "share.build_failed".
Definition URL_IMPORT_FAILED := "share.url_import_failed".
End share.
Module compat.
Definition UNKNOWN_CONFIG_VERSION := "compat.unknown_config_version".
Definition UNKNOWN_BUNDLE_VERSION := "compat.unknown_bundle_version".
Definition MIGRATION_FAILED := "compat.migration_failed".
End compat.
End ERROR_CODES.

Record StructuredError : Type := {
  code : string;
  message : string;
  hints : list string;
  details : Obj
}.

(** [createError(code, message, hints = [], details = {})] *)
Definition createError (code message : string) (hints : list string)
  (details : Obj) : StructuredError :=
  {| code := code; message := message; hints := hints; details := details |}.

(** What a [throw] carries: an object made by [createError], or an
    instance of [Error] with its [name] and [message]. *)
Inductive Thrown : Type :=
| ThrowStructured (e : StructuredError)
| ThrowError (name message : string).

(** The completion of a call that may throw. *)
Inductive Completion (A : Type) : Type :=
| Normal (a : A)
| Throw (t : Thrown).

Arguments Normal {A} a.
Arguments Throw {A} t.

Definition bind {A C : Type} (c : Completion A) (f : A -> Completion C)
  : Completion C :=
  match c with
  | Normal a => f a
  | Throw t => Throw t
  end.

Notation "'do' x <- c ; k" := (bind c (fun x => k))
  (at level 10, x name, c at level 100, k at level 200).

(** [l.forEach(body)] for a body that updates [acc] and may throw. *)
Fixpoint forEachM {A S : Type} (body : S -> A -> Completion S) (l : list A)
  (acc : S) : Completion S :=
  match l with
  | [] => Normal acc
  | x :: rest => do acc' <- body acc x; forEachM body rest acc'
  end.

(** [normalizeError(err, fallbackCode, fallbackMessage, fallbackHints)] *)
Definition normalizeError (err : Thrown) (fallbackCode fallbackMessage : string)
  (fallbackHints : list string) : StructuredError :=
  match err with
  | ThrowStructured e => createError (code e) (message e) (hints e) (details e)
  | ThrowError name msg =>
      createError fallbackCode fallbackMessage fallbackHints
                  [("raw", JStr (name ++ ": " ++ msg))]
  end.

Definition TypeError (msg : string) : Thrown := ThrowError "TypeError" msg.

(** ** Limits (docs/js/state.js) *)

Record RunLimits : Type := {
  maxSteps : float;
  maxEpisodes : float;
  maxScenarios : nat;
  maxRunMs : Z;
  maxShareChars : Z;
  maxImportBytes : Z
}.

Definition RUN_LIMITS : RunLimits :=
  {| maxSteps := 500%float;
     maxEpisodes := 20%float;
     maxScenarios := 64;
     maxRunMs := 45000%Z;
     maxShareChars := 7000%Z;
     maxImportBytes := 1000000%Z |}.

(** ** Validation (docs/js/validation.js) *)

(** An entry of a [STREAM_DEFS] list; validation reads its [key]. *)
Record StreamDef : Type := {
  def_key : string
}.

(** The table [STREAM_DEFS]: stream type to required parameters. *)
Definition StreamDefs : Type := list (string * list StreamDef).

Record Controls : Type := {
  c_steps : float;
  c_episodes : float;
  c_seed : float
}.

Section Validation.
Context {B : Builtins}.

Definition readControls (config : JsVal) : Controls :=
  if negb (isObjectLike config) then
    {| c_steps := PrimFloat.nan; c_episodes := PrimFloat.nan;
       c_seed := PrimFloat.nan |}
  else if isObjectLike (field config "controls") then
    {| c_steps := ToNumber (field (field config "controls") "steps");
       c_episodes := ToNumber (field (field config "controls") "episodes");
       c_seed := ToNumber (field (field config "controls") "seed") |}
  else
    {| c_steps := ToNumber (field config "steps");
       c_episodes := ToNumber (field config "episodes");
       c_seed := ToNumber (field config "seed") |}.

(** [streamDefs[type] || []], then the receiver of [defs.forEach]: a
    name found on [Object.prototype] answers a value with no [forEach]. *)
Definition lookupDefs (streamDefs : StreamDefs) (type : JsVal)
  : Completion (list StreamDef) :=
  let fix own (table : StreamDefs) (k : string) : option (list StreamDef) :=
    match table with
    | [] => None
    | (k', defs) :: rest => if String.eqb k' k then Some defs else own rest k
    end in
  match own streamDefs (ToString type) with
  | Some defs => Normal defs
  | None =>
      if inObjectPrototype (ToString type)
      then Throw (TypeError "defs.forEach is not a function")
      else Normal []
  end.

(** [k in v] *)
Definition hasProperty (k : string) (v : JsVal) : Completion bool :=
  match v with
  | JObj o => Normal (hasOwn o k || inObjectPrototype k)
  | JArr _ =>
      Normal (hasOwn (ownProps v) k || inArrayPrototype k
              || inObjectPrototype k)
  | JFun f => Normal (inFunction f k)
  | _ => Throw (TypeError "Cannot use 'in' operator to search for a key")
  end.

Definition pathOfLayer (layerIndex : nat) : string :=
  "layers[" ++ natToString layerIndex ++ "]".

Definition pathOfStream (layerIndex streamIndex : nat) : string :=
  pathOfLayer layerIndex ++ "[" ++ natToString streamIndex ++ "]".

(** The body of [defs.forEach((def) => ...)]. *)
Definition checkParam (layerIndex streamIndex : nat) (params : JsVal)
  (errors : list StructuredError) (def : StreamDef)
  : Completion (list StructuredError) :=
  do present <- hasProperty (def_key def) params;
  Normal
    (if present then errors
     else
       errors
       ++ [ createError ERROR_CODES.validation.PARAM_MISSING
              ("Required parameter '" ++ def_key def ++ "' is missing.")
              ["Open the stream editor and save defaults."]
              [("path",
                JStr (pathOfStream layerIndex streamIndex ++ ".params."
                      ++ def_key def))] ])%list.

(** The body of [layer.forEach((stream, streamIndex) => ...)]. *)
Definition checkStream (streamDefs : StreamDefs) (layerIndex : nat)
  (errors : list StructuredError) (entry : nat * JsVal)
  : Completion (list StructuredError) :=
  let (streamIndex, stream) := entry in
  if negb (isObjectLike stream) then
    Normal
      (errors
       ++ [ createError ERROR_CODES.validation.STREAM_INVALID
              "Stream object is invalid."
              ["Reset the stream configuration."]
              [("path", JStr (pathOfStream layerIndex streamIndex))] ])%list
  else
    let errors1 :=
      if negb (truthy (field stream "type"))
         || negb (JsType_eqb (typeof (field stream "type")) TString)
      then
        (errors
         ++ [ createError ERROR_CODES.validation.TYPE_MISSING
                "Stream type is missing." ["Select a stream type."]
                [("path",
                  JStr (pathOfStream layerIndex streamIndex ++ ".type"))] ])%list
      else errors in
    do defs <- lookupDefs streamDefs (field stream "type");
    let params := or_else (field stream "params") (JObj []) in
    forEachM (checkParam layerIndex streamIndex params) defs errors1.

(** The body of [config.layers.forEach((layer, layerIndex) => ...)]. *)
Definition checkLayer (streamDefs : StreamDefs)
  (errors : list StructuredError) (entry : nat * JsVal)
  : Completion (list StructuredError) :=
  let (layerIndex, layer) := entry in
  match layer with
  | JArr ((_ :: _) as streams) =>
      forEachM (checkStream streamDefs layerIndex) (withIndex streams) errors
  | _ =>
      Normal
        (errors
         ++ [ createError ERROR_CODES.validation.LAYER_EMPTY
                "Layer has no streams."
                ["Add at least one stream per layer."]
                [("path", JStr (pathOfLayer layerIndex))] ])%list
  end.

(** The checks on [steps], [episodes] and [seed], in source order. *)
Definition controlErrors (controls : Controls) (runLimits : RunLimits)
  : list StructuredError :=
  let steps := c_steps controls in
  let episodes := c_episodes controls in
  let seed := c_seed controls in
  ((if negb (PrimFloat.is_finite steps) || PrimFloat.ltb steps 1
    then [ createError ERROR_CODES.validation.STEPS_INVALID
             "Steps must be a positive number." ["Set steps >= 1."]
             [("path", JStr "controls.steps")] ]
    else [])
   ++ (if PrimFloat.ltb (maxSteps runLimits) steps
       then [ createError ERROR_CODES.validation.STEPS_LIMIT
                ("Steps exceeds limit ("
                 ++ NumberToString (maxSteps runLimits) ++ ").")
                ["Lower steps or split runs."]
                [("path", JStr "controls.steps")] ]
       else [])
   ++ (if negb (PrimFloat.is_finite episodes) || PrimFloat.ltb episodes 1
       then [ createError ERROR_CODES.validation.EPISODES_INVALID
                "Episodes must be a positive number." ["Set episodes >= 1."]
                [("path", JStr "controls.episodes")] ]
       else [])
   ++ (if PrimFloat.ltb (maxEpisodes runLimits) episodes
       then [ createError ERROR_CODES.validation.EPISODES_LIMIT
                ("Episodes exceeds limit ("
                 ++ NumberToString (maxEpisodes runLimits) ++ ").")
                ["Lower episodes or run multiple batches."]
                [("path", JStr "controls.episodes")] ]
       else [])
   ++ (if negb (PrimFloat.is_finite seed)
       then [ createError ERROR_CODES.validation.CFG_INVALID
                "Seed must be numeric." ["Set a numeric seed value."]
                [("path", JStr "controls.seed")] ]
       else []))%list.

Definition validateConfigPayload (config : JsVal) (streamDefs : StreamDefs)
  (runLimits : RunLimits) : Completion (list StructuredError) :=
  if negb (isObjectLike config) then
    Normal [ createError ERROR_CODES.validation.CFG_INVALID
               "Config is missing or invalid."
               ["Import a valid bundle or reset defaults."]
               [("path", JStr "config")] ]
  else
    let errors := controlErrors (readControls config) runLimits in
    match field config "layers" with
    | JArr ((_ :: _) as layers) =>
        forEachM (checkLayer streamDefs) (withIndex layers) errors
    | _ =>
        Normal
          (errors
           ++ [ createError ERROR_CODES.validation.LAYERS_INVALID
                  "At least one layer is required."
                  ["Add a layer before running."]
                  [("path", JStr "layers")] ])%list
    end.

(** [validateRunResultShape(result)] *)
Definition validateRunResultShape (result : JsVal) : bool :=
  if negb (isObjectLike result) then false
  else
    match field result "episodes" with
    | JArr episodes =>
        forallb (fun ep =>
                   truthy ep && JsType_eqb (typeof ep) TObject
                   && isArray (field ep "per_step")
                   && truthy (field ep "episode")
                   && JsType_eqb (typeof (field ep "episode")) TObject)
                episodes
    | _ => false
    end.

End Validation.

(** ** The worker (docs/js/runtime.worker.js) *)

(** What the worker posts back: [init_ok] and [run_ok] with their payload,
    or [error] with a message. *)
Inductive WorkerReply : Type :=
| InitOk (info : JsVal)
| RunOk (result : JsVal)
| WorkerError (message : string).

(** What the worker is posted: [init], [run], or another type. *)
Inductive WorkerRequest : Type :=
| InitRequest (indexURL : JsVal)
| RunRequest (payload : JsVal)
| OtherRequest (type : string).

(** The computation backend behind the worker: loading Pyodide and the
    Python source ([LoadFailed] tells whether [pyodide] was already set,
    and gives [String(err)] and the message of the error), and [run_sim]
    with the JSON it returns or the message of what it raises. *)
Inductive LoadResult : Type :=
| Loaded (version : string)
| LoadFailed (pyodideSet : option string) (errString errMessage : string).

Record Backend : Type := {
  load : JsVal -> LoadResult;
  run_sim : JsVal -> JsVal + string
}.

Module Worker.

(** The globals [pyodide] (its version when loaded), [ready] and
    [initError]. *)
Record Globals : Type := {
  pyodide : option string;
  ready : bool;
  initError : option string
}.

Definition fresh : Globals :=
  {| pyodide := None; ready := false; initError := None |}.

Definition versionInfo (version : string) : JsVal :=
  JObj [("ready", JBool true);
        ("version", JStr (if nonempty version then version else "unknown"))].

(** [initRuntime(indexURL)]: the new globals, and what it returns or the
    message of what it throws. *)
Definition initRuntime (backend : Backend) (g : Globals) (indexURL : JsVal)
  : Globals * (JsVal + string) :=
  match ready g, pyodide g with
  | true, Some version => (g, inl (versionInfo version))
  | _, _ =>
      match initError g with
      | Some (String c rest) => (g, inr (String c rest))
      | _ =>
          match load backend indexURL with
          | Loaded version =>
              ({| pyodide := Some version; ready := true;
                  initError := initError g |},
               inl (versionInfo version))
          | LoadFailed pyodideSet errString errMessage =>
              ({| pyodide :=
                    match pyodideSet with
                    | Some v => Some v
                    | None => pyodide g
                    end;
                  ready := ready g;
                  initError := Some errString |},
               inr errMessage)
          end
      end
  end.

(** [runSimulation(payload)] of the worker. *)
Definition runSimulation (backend : Backend) (g : Globals) (payload : JsVal)
  : JsVal + string :=
  match ready g, pyodide g with
  | true, Some _ => run_sim backend payload
  | _, _ => inr "runtime-not-ready"
  end.

(** [self.onmessage]: the new globals and the reply posted. *)
Definition onmessage (backend : Backend) (g : Globals)
  (request : WorkerRequest) : Globals * WorkerReply :=
  match request with
  | InitRequest indexURL =>
      match initRuntime backend g indexURL with
      | (g', inl info) => (g', InitOk info)
      | (g', inr msg) => (g', WorkerError msg)
      end
  | RunRequest payload =>
      match runSimulation backend g payload with
      | inl result => (g, RunOk result)
      | inr msg => (g, WorkerError msg)
      end
  | OtherRequest type =>
      (g, WorkerError ("Unknown worker message type: " ++ type))
  end.

End Worker.

(** ** The dispatcher (docs/js/runtime.js) *)

(** How the promise of a request settles. *)
Inductive Settlement : Type :=
| Resolved (type : string) (payload : JsVal)
| Rejected (e : StructuredError).

(** A [PlaygroundRuntime]; [pending] lists the keys of its [Map] in
    insertion order, each standing for the promise of that request. *)
Record PlaygroundRuntime : Type := {
  worker : option Worker.Globals;
  requestSeq : nat;
  pending : list string;
  ready : bool;
  engineVersion : JsVal
}.

(** [new PlaygroundRuntime({ indexURL })] *)
Definition newRuntime : PlaygroundRuntime :=
  {| worker := None; requestSeq := 0; pending := []; ready := false;
     engineVersion := JStr "unknown" |}.

Definition ensureWorker (rt : PlaygroundRuntime) : PlaygroundRuntime :=
  match worker rt with
  | Some _ => rt
  | None =>
      {| worker := Some Worker.fresh; requestSeq := requestSeq rt;
         pending := pending rt; ready := ready rt;
         engineVersion := engineVersion rt |}
  end.

(** [request(type, payload)] up to [postMessage]: the request identifier
    and the runtime with the request pending. *)
Definition request (rt : PlaygroundRuntime) : string * PlaygroundRuntime :=
  let rt1 := ensureWorker rt in
  let requestId := "r" ++ natToString (S (requestSeq rt1)) in
  (requestId,
   {| worker := worker rt1; requestSeq := S (requestSeq rt1);
      pending := (pending rt1 ++ [requestId])%list; ready := ready rt1;
      engineVersion := engineVersion rt1 |}).

(** [worker.onmessage]: the request settled, if [requestId] is pending. *)
Definition onmessage (rt : PlaygroundRuntime) (requestId : string)
  (reply : WorkerReply) : PlaygroundRuntime * option (string * Settlement) :=
  if existsb (String.eqb requestId) (pending rt) then
    ({| worker := worker rt; requestSeq := requestSeq rt;
        pending := filter (fun k => negb (String.eqb k requestId)) (pending rt);
        ready := ready rt; engineVersion := engineVersion rt |},
     Some (requestId,
           match reply with
           | WorkerError msg =>
               Rejected
                 (createError ERROR_CODES.runtime.FAILED
                    (if nonempty msg then msg else "Runtime worker failed.")
                    [] [])
           | InitOk info => Resolved "init_ok" info
           | RunOk result => Resolved "run_ok" result
           end))
  else (rt, None).

(** [worker.onerror]: every pending request is rejected, the worker is
    dropped. *)
Definition onerror (rt : PlaygroundRuntime) (eventMessage : JsVal)
  : PlaygroundRuntime * list (string * Settlement) :=
  let err :=
    createError ERROR_CODES.runtime.FAILED "Runtime worker crashed."
                ["Reload the page and retry."] [("message", eventMessage)] in
  ({| worker := None; requestSeq := requestSeq rt; pending := [];
      ready := false; engineVersion := engineVersion rt |},
   map (fun k => (k, Rejected err)) (pending rt)).

Definition cancelledError : StructuredError :=
  createError ERROR_CODES.runtime.CANCELLED "Run cancelled by user." [] [].

(** [terminate()]: the new runtime and the rejections it delivers. *)
Definition terminate (rt : PlaygroundRuntime)
  : PlaygroundRuntime * list (string * Settlement) :=
  ({| worker := None; requestSeq := requestSeq rt; pending := [];
      ready := false; engineVersion := engineVersion rt |},
   map (fun k => (k, Rejected cancelledError)) (pending rt)).

(** [cancel()]: what [terminate()] does, and the error it then throws. *)
Definition cancel (rt : PlaygroundRuntime)
  : PlaygroundRuntime * list (string * Settlement) * Thrown :=
  (terminate rt,
   ThrowStructured
     (createError ERROR_CODES.runtime.CANCELLED "Run cancelled by user."
        ["You can replay or adjust settings before running again."] [])).

(** [run(payload)] from the point where its request has settled. *)
Definition runSettled (s : Settlement) : Completion JsVal :=
  let body :=
    match s with
    | Rejected e => Throw (ThrowStructured e)
    | Resolved type payload =>
        if negb (String.eqb type "run_ok") then
          Throw (ThrowStructured
                   (createError ERROR_CODES.runtime.FAILED
                      "Runtime returned an unexpected message type." [] []))
        else if negb (validateRunResultShape payload) then
          Throw (ThrowStructured
                   (createError ERROR_CODES.runtime.BAD_RESULT_SHAPE
                      "Runtime returned an invalid result shape."
                      ["Check simulation payload and stream configuration."]
                      []))
        else Normal payload
    end in
  match body with
  | Normal payload => Normal payload
  | Throw err =>
      Throw (ThrowStructured
               (normalizeError err ERROR_CODES.runtime.FAILED
                  "Simulation failed."
                  ["Check stream parameters and scenario settings."]))
  end.

(** [init()] from the point where its request has settled: the new
    [ready] and [engineVersion], and the completion. *)
Definition initSettled (rt : PlaygroundRuntime) (s : Settlement)
  : PlaygroundRuntime * Completion JsVal :=
  let failed err :=
    ({| worker := worker rt; requestSeq := requestSeq rt;
        pending := pending rt; ready := false;
        engineVersion := engineVersion rt |},
     Throw (ThrowStructured
              (normalizeError err ERROR_CODES.runtime.LOAD_FAILED
                 "Failed to load Pyodide runtime."
                 ["Check network/CDN access."; "Refresh and retry."]))) in
  match s with
  | Rejected e => failed (ThrowStructured e)
  | Resolved type payload =>
      if negb (String.eqb type "init_ok") then
        failed (ThrowStructured
                  (createError ERROR_CODES.runtime.LOAD_FAILED
                     "Runtime failed to initialize." [] []))
      else
        ({| worker := worker rt; requestSeq := requestSeq rt;
            pending := pending rt; ready := true;
            engineVersion :=
              or_else (field payload "version") (JStr "unknown") |},
         Normal payload)
  end.

(** A request that nothing interrupts: posted, handled by the worker,
    answered. *)
Definition roundTrip (backend : Backend) (rt : PlaygroundRuntime)
  (req : WorkerRequest) : PlaygroundRuntime * option Settlement :=
  let (requestId, rt1) := request rt in
  match worker rt1 with
  | None => (rt1, None)
  | Some ws =>
      let (ws', reply) := Worker.onmessage backend ws req in
      let rt2 :=
        {| worker := Some ws'; requestSeq := requestSeq rt1;
           pending := pending rt1; ready := ready rt1;
           engineVersion := engineVersion rt1 |} in
      let (rt3, settled) := onmessage rt2 requestId reply in
      (rt3, option_map snd settled)
  end.

(** [await runtime.init()] with no interruption. *)
Definition init (backend : Backend) (rt : PlaygroundRuntime)
  (indexURL : JsVal) : PlaygroundRuntime * option (Completion JsVal) :=
  let (rt1, settled) := roundTrip backend rt (InitRequest indexURL) in
  match settled with
  | Some s => let (rt2, c) := initSettled rt1 s in (rt2, Some c)
  | None => (rt1, None)
  end.

(** [await runtime.run(payload)] with no interruption. *)
Definition run (backend : Backend) (rt : PlaygroundRuntime) (payload : JsVal)
  : PlaygroundRuntime * option (Completion JsVal) :=
  let (rt', settled) := roundTrip backend rt (RunRequest payload) in
  (rt', option_map runSettled settled).

(** ** The run orchestrator (docs/app.js) *)

Definition PLAYGROUND_RUN_RESULT_VERSION : string := "PlaygroundRunResultV2".

Record LimitsApplied : Type := {
  max_steps : float;
  max_episodes : float;
  max_scenarios : nat;
  max_run_ms : Z
}.

(** The argument of [buildRunResultV2]. *)
Record RunResultArgs : Type := {
  runId : string;
  configHash : string;
  arg_engineVersion : JsVal;
  limitsApplied : LimitsApplied;
  arg_episodes : JsVal;
  arg_warnings : list string;
  arg_errors : list StructuredError
}.

(** The run artifact. *)
Record RunArtifact : Type := {
  version : string;
  run_id : string;
  config_hash : string;
  engine_version : JsVal;
  created_at : string;
  episodes : JsVal;
  limits_applied : LimitsApplied;
  warnings : list string;
  errors : list StructuredError
}.

(** Modelled from the spec: [buildRunResultV2] of docs/js/schemas.js, which
    is not among the sources.  The design document gives the artifact's
    shape ([version], [run_id], [config_hash], [engine_version],
    [created_at], [episodes], [limits_applied], [warnings], [errors]); the
    model fills it from the argument [runSimulation] passes, with the
    version tag of docs/js/state.js and the creation time [createdAt]. *)
Definition buildRunResultV2 (createdAt : string) (args : RunResultArgs)
  : RunArtifact :=
  {| version := PLAYGROUND_RUN_RESULT_VERSION;
     run_id := runId args;
     config_hash := configHash args;
     engine_version := arg_engineVersion args;
     created_at := createdAt;
     episodes := arg_episodes args;
     limits_applied := limitsApplied args;
     warnings := arg_warnings args;
     errors := arg_errors args |}.

(** How the request of a dispatched scenario ends: the worker answers, the
    worker crashes ([onerror]), or [terminate()] is called meanwhile. *)
Inductive Arrival : Type :=
| Answered (reply : WorkerReply)
| Crashed (eventMessage : JsVal)
| Terminated.

(** The settlement each of the three handlers of docs/js/runtime.js gives
    the pending request. *)
Definition settlementOf (a : Arrival) : Settlement :=
  match a with
  | Answered (WorkerError msg) =>
      Rejected
        (createError ERROR_CODES.runtime.FAILED
           (if nonempty msg then msg else "Runtime worker failed.") [] [])
  | Answered (InitOk info) => Resolved "init_ok" info
  | Answered (RunOk result) => Resolved "run_ok" result
  | Crashed eventMessage =>
      Rejected
        (createError ERROR_CODES.runtime.FAILED "Runtime worker crashed."
           ["Reload the page and retry."] [("message", eventMessage)])
  | Terminated => Rejected cancelledError
  end.

(** What [runSimulation] reads from outside itself: the flags [isRunning]
    and [pyodideReady] on entry, the payload [getConfigPayloadV2()] builds
    from the state and the run controls, the table [STREAM_DEFS], what
    [detectMemoryPressure()] reports, the start time as an ISO string and
    in milliseconds, the hash of the configuration, the engine version
    shown, and the time the artifact is stamped with.  [cancelRequested i]
    and [now i] are the flag and [Date.now()] as the loop reads them at
    the boundary before scenario [i], [nowAfterLoop] the reading after the
    loop, [arrival i] how the request of scenario [i] ends.  [payloadOf]
    stands for the regrouping of the overrides and
    [buildPayloadWithOverrides], whose [buildRunPayload] belongs to
    docs/js/schemas.js. *)
Record RunEnv : Type := {
  isRunning : bool;
  pyodideReady : bool;
  configV2 : JsVal;
  STREAM_DEFS : StreamDefs;
  memoryWarning : option string;
  runStartedAt : string;
  runStartMs : Z;
  hashText : string;
  engineVersionShown : JsVal;
  cancelRequested : nat -> bool;
  now : nat -> Z;
  nowAfterLoop : Z;
  payloadOf : Scenario -> Completion JsVal;
  arrival : nat -> JsVal -> Arrival;
  createdAt : string
}.

Record ScenarioResult : Type := {
  r_label : string;
  r_result : JsVal
}.

(** Where a call of [runSimulation] ends. *)
Inductive RunOutcome : Type :=
| AlreadyRunning
| RuntimeNotReady
| ValidationThrew (t : Thrown)
| ValidationFailed (validationErrors : list StructuredError)
| NoScenarios
| RunFailed (normalized : StructuredError)
| NoOutput
| Done (artifact : RunArtifact) (results : list ScenarioResult).

Definition isDigit (c : ascii) : bool :=
  let n := nat_of_ascii c in ((48 <=? n) && (n <=? 57))%nat.

Fixpoint filterString (keep : ascii -> bool) (s : string) : string :=
  match s with
  | EmptyString => EmptyString
  | String c rest =>
      if keep c then String c (filterString keep rest)
      else filterString keep rest
  end.

(** [s.slice(0, n)] *)
Definition sliceTo (n : nat) (s : string) : string := substring 0 n s.

(** [s.slice(-n)] *)
Definition sliceLast (n : nat) (s : string) : string :=
  substring (String.length s - n) n s.

Section Orchestrator.
Context {B : Builtins}.

(** [assertRunPayloadBridge(payload)] *)
Definition assertRunPayloadBridge (payload : JsVal) : Completion unit :=
  if negb (isObjectLike payload) then
    Throw (ThrowStructured
             (createError ERROR_CODES.runtime.FAILED
                "Runtime payload is invalid." [] []))
  else
    match field payload "layers" with
    | JArr (_ :: _) => Normal tt
    | _ =>
        Throw (ThrowStructured
                 (createError ERROR_CODES.validation.LAYERS_INVALID
                    "Runtime payload requires at least one layer." [] []))
    end.

(** The [for] loop over [scenarios] from index [i] on, with [results] as
    collected so far and [dispatched] the scenarios already handed to
    [runtime.run]. *)
Fixpoint dispatchLoop (env : RunEnv) (scenarios : list Scenario) (i : nat)
  (results : list ScenarioResult) (dispatched : list Scenario)
  : list Scenario * Completion (list ScenarioResult) :=
  match scenarios with
  | [] => (dispatched, Normal results)
  | scenario :: rest =>
      if cancelRequested env i then
        (dispatched,
         Throw (ThrowStructured
                  (createError ERROR_CODES.runtime.CANCELLED
                     "Run cancelled by user."
                     ["You can replay or adjust settings before running again."]
                     [])))
      else if (now env i - runStartMs env >? maxRunMs RUN_LIMITS)%Z then
        (dispatched,
         Throw (ThrowStructured
                  (createError ERROR_CODES.runtime.LIMIT_EXCEEDED
                     ("Run exceeded " ++ intToString (maxRunMs RUN_LIMITS)
                      ++ "ms limit.")
                     ["Reduce steps/episodes/scenarios.";
                      "Run fewer condition combinations."]
                     [])))
      else
        match payloadOf env scenario with
        | Throw t => (dispatched, Throw t)
        | Normal payload =>
            match assertRunPayloadBridge payload with
            | Throw t => (dispatched, Throw t)
            | Normal _ =>
                let sent := (dispatched ++ [scenario])%list in
                match runSettled (settlementOf (arrival env i payload)) with
                | Throw t => (sent, Throw t)
                | Normal result =>
                    dispatchLoop env rest (S i)
                      (results
                       ++ [ {| r_label := label scenario;
                               r_result := result |} ])%list
                      sent
                end
            end
        end
  end.

Definition truncationNotice : string :=
  "Scenario count capped at " ++ natToString (maxScenarios RUN_LIMITS) ++ ".".

(** [runSimulation()]: the scenarios it handed to the dispatcher, in
    order, and where it ended. *)
Definition runSimulation (env : RunEnv) (st : State)
  : list Scenario * RunOutcome :=
  if isRunning env then ([], AlreadyRunning)
  else if negb (pyodideReady env) then ([], RuntimeNotReady)
  else
    match validateConfigPayload (configV2 env) (STREAM_DEFS env) RUN_LIMITS with
    | Throw t => ([], ValidationThrew t)
    | Normal (e :: es) => ([], ValidationFailed (e :: es))
    | Normal [] =>
        let allScenarios := buildScenarioList st in
        match allScenarios with
        | [] => ([], NoScenarios)
        | _ :: _ =>
            let scenarios := firstn (maxScenarios RUN_LIMITS) allScenarios in
            let truncated :=
              (List.length scenarios <? List.length allScenarios)%nat in
            let warnings :=
              match memoryWarning env with
              | Some w => [w]
              | None => []
              end in
            let runId :=
              sliceTo 14 (filterString isDigit (runStartedAt env))
              ++ "-" ++ sliceLast 8 (hashText env) in
            match dispatchLoop env scenarios 0 [] [] with
            | (dispatched, Throw err) =>
                (dispatched,
                 RunFailed
                   (normalizeError err ERROR_CODES.runtime.FAILED
                      "Simulation failed."
                      ["Check stream parameters and scenario settings.";
                       "Reduce run size if your browser is resource constrained."]))
            | (dispatched, Normal []) => (dispatched, NoOutput)
            | (dispatched, Normal (first :: others)) =>
                let durationMs := (nowAfterLoop env - runStartMs env)%Z in
                (dispatched,
                 Done
                   (buildRunResultV2 (createdAt env)
                      {| runId := runId;
                         configHash := hashText env;
                         arg_engineVersion := engineVersionShown env;
                         limitsApplied :=
                           {| max_steps := maxSteps RUN_LIMITS;
                              max_episodes := maxEpisodes RUN_LIMITS;
                              max_scenarios := maxScenarios RUN_LIMITS;
                              max_run_ms := maxRunMs RUN_LIMITS |};
                         arg_episodes :=
                           or_else (field (r_result first) "episodes")
                                   (JArr []);
                         arg_warnings :=
                           ((if truncated then [truncationNotice] else [])
                            ++ warnings)%list;
                         arg_errors :=
                           if (durationMs >? maxRunMs RUN_LIMITS)%Z
                           then [ createError
                                    ERROR_CODES.runtime.LIMIT_EXCEEDED
                                    "Runtime limit exceeded." [] [] ]
                           else [] |})
                   (first :: others))
            end
        end
    end.

End Orchestrator.

(** ** Config migration (docs/js/schemas.js) *)

Definition PLAYGROUND_CONFIG_VERSION : string := "PlaygroundConfigV2".

(** The version tag of the previous release. *)
Definition PRIOR_CONFIG_VERSION : string := "PlaygroundConfigV1".

(** The fields of a prior-version document that the current shape
    replaces. *)
Definition supersededFields : list string :=
  ["version"; "steps"; "episodes"; "seed"; "controls"].

(** Modelled from the spec: [migrateIncomingConfig] of docs/js/schemas.js,
    which is not among the sources (its test docs/js/__tests__/schemas.test.js
    is).  The design document says [migrate] accepts any known prior
    version, maps old field names and shapes onto the current shape (flat
    [steps]/[episodes]/[seed] become the nested [controls]), returns an
    already-current document unchanged, and fails with a
    [compat.unknown_*_version] error for an unrecognized version.  The
    model keeps every other field of the prior document as it is. *)
Definition migrate (rawDocument : JsVal) : Completion JsVal :=
  match rawDocument, field rawDocument "version" with
  | JObj props, JStr v =>
      if String.eqb v PLAYGROUND_CONFIG_VERSION then Normal rawDocument
      else if String.eqb v PRIOR_CONFIG_VERSION then
        Normal
          (JObj
             (("version", JStr PLAYGROUND_CONFIG_VERSION)
              :: ("controls",
                  JObj [("steps", field rawDocument "steps");
                        ("episodes", field rawDocument "episodes");
                        ("seed", field rawDocument "seed")])
              :: filter
                   (fun kv =>
                      negb (existsb (String.eqb (fst kv)) supersededFields))
                   props))
      else
        Throw (ThrowStructured
                 (createError ERROR_CODES.compat.UNKNOWN_CONFIG_VERSION
                    ("Unknown config version: " ++ v) [] []))
  | _, _ =>
      Throw (ThrowStructured
               (createError ERROR_CODES.compat.UNKNOWN_CONFIG_VERSION
                  "Unknown config version." [] []))
  end.

(** A document [migrate] recognizes: current, or of the prior version. *)
Definition recognized (rawDocument : JsVal) : Prop :=
  exists props v,
    rawDocument = JObj props /\ field rawDocument "version" = JStr v
    /\ (v = PLAYGROUND_CONFIG_VERSION \/ v = PRIOR_CONFIG_VERSION).

(** ** The expected result shape, as the design document states it *)

(** An object in JavaScript's sense: not a primitive, not [null], not a
    function. *)
Definition isObject (v : JsVal) : Prop :=
  match v with JObj _ | JArr _ => True | _ => False end.

(** An object with an [episodes] array in which every episode is an object
    with a [per_step] array and an [episode] object. *)
Definition ResultShape (result : JsVal) : Prop :=
  isObject result
  /\ exists eps,
       field result "episodes" = JArr eps
       /\ Forall (fun ep =>
                    isObject ep
                    /\ (exists rows, field ep "per_step" = JArr rows)
                    /\ isObject (field ep "episode"))
                 eps.

(** ** Auxiliary notions of the statements *)

Fixpoint hasColon (s : string) : bool :=
match s with
| EmptyString => false
| String c rest => Ascii.eqb c ":" || hasColon rest
end.

(** What [migrate] makes of a prior-version document. *)
Definition upgraded (props : Obj) : JsVal :=
JObj
  (("version", JStr PLAYGROUND_CONFIG_VERSION)
   :: ("controls",
       JObj [("steps", field (JObj props) "steps");
             ("episodes", field (JObj props) "episodes");
             ("seed", field (JObj props) "seed")])
   :: filter
        (fun kv => negb (existsb (String.eqb (fst kv)) supersededFields))
        props).

Section Auxiliary.
Context {B : Builtins}.

(** The value [options.forEach] stores for the option [opt] at [idx]. *)
Definition mapValue (sourceMap : Obj) (idx : nat) (opt : string) : JsVal :=
match ownGet sourceMap opt with
| None => JNum (natToNumber idx)
| Some raw =>
    match parseNumberish raw with
    | Some mapped => JNum mapped
    | None => raw
    end
end.

(** The source map [normalizeCategoryMeta] reads the mappings from. *)
Definition sourceMapOf (info : Obj) : Obj :=
if isObjectLike (objGet info "map") then ownProps (objGet info "map")
else [].

(** A run that passes its guards and validation is its dispatch loop over
  the first [maxScenarios] scenarios. *)
Definition started (env : RunEnv) : Prop :=
isRunning env = false /\ pyodideReady env = true
/\ validateConfigPayload (configV2 env) (STREAM_DEFS env) RUN_LIMITS
   = Normal [].

(** The scenarios [before] went through the loop: each was handed over
  and answered with a result. *)
Definition wentThrough (env : RunEnv) (before : list Scenario) : Prop :=
exists sent collected,
  dispatchLoop env before 0 [] [] = (sent, Normal collected).

(** A stream on which the checks of a stream cannot throw: its type
    resolves, and its [params] is absent or an object. *)
Definition checkableStream (streamDefs : StreamDefs) (stream : JsVal) : bool :=
  negb (isObjectLike stream)
  || (match lookupDefs streamDefs (field stream "type") with
      | Normal _ => true
      | Throw _ => false
      end
      && match or_else (field stream "params") (JObj []) with
         | JObj _ | JArr _ | JFun _ => true
         | _ => false
         end).

Definition checkableConfig (streamDefs : StreamDefs) (config : JsVal) : bool :=
  match field config "layers" with
  | JArr layers =>
      forallb (fun layer =>
                 match layer with
                 | JArr streams => forallb (checkableStream streamDefs) streams
                 | _ => true
                 end)
              layers
  | _ => true
  end.

End Auxiliary.

(** ** Sample configurations and runs *)

(** The end-to-end example of the design document: one layer with one
    [Price] stream. *)
#[warnings="-inexact-float"]
Definition priceState : State :=
  {| components :=
       [ {| id := JStr "L1S1";
            params := [("start", JNum 100%float); ("drift", JNum 0.03%float);
                       ("noise", JNum 0.05%float)];
            paramMeta := [] |} ] |}.

(** One stream with the two condition axes [mode] and [level]. *)
Definition twoAxisState : State :=
  {| components :=
       [ {| id := JStr "L1S1";
            params := [("mode", JStr "a")];
            paramMeta :=
              [("mode", JObj [("type", JStr "category");
                              ("options", JArr [JStr "a"; JStr "b"])]);
               ("level", JObj [("type", JStr "category");
                               ("kind", JStr "condition");
                               ("options", JArr [JStr "x"; JStr "y"])])] |} ] |}.

(** One stream whose condition axis lists the option [a] twice. *)
Definition twinOptionState : State :=
  {| components :=
       [ {| id := JStr "L1S1";
            params := [];
            paramMeta :=
              [("mode", JObj [("type", JStr "category");
                              ("options", JArr [JStr "a"; JStr "a"])])] |} ] |}.

(** A categorical parameter whose option [a] is mapped to [true]. *)
Definition flaggedInfo : Obj :=
  [("type", JStr "category"); ("options", JArr [JStr "a"]);
   ("map", JObj [("a", JBool true)])].

(** A categorical parameter with a mapping for [low] only. *)
Definition levelInfo : Obj :=
  [("type", JStr "category"); ("options", JArr [JStr "low"; JStr "high"]);
   ("value", JStr "high"); ("map", JObj [("low", JNum 1%float)])].

(** The configuration of the validation tests, with a string where the
    parameters of the stream should be. *)
Definition stringParamsConfig : JsVal :=
  JObj [("version", JStr "PlaygroundConfigV2");
        ("controls", JObj [("steps", JNum 10%float);
                           ("episodes", JNum 2%float);
                           ("seed", JNum 123%float)]);
        ("layers",
         JArr [JArr [JObj [("type", JStr "Price");
                           ("params", JStr "oops")]]])].

(** The [STREAM_DEFS] of docs/js/__tests__/validation.test.js. *)
Definition priceDefs : StreamDefs :=
  [("Price", [ {| def_key := "start" |}; {| def_key := "drift" |};
               {| def_key := "noise" |} ])].

(** The two cases of docs/js/__tests__/validation.test.js. *)
Definition testConfig (steps : float) : JsVal :=
  JObj [("version", JStr "PlaygroundConfigV2");
        ("controls", JObj [("steps", JNum steps);
                           ("episodes", JNum 2%float);
                           ("seed", JNum 123%float)]);
        ("layers",
         JArr [JArr [JObj [("type", JStr "Price");
                           ("params",
                            JObj [("start", JNum 100%float);
                                  ("drift", JNum 0.5%float);
                                  ("noise", JNum 0.25%float)])]]])].

(** A result of one episode with two rows, and a response that is not a
    result. *)
Definition oneEpisodeResult : JsVal :=
  JObj [("episodes",
         JArr [JObj [("seed", JNum 123%float);
                     ("per_step", JArr [JObj [("t", JNum 0%float)];
                                        JObj [("t", JNum 1%float)]]);
                     ("episode", JObj [("mean", JNum 1%float)])]])].

Definition rowsOnlyResult : JsVal :=
  JObj [("episodes", JArr [JObj [("per_step", JArr [])]])].

(** A payload as [buildRunPayload] makes it for [testConfig]. *)
Definition samplePayload : JsVal :=
  JObj [("steps", JNum 10%float); ("episodes", JNum 2%float);
        ("seed", JNum 123%float);
        ("layers",
         JArr [JArr [JObj [("name", JStr "L1S1"); ("type", JStr "Price");
                           ("params", JObj [])]]])].

(** A run in which the backend answers every scenario, with the given
    cancellation flag, clock and arrivals at each boundary. *)
Definition sampleEnv (cancel : nat -> bool) (clock : nat -> Z)
  (arrive : nat -> JsVal -> Arrival) : RunEnv :=
  {| isRunning := false;
     pyodideReady := true;
     configV2 := testConfig 10%float;
     STREAM_DEFS := priceDefs;
     memoryWarning := None;
     runStartedAt := "2026-02-13T10:20:30.123Z";
     runStartMs := 1000%Z;
     hashText := "sha256-0123456789abcdef01234567";
     engineVersionShown := JStr "0.26.4";
     cancelRequested := cancel;
     now := clock;
     nowAfterLoop := 2000%Z;
     payloadOf := fun _ => Normal samplePayload;
     arrival := arrive;
     createdAt := "2026-02-13T10:20:31.000Z" |}.

Definition quietEnv : RunEnv :=
  sampleEnv (fun _ => false) (fun i => 1000 + Z.of_nat i)%Z
            (fun _ _ => Answered (RunOk oneEpisodeResult)).

(** The clock has passed the limit at the second boundary. *)
Definition lateEnv : RunEnv :=
  sampleEnv (fun _ => false)
            (fun i => if (i =? 0)%nat then 1000%Z else 50000%Z)
            (fun _ _ => Answered (RunOk oneEpisodeResult)).

(** Cancellation is requested while the first scenario is in flight, and
    the clock has passed the limit at the second boundary. *)
Definition cancelledEnv : RunEnv :=
  sampleEnv (fun i => (1 <=? i)%nat)
            (fun i => if (i =? 0)%nat then 1000%Z else 50000%Z)
            (fun _ _ => Answered (RunOk oneEpisodeResult)).

(** The dispatcher is terminated while the second scenario is in flight. *)
Definition terminatedEnv : RunEnv :=
  sampleEnv (fun _ => false) (fun i => 1000 + Z.of_nat i)%Z
            (fun i _ => if (i =? 1)%nat then Terminated
                        else Answered (RunOk oneEpisodeResult)).

(** One stream whose condition axis has 65 options. *)
Definition wideState : State :=
  {| components :=
       [ {| id := JStr "L1S1";
            params := [];
            paramMeta :=
              [("level",
                JObj [("type", JStr "category");
                      ("options",
                       JArr (map (fun n => JStr ("o" ++ natToString n))
                                 (seq 0 65)))])] |} ] |}.

(** A backend that loads and answers every run with one episode. *)
Definition sampleBackend : Backend :=
  {| load := fun _ => Loaded "0.26.4";
     run_sim := fun _ => inl oneEpisodeResult |}.

(** The prior-version document of docs/js/__tests__/schemas.test.js. *)
Definition priorDocument : JsVal :=
  JObj [("version", JStr "PlaygroundConfigV1");
        ("steps", JNum 12%float); ("episodes", JNum 3%float);
        ("seed", JNum 7%float);
        ("layers",
         JArr [JArr [JObj [("name", JStr "L1"); ("type", JStr "Price");
                           ("params",
                            JObj [("start", JNum 100%float);
                                  ("drift", JNum 0.5%float);
                                  ("noise", JNum 0.25%float)])]]])].

(** One [GovernmentPolicy] stream, as [STREAM_TEMPLATES] of docs/app.js
    declares it. *)
#[warnings="-inexact-float"]
Definition policyState : State :=
  {| components :=
       [ {| id := JStr "L1S1";
            params := [("tax", JNum 0.1%float)];
            paramMeta :=
              [("tax",
                JObj [("type", JStr "category");
                      ("kind", JStr "condition");
                      ("options", JArr [JStr "Tax 0.1"; JStr "Tax 0.3"]);
                      ("value", JStr "Tax 0.1");
                      ("map", JObj [("Tax 0.1", JNum 0.1%float);
                                    ("Tax 0.3", JNum 0.3%float)])])] |} ] |}.

(** The end-to-end example of the design document: 20 steps, one episode,
    seed 123, and a backend that answers with one episode of 20 rows. *)
#[warnings="-inexact-float"]
Definition priceConfig : JsVal :=
  JObj [("version", JStr "PlaygroundConfigV2");
        ("controls", JObj [("steps", JNum 20%float);
                           ("episodes", JNum 1%float);
                           ("seed", JNum 123%float)]);
        ("layers",
         JArr [JArr [JObj [("name", JStr "L1S1"); ("type", JStr "Price");
                           ("params",
                            JObj [("start", JNum 100%float);
                                  ("drift", JNum 0.03%float);
                                  ("noise", JNum 0.05%float)])]]])].

Definition twentyRowResult : JsVal :=
  JObj [("episodes",
         JArr [JObj [("seed", JNum 123%float);
                     ("per_step",
                      JArr (map (fun t => JObj [("t", JNum (natToNumber t))])
                                (seq 0 20)));
                     ("episode", JObj [("mean", JNum 100%float)])]])].

Definition priceEnv : RunEnv :=
  {| isRunning := false;
     pyodideReady := true;
     configV2 := priceConfig;
     STREAM_DEFS := priceDefs;
     memoryWarning := None;
     runStartedAt := "2026-02-13T10:20:30.123Z";
     runStartMs := 1000%Z;
     hashText := "sha256-0123456789abcdef01234567";
     engineVersionShown := JStr "0.26.4";
     cancelRequested := fun _ => false;
     now := fun _ => 1000%Z;
     nowAfterLoop := 1500%Z;
     payloadOf := fun _ => Normal samplePayload;
     arrival := fun _ _ => Answered (RunOk twentyRowResult);
     createdAt := "2026-02-13T10:20:31.000Z" |}.

(** ** Strings that begin with no white space *)

Definition startsBlack (s : string) : bool :=
  match s with EmptyString => true | String c _ => negb (isWhite c) end.

(** ** Parameter encoding (docs/app.js) *)

(** The object literal [normalizeCategoryMeta] returns. *)
Definition categoryObject (m : CategoryMeta) : Obj :=
  [("type", JStr "category"); ("kind", cm_kind m);
   ("options", JArr (map JStr (cm_options m)));
   ("value", JStr (cm_value m)); ("map", JObj (cm_map m))].

(** [{ ...a, ...b }]: the own properties of [a], then those of [b], each
    defined on the new object. *)
Definition spread (a b : Obj) : Obj :=
  fold_left (fun o kv => ownSet o (fst kv) (snd kv)) (a ++ b)%list [].

(** [o[k] = v] on a plain object that may have been made by a spread: an
    own property is written in place, a new one goes last; the name
    [__proto__], when [o] has no own property of that name, reaches the
    accessor of [Object.prototype] and adds no own property. *)
Definition assign (o : Obj) (k : string) (v : JsVal) : Obj :=
  if String.eqb k "__proto__" && negb (hasOwn o k) then o else ownSet o k v.

(** The names of the own properties of an object are pairwise distinct;
    [__proto__] is not among those of an object built by assignments. *)
Definition properKeys (o : Obj) : Prop :=
  NoDup (map fst o) /\ ~ In "__proto__" (map fst o).

Section ParamMeta.
Context {B : Builtins}.

(** The body of [Object.entries(meta || {}).forEach(([key, info]) => ...)]
    in [normalizeParamMeta]; [{ ...info }] of an array has its indices. *)
Definition paramMetaStep (params : Obj) (normalized : Obj)
  (entry : string * JsVal) : Obj :=
  let (key, info) := entry in
  if negb (isObjectLike info) then normalized
  else if strictEqStr (field info "type") "category" then
    match info with
    | JObj o =>
        objSet normalized key
               (JObj (categoryObject
                        (normalizeCategoryMeta o (objGet params key))))
    | _ => normalized
    end
  else
    objSet normalized key
           (JObj match info with
                 | JObj o => o
                 | JArr l => indexed l
                 | _ => []
                 end).

(** [normalizeParamMeta(meta = {}, params = {})] *)
Definition normalizeParamMeta (meta params : Obj) : Obj :=
  fold_left (paramMetaStep params) meta [].

(** The body of [Object.entries(meta).forEach(([key, info]) => ...)] in
    [encodeComponentParams]. *)
Definition encodeStep (override : Obj) (params : Obj)
  (entry : string * JsVal) : Obj :=
  let (key, info) := entry in
  if strictEqStr (field info "type") "category" then
    match info with
    | JObj o =>
        let normalized := normalizeCategoryMeta o (objGet params key) in
        let selectedRaw :=
          coalesce (coalesce (objGet override key)
                             (JStr (cm_value normalized)))
                   (objGet params key) in
        let selected := ToString selectedRaw in
        match ownGet (cm_map normalized) selected with
        | Some mapped => assign params key mapped
        | None =>
            match parseNumberish selectedRaw with
            | Some numeric => assign params key (JNum numeric)
            | None =>
                match cm_options normalized with
                | fallback :: _ =>
                    assign params key
                           match ownGet (cm_map normalized) fallback with
                           | Some mapped => mapped
                           | None => JNum 0%float
                           end
                | [] => assign params key selectedRaw
                end
            end
        end
    | _ => params
    end
  else params.

(** [encodeComponentParams(component, override = {})], for the plain
    object [override] its callers pass. *)
Definition encodeComponentParams (component : Component) (override : Obj)
  : Obj :=
  fold_left (encodeStep override) (paramMeta component)
            (spread (params component) override).

(** A component whose metadata went through [normalizeParamMeta] with its
    own parameters, as [mergeParamMeta] leaves it. *)
Definition normalizedComponent (component : Component) : Component :=
  {| id := id component;
     params := params component;
     paramMeta := normalizeParamMeta (paramMeta component) (params component) |}.

(** What [normalizeParamMeta] keeps of one entry. *)
Definition normalizedEntry (params : Obj) (entry : string * JsVal)
  : list (string * JsVal) :=
  paramMetaStep params [] entry.

(** The options [normalizeCategoryMeta] finds declared, and the label of
    its fallback. *)
Definition declaredOptions (info : Obj) : list string :=
  filter nonempty
         (map (fun opt => trim (ToString opt))
              match objGet info "options" with JArr l => l | _ => [] end).

Definition fallbackLabelOf (info : Obj) (fallbackArg : JsVal) : string :=
  trim (ToString
          (coalesce
             (coalesce match fallbackArg with JUndef => JStr "" | v => v end
                       (objGet info "value"))
             (JStr ""))).

End ParamMeta.

(** ** Overrides by component (docs/app.js) *)

(** [compound.split("::")] *)
Fixpoint splitColons (s : string) : list string :=
  match s with
  | EmptyString => [EmptyString]
  | String c rest =>
      match rest with
      | String c' rest' =>
          if Ascii.eqb c ":" && Ascii.eqb c' ":"
          then EmptyString :: splitColons rest'
          else
            match splitColons rest with
            | part :: parts => String c part :: parts
            | [] => [String c EmptyString]
            end
      | EmptyString => [String c EmptyString]
      end
  end.

(** The object [overrideMap] of a scenario: its own properties, each the
    object the loop created for a component. *)
Definition OverrideMap : Type := list (string * Obj).

Fixpoint groupGet (overrideMap : OverrideMap) (cid : string) : option Obj :=
  match overrideMap with
  | [] => None
  | (cid', group) :: rest =>
      if String.eqb cid' cid then Some group else groupGet rest cid
  end.

Fixpoint groupSet (overrideMap : OverrideMap) (cid : string) (group : Obj)
  : OverrideMap :=
  match overrideMap with
  | [] => [(cid, group)]
  | (cid', group') :: rest =>
      if String.eqb cid' cid then (cid', group) :: rest
      else (cid', group') :: groupSet rest cid group
  end.

(** A value the accessor [__proto__] accepts as a prototype. *)
Definition canBePrototype (v : JsVal) : bool :=
  match v with
  | JObj _ | JArr _ | JFun _ | JNull => true
  | _ => false
  end.

(** Where the regrouping of a scenario's overrides ends: with the object
    [overrideMap], or at the first write [overrideMap[cid][key] = value]
    that reaches something else than an own property of an object the
    loop created, after which the model says nothing: the write lands on
    the member of [Object.prototype] that [overrideMap] inherits under
    the name [cid], or, with [__proto__] for [key], it replaces a
    prototype. *)
Inductive Regrouped : Type :=
| Grouped (overrideMap : OverrideMap)
| Escaped (cid key : string) (value : JsVal).

(** The body of [Object.entries(scenario.overrides).forEach(...)]:
    [const [cid, key] = compound.split("::")], then
    [if (!overrideMap[cid]) overrideMap[cid] = {}] and
    [overrideMap[cid][key] = value].  The accessor [__proto__] ignores a
    primitive value. *)
Definition regroupStep (overrideMap : OverrideMap) (entry : string * JsVal)
  : Regrouped :=
  let (compound, value) := entry in
  let parts := splitColons compound in
  let cid := hd EmptyString parts in
  let key := match parts with _ :: k :: _ => k | _ => "undefined" end in
  let replaces := String.eqb key "__proto__" && canBePrototype value in
  match groupGet overrideMap cid with
  | Some group =>
      if replaces then Escaped cid key value
      else Grouped (groupSet overrideMap cid (objSet group key value))
  | None =>
      if inObjectPrototype cid then
        if String.eqb key "__proto__" && negb (canBePrototype value)
        then Grouped overrideMap
        else Escaped cid key value
      else if replaces then Escaped cid key value
      else Grouped (groupSet overrideMap cid (objSet [] key value))
  end.

Fixpoint regroupFrom (overrideMap : OverrideMap)
  (entries : list (string * JsVal)) : Regrouped :=
  match entries with
  | [] => Grouped overrideMap
  | entry :: rest =>
      match regroupStep overrideMap entry with
      | Grouped overrideMap' => regroupFrom overrideMap' rest
      | Escaped cid key value => Escaped cid key value
      end
  end.

(** The [overrideMap] that [runSimulation] builds for a scenario. *)
Definition regroup (overrides : Obj) : Regrouped := regroupFrom [] overrides.

(** [overrideMap?.[componentId] || {}] in [buildPayloadWithOverrides]. *)
Definition overrideFor (overrideMap : OverrideMap) (componentId : string)
  : JsVal :=
  match groupGet overrideMap componentId with
  | Some group => JObj group
  | None => or_else (objectPrototypeGet componentId) (JObj [])
  end.

(** The value [overrideMap[cid][key]], when both are own properties. *)
Definition lookup2 (m : OverrideMap) (cid key : string) : option JsVal :=
  match groupGet m cid with
  | Some g => ownGet g key
  | None => None
  end.

(** Names that regrouping takes apart as they were put together: no
    ["::"] inside, and for a component identifier no colon at the end and
    no member of [Object.prototype]. *)
Fixpoint containsSep (s : string) : bool :=
  match s with
  | EmptyString => false
  | String c rest =>
      match rest with
      | String c' _ => (Ascii.eqb c ":" && Ascii.eqb c' ":") || containsSep rest
      | EmptyString => false
      end
  end.

Fixpoint endsWithColon (s : string) : bool :=
  match s with
  | EmptyString => false
  | String c EmptyString => Ascii.eqb c ":"
  | String _ rest => endsWithColon rest
  end.

Definition plainId (cid : string) : bool :=
  negb (containsSep cid) && negb (endsWithColon cid)
  && negb (inObjectPrototype cid).

Definition plainKey (key : string) : bool :=
  negb (containsSep key) && negb (String.eqb key "__proto__").

Section PlainAxes.
Context {B : Builtins}.

Definition plainAxis (cat : Category) : bool :=
  plainId (ToString (componentId cat)) && plainKey (key cat).

End PlainAxes.

(** ** Parameter defaults (docs/app.js) *)

(** An entry of a [STREAM_DEFS] list, with what [mergeDefaultsForType]
    reads of it. *)
Record ParamDef : Type := {
  pd_key : string;
  pd_default : JsVal
}.

Definition ParamDefs : Type := list (string * list ParamDef).

(** What [validateConfigPayload] reads of the table. *)
Definition requiredKeys (table : ParamDefs) : StreamDefs :=
  map (fun e => (fst e, map (fun def => {| def_key := pd_key def |}) (snd e)))
      table.

Section Defaults.
Context {B : Builtins}.

(** [STREAM_DEFS[type] || []], then the receiver of [defs.forEach]: a
    name found on [Object.prototype] answers a value with no [forEach]. *)
Definition lookupParamDefs (table : ParamDefs) (type : JsVal)
  : Completion (list ParamDef) :=
  let fix own (table : ParamDefs) (k : string) : option (list ParamDef) :=
    match table with
    | [] => None
    | (k', defs) :: rest => if String.eqb k' k then Some defs else own rest k
    end in
  match own table (ToString type) with
  | Some defs => Normal defs
  | None =>
      if inObjectPrototype (ToString type)
      then Throw (TypeError "defs.forEach is not a function")
      else Normal []
  end.

(** [merged[def.key] = existing?.[def.key] ?? def.default ?? ""] *)
Definition defaultStep (existing : Obj) (merged : Obj) (def : ParamDef)
  : Obj :=
  objSet merged (pd_key def)
         (coalesce (coalesce (objGet existing (pd_key def)) (pd_default def))
                   (JStr "")).

(** [if (!(k in merged)) merged[k] = v] *)
Definition customStep (merged : Obj) (entry : string * JsVal) : Obj :=
  let (k, v) := entry in
  if hasOwn merged k || inObjectPrototype k then merged else objSet merged k v.

(** [mergeDefaultsForType(type, existing)], with the table [STREAM_DEFS]
    as [table] and a plain object for [existing]. *)
Definition mergeDefaultsForType (table : ParamDefs) (type : JsVal)
  (existing : Obj) : Completion Obj :=
  do defs <- lookupParamDefs table type;
  let merged := fold_left (defaultStep existing) defs [] in
  if negb (strictEqStr type "Custom") then Normal merged
  else Normal (fold_left customStep existing merged).

End Defaults.

Module App.

(** The table [STREAM_DEFS] of docs/app.js: the parameters of each stream
    type, with their defaults. *)
#[warnings="-inexact-float"]
Definition STREAM_DEFS : ParamDefs :=
  [
    ("Custom", []);
    ("GovernmentPolicy",
     [ {| pd_key := "tax"; pd_default := JNum 0.1%float |}]);
    ("IndustryRegime",
     [ {| pd_key := "audit_prob"; pd_default := JNum 0.2%float |};
       {| pd_key := "penalty_intensity"; pd_default := JNum 0.3%float |}]);
    ("MarketSignal",
     [ {| pd_key := "base_demand"; pd_default := JNum 100%float |};
       {| pd_key := "growth_rate"; pd_default := JNum 0.02%float |};
       {| pd_key := "market_power"; pd_default := JNum 0.2%float |}]);
    ("FirmGroup",
     [ {| pd_key := "firm_count"; pd_default := JNum 4%float |};
       {| pd_key := "costs"; pd_default := JNum 0.4%float |};
       {| pd_key := "initial_balance"; pd_default := JNum 1.0%float |}]);
    ("AllianceMediator",
     [ {| pd_key := "side_payment"; pd_default := JNum 0.0%float |}]);
    ("AllianceRule", [{| pd_key := "rule"; pd_default := JStr "Join" |}]);
    ("GroupGamingRule",
     [ {| pd_key := "mode"; pd_default := JStr "Cooperate" |}]);
    ("PayoffAccounting",
     [ {| pd_key := "strategy"; pd_default := JStr "Collaborate" |}]);
    ("PayoffAccountingGroup",
     [ {| pd_key := "alliance_weight"; pd_default := JNum 0.5%float |}]);
    ("AggregatorFirm",
     [ {| pd_key := "risk_penalty"; pd_default := JNum 0.2%float |}]);
    ("AggregatorTotalWealth",
     [ {| pd_key := "metric"; pd_default := JStr "Total Wealth" |}]);
    ("AggregatorInequality",
     [ {| pd_key := "metric"; pd_default := JStr "Balance Inequality (Gini)" |}]);
    ("Climate",
     [ {| pd_key := "amp"; pd_default := JNum 0.4%float |};
       {| pd_key := "period"; pd_default := JNum 12%float |};
       {| pd_key := "shock_prob"; pd_default := JNum 0.1%float |}]);
    ("Landscape",
     [ {| pd_key := "n_patches"; pd_default := JNum 12%float |};
       {| pd_key := "fragmentation"; pd_default := JNum 0.2%float |};
       {| pd_key := "move_cost"; pd_default := JNum 0.2%float |}]);
    ("PreyRisk",
     [ {| pd_key := "x0"; pd_default := JNum 40%float |};
       {| pd_key := "r"; pd_default := JNum 0.55%float |};
       {| pd_key := "K"; pd_default := JNum 120%float |};
       {| pd_key := "risk"; pd_default := JNum 0.55%float |};
       {| pd_key := "betaF"; pd_default := JNum 0.3%float |};
       {| pd_key := "gammaV"; pd_default := JNum 0.2%float |}]);
    ("PredatorResponse",
     [ {| pd_key := "y0"; pd_default := JNum 9%float |};
       {| pd_key := "conv"; pd_default := JNum 0.3%float |};
       {| pd_key := "mort"; pd_default := JNum 0.1%float |}]);
    ("Movement",
     [ {| pd_key := "dispersal"; pd_default := JNum 0.35%float |}]);
    ("Aggregator",
     [ {| pd_key := "ext_thresh"; pd_default := JNum 1.0%float |}]);
    ("Price",
     [ {| pd_key := "start"; pd_default := JNum 100%float |};
       {| pd_key := "drift"; pd_default := JNum 0.03%float |};
       {| pd_key := "noise"; pd_default := JNum 0.05%float |};
       {| pd_key := "out_key"; pd_default := JStr "" |}]);
    ("Policy",
     [ {| pd_key := "alpha"; pd_default := JNum 0.05%float |};
       {| pd_key := "x_key"; pd_default := JStr "" |}])
  ].

End App.

(** ** Errors on arbitrary values (docs/js/errors.js) *)

(** The object of a structured error. *)
Definition errorObject (e : StructuredError) : JsVal :=
  JObj [("code", JStr (code e)); ("message", JStr (message e));
        ("hints", JArr (map JStr (hints e))); ("details", JObj (details e))].

(** What a [catch] receives: any value, or an instance of [Error], which
    has a [name] and a [message] and no [code]. *)
Inductive Caught : Type :=
| CaughtValue (v : JsVal)
| CaughtError (name message : string).

Definition caughtOf (t : Thrown) : Caught :=
  match t with
  | ThrowStructured e => CaughtValue (errorObject e)
  | ThrowError name message => CaughtError name message
  end.

Module Errors.
Section OnValues.
Context {B : Builtins}.

(** [createError(code, message, hints = [], details = {})] on any
    arguments; an argument left out is [undefined]. *)
Definition createError (code message hints details : JsVal) : JsVal :=
  JObj [("code", code); ("message", message);
        ("hints", if isArray hints then hints else JArr []);
        ("details", if isObjectLike details then details else JObj [])].

(** [normalizeError(err, fallbackCode, fallbackMessage, fallbackHints)]
    on whatever was caught, with the string constants and the array of
    strings its callers give for the fallback. *)
Definition normalizeError (err : Caught) (fallbackCode fallbackMessage : string)
  (fallbackHints : list string) : JsVal :=
  let fallback raw :=
    createError (JStr fallbackCode) (JStr fallbackMessage)
                (JArr (map JStr fallbackHints)) (JObj [("raw", JStr raw)]) in
  match err with
  | CaughtValue v =>
      if isObjectLike v
         && JsType_eqb (typeof (field v "code")) TString
         && JsType_eqb (typeof (field v "message")) TString
      then
        createError (field v "code") (field v "message")
                    (or_else (field v "hints") (JArr []))
                    (or_else (field v "details") (JObj []))
      else fallback (ToString v)
  | CaughtError name message => fallback (name ++ ": " ++ message)
  end.

End OnValues.
End Errors.

(** ** The worker over time (docs/js/runtime.worker.js) *)

(** The worker handling messages one after the other, each with the
    behaviour the backend has at that time. *)
Fixpoint serveAll (g : Worker.Globals)
  (messages : list (Backend * WorkerRequest))
  : Worker.Globals * list WorkerReply :=
  match messages with
  | [] => (g, [])
  | (backend, request) :: rest =>
      let (g1, reply) := Worker.onmessage backend g request in
      let (g2, replies) := serveAll g1 rest in
      (g2, reply :: replies)
  end.

(** What a worker whose load failed with [errString] answers. *)
Definition answerAfterFailure (errString : string)
  (message : Backend * WorkerRequest) : WorkerReply :=
  match snd message with
  | InitRequest _ => WorkerError errString
  | RunRequest _ => WorkerError "runtime-not-ready"
  | OtherRequest type => WorkerError ("Unknown worker message type: " ++ type)
  end.

(** What a worker that has loaded [version] answers. *)
Definition answerWhenReady (version : string)
  (message : Backend * WorkerRequest) : WorkerReply :=
  match snd message with
  | InitRequest _ => InitOk (Worker.versionInfo version)
  | RunRequest payload =>
      match run_sim (fst message) payload with
      | inl result => RunOk result
      | inr msg => WorkerError msg
      end
  | OtherRequest type => WorkerError ("Unknown worker message type: " ++ type)
  end.

(** ** The dispatcher over time (docs/js/runtime.js) *)

(** What happens to a [PlaygroundRuntime]: a request is made, a message
    for a request identifier arrives from the worker, the worker reports
    an error, [terminate()] is called. *)
Inductive RuntimeEvent : Type :=
| Requested
| Replied (requestId : string) (reply : WorkerReply)
| WorkerFailed (eventMessage : JsVal)
| TerminateCalled.

(** The runtime after an event, and the promises the event settles. *)
Definition stepRuntime (rt : PlaygroundRuntime) (event : RuntimeEvent)
  : PlaygroundRuntime * list (string * Settlement) :=
  match event with
  | Requested => (snd (request rt), [])
  | Replied requestId reply =>
      let (rt', settled) := onmessage rt requestId reply in
      (rt', match settled with Some s => [s] | None => [] end)
  | WorkerFailed eventMessage => onerror rt eventMessage
  | TerminateCalled => terminate rt
  end.

Fixpoint runEvents (rt : PlaygroundRuntime) (events : list RuntimeEvent)
  : PlaygroundRuntime * list (string * Settlement) :=
  match events with
  | [] => (rt, [])
  | event :: rest =>
      let (rt1, settled) := stepRuntime rt event in
      let (rt2, later) := runEvents rt1 rest in
      (rt2, (settled ++ later)%list)
  end.

(** The identifier of the [k]-th request. *)
Definition requestIdOf (k : nat) : string := "r" ++ natToString k.

(** The identifiers handed out so far. *)
Definition issued (rt : PlaygroundRuntime) (requestId : string) : Prop :=
  exists k, 1 <= k <= requestSeq rt /\ requestId = requestIdOf k.

(** What every reachable runtime satisfies, with the identifiers settled
    so far. *)
Definition consistent (rt : PlaygroundRuntime) (settled : list string)
  : Prop :=
  NoDup (pending rt ++ settled)
  /\ forall requestId, In requestId (pending rt ++ settled) ->
                       issued rt requestId.

(** ** Onboarding (docs/js/onboarding.js) *)

Definition ONBOARDING_KEY : string := "heas_onboarding_state_v1".
Definition ONBOARDING_VERSION : string := "OnboardingStateV1".

(** The record [parseState] and [defaultState] return; its [version] is
    the constant [ONBOARDING_VERSION]. *)
Record OnboardingState : Type := {
  tour_completed : bool;
  tour_dismissed : bool;
  last_seen_major : float;
  updated_at : string
}.

(** The object of such a record. *)
Definition stateObject (s : OnboardingState) : JsVal :=
  JObj [("version", JStr ONBOARDING_VERSION);
        ("tour_completed", JBool (tour_completed s));
        ("tour_dismissed", JBool (tour_dismissed s));
        ("last_seen_major", JNum (last_seen_major s));
        ("updated_at", JStr (updated_at s))].

(** [s.split(".")[0]] *)
Fixpoint beforeDot (s : string) : string :=
  match s with
  | EmptyString => EmptyString
  | String c rest =>
      if Ascii.eqb c "." then EmptyString else String c (beforeDot rest)
  end.

(** [Number.isFinite(x) ? x : 0] *)
Definition finiteOrZero (x : float) : float :=
  if PrimFloat.is_finite x then x else 0%float.

(** What [window.localStorage] does for a call: there may be none; reading
    the item and parsing it as JSON throws, finds nothing, or gives a
    value; writing the item throws or not. *)
Inductive ReadResult : Type :=
| ReadThrows
| ReadNothing
| ReadJson (v : JsVal).

Record Storage : Type := {
  readItem : ReadResult;
  setItemThrows : bool
}.

Section Onboarding.
Context {B : Builtins}.

(** [parseMajor(appVersion)] *)
Definition parseMajor (appVersion : JsVal) : float :=
  finiteOrZero
    (StringToNumber (beforeDot (ToString (or_else appVersion (JStr "0"))))).

(** [parseState(raw)]; [None] is its [null]. *)
Definition parseState (raw : JsVal) : option OnboardingState :=
  if negb (isObjectLike raw) then None
  else if negb (strictEqStr (field raw "version") ONBOARDING_VERSION) then None
  else
    Some {| tour_completed := truthy (field raw "tour_completed");
            tour_dismissed := truthy (field raw "tour_dismissed");
            last_seen_major :=
              finiteOrZero (ToNumber (field raw "last_seen_major"));
            updated_at :=
              ToString (or_else (field raw "updated_at") (JStr "")) |}.

(** [defaultState()], with the time [now] it reads. *)
Definition defaultState (now : string) : OnboardingState :=
  {| tour_completed := false; tour_dismissed := false;
     last_seen_major := 0%float; updated_at := now |}.

(** [parseState(raw) || defaultState()] *)
Definition parseOrDefault (now : string) (raw : JsVal) : OnboardingState :=
  match parseState raw with
  | Some s => s
  | None => defaultState now
  end.

(** [parseState(inMemoryOnboarding) || defaultState()], where
    [inMemoryOnboarding] is [null] or a record saved before. *)
Definition rememberedOrDefault (now : string)
  (inMemory : option OnboardingState) : OnboardingState :=
  match inMemory with
  | Some s => parseOrDefault now (stateObject s)
  | None => defaultState now
  end.

(** [loadOnboardingState()] *)
Definition loadOnboardingState (now : string)
  (inMemory : option OnboardingState) (store : option Storage)
  : OnboardingState :=
  match store with
  | None => rememberedOrDefault now inMemory
  | Some st =>
      match readItem st with
      | ReadJson v =>
          match parseState v with
          | Some parsed => parsed
          | None => rememberedOrDefault now inMemory
          end
      | ReadNothing | ReadThrows => rememberedOrDefault now inMemory
      end
  end.

(** The assignments [next.tour_completed = b], [next.tour_dismissed = b],
    [next.last_seen_major = x] and [next.updated_at = t]. *)
Definition setCompleted (b : bool) (s : OnboardingState) : OnboardingState :=
  {| tour_completed := b; tour_dismissed := tour_dismissed s;
     last_seen_major := last_seen_major s; updated_at := updated_at s |}.

Definition setDismissed (b : bool) (s : OnboardingState) : OnboardingState :=
  {| tour_completed := tour_completed s; tour_dismissed := b;
     last_seen_major := last_seen_major s; updated_at := updated_at s |}.

Definition setMajor (x : float) (s : OnboardingState) : OnboardingState :=
  {| tour_completed := tour_completed s; tour_dismissed := tour_dismissed s;
     last_seen_major := x; updated_at := updated_at s |}.

Definition setUpdated (t : string) (s : OnboardingState) : OnboardingState :=
  {| tour_completed := tour_completed s; tour_dismissed := tour_dismissed s;
     last_seen_major := last_seen_major s; updated_at := t |}.

(** [saveOnboardingState(state)]: the record it keeps in
    [inMemoryOnboarding] (and hands to [setItem] when there is a store),
    and what it returns. *)
Definition saveOnboardingState (now : string) (state : JsVal)
  (store : option Storage) : OnboardingState * bool :=
  let record := setUpdated now (parseOrDefault now state) in
  (record,
   match store with
   | None => false
   | Some st => negb (setItemThrows st)
   end).

(** [shouldShowTour(state, appVersion)] *)
Definition shouldShowTour (now : string) (state appVersion : JsVal) : bool :=
  let current := parseOrDefault now state in
  let appMajor := parseMajor appVersion in
  if negb (tour_completed current) && negb (tour_dismissed current) then true
  else PrimFloat.ltb (last_seen_major current) appMajor.

(** [markTourCompleted(state, appVersion)]: the record it returns, and
    the record [saveOnboardingState] keeps, saved at [savedAt]. *)
Definition markTourCompleted (now savedAt : string) (state appVersion : JsVal)
  (store : option Storage) : OnboardingState * OnboardingState :=
  let next :=
    setUpdated now
      (setMajor (parseMajor appVersion)
         (setDismissed false
            (setCompleted true (parseOrDefault now state)))) in
  (next, fst (saveOnboardingState savedAt (stateObject next) store)).

(** [markTourDismissed(state, appVersion)], likewise. *)
Definition markTourDismissed (now savedAt : string) (state appVersion : JsVal)
  (store : option Storage) : OnboardingState * OnboardingState :=
  let next :=
    setUpdated now
      (setMajor (parseMajor appVersion)
         (setDismissed true (parseOrDefault now state))) in
  (next, fst (saveOnboardingState savedAt (stateObject next) store)).

End Onboarding.

(** ** Hashing (docs/js/io.js) *)

(** ToInt32 and ToUint32 of an integral number. *)
Definition toInt32 (z : Z) : Z := ((z + 2 ^ 31) mod 2 ^ 32 - 2 ^ 31)%Z.

Definition toUint32 (z : Z) : Z := (z mod 2 ^ 32)%Z.

(** [a ^ b] and [a << k] on numbers: the operands as signed 32-bit
    integers, and so the result. *)
Definition xor32 (a b : Z) : Z := toInt32 (Z.lxor (toInt32 a) (toInt32 b)).

Definition shl32 (a k : Z) : Z :=
  toInt32 (Z.shiftl (toInt32 a) (k mod 32)).

Definition byteValue (b : Byte.byte) : Z := Z.of_N (Byte.to_N b).

(** The body of the loop of the fallback of [hashText]: [h ^= data[i]],
    then [h += (h << 1) + (h << 4) + (h << 7) + (h << 8) + (h << 24)], a
    sum of integers that a double holds exactly. *)
Definition fnvStep (h : Z) (b : Byte.byte) : Z :=
  let h1 := xor32 h (byteValue b) in
  (h1 + (shl32 h1 1 + shl32 h1 4 + shl32 h1 7 + shl32 h1 8 + shl32 h1 24))%Z.

Definition fnvOffset : Z := 2166136261%Z.

(** [n.toString(16)] of a non-negative integer. *)
Definition hexString (n : Z) : string :=
  HexadecimalString.NilZero.string_of_uint (N.to_hex_uint (Z.to_N n)).

(** [b.toString(16).padStart(2, "0")] *)
Definition hexByte (b : Byte.byte) : string :=
  let digits := hexString (byteValue b) in
  if (String.length digits <? 2)%nat then "0" ++ digits else digits.

(** [hashText(input)] from the bytes [data] of the encoded input;
    [subtle] is [crypto.subtle.digest("SHA-256", _)] where there is one. *)
Definition hashTextOf (subtle : option (list Byte.byte -> list Byte.byte))
  (data : list Byte.byte) : string :=
  match subtle with
  | None => "fnv1a-" ++ hexString (toUint32 (fold_left fnvStep data fnvOffset))
  | Some digest =>
      "sha256-" ++ String.concat "" (map hexByte (firstn 12 (digest data)))
  end.

(** The 32-bit FNV-1a hash: offset basis 2166136261, prime 16777619. *)
Definition fnvPrime : Z := 16777619%Z.

Definition fnv1a32 (data : list Byte.byte) : Z :=
  fold_left (fun h b => ((Z.lxor h (byteValue b)) * fnvPrime) mod 2 ^ 32)%Z
            data fnvOffset.

(** ** Share links (docs/js/io.js) *)

(** [new TextEncoder().encode(s)] and [new TextDecoder().decode(bytes)],
    the UTF-8 encoding and decoding of the engine. *)
Class TextCodec : Type := {
  utf8Encode : string -> list Byte.byte;
  utf8Decode : list Byte.byte -> string
}.

(** A function on the characters of a string. *)
Definition onChars (f : list ascii -> list ascii) (s : string) : string :=
  string_of_list_ascii (f (list_ascii_of_string s)).

(** The base64 alphabet of RFC 4648. *)
Definition base64Digits : list ascii :=
  list_ascii_of_string
    "ABCDEFGHIJKLMNOPQRSTUVWXYZabcdefghijklmnopqrstuvwxyz0123456789+/".

Definition equalsSign : ascii := "="%char.

(** The character of a 6-bit value, and the 6-bit value of a character. *)
Definition base64Char (n : nat) : ascii := nth n base64Digits equalsSign.

Fixpoint indexIn (c : ascii) (digits : list ascii) : option nat :=
  match digits with
  | [] => None
  | d :: rest =>
      if Ascii.eqb d c then Some 0
      else match indexIn c rest with Some i => Some (S i) | None => None end
  end.

Definition base64Value (c : ascii) : option nat := indexIn c base64Digits.

(** [btoa(bin)] on the characters of [bin], each below 256: three bytes
    give four characters, a remainder of one or two bytes is padded. *)
Fixpoint btoaChars (bin : list ascii) : list ascii :=
  match bin with
  | [] => []
  | [a] =>
      let x := nat_of_ascii a in
      [base64Char (x / 4); base64Char ((x mod 4) * 16); equalsSign; equalsSign]
  | [a; b] =>
      let x := nat_of_ascii a in
      let y := nat_of_ascii b in
      [base64Char (x / 4); base64Char ((x mod 4) * 16 + y / 16);
       base64Char ((y mod 16) * 4); equalsSign]
  | a :: b :: c :: rest =>
      let x := nat_of_ascii a in
      let y := nat_of_ascii b in
      let z := nat_of_ascii c in
      base64Char (x / 4) :: base64Char ((x mod 4) * 16 + y / 16)
      :: base64Char ((y mod 16) * 4 + z / 64) :: base64Char (z mod 64)
      :: btoaChars rest
  end.

Definition btoa (bin : string) : string := onChars btoaChars bin.

(** The forgiving-base64 decoding behind [atob]: ASCII white space is
    removed; one or two [=] at the end of a length that divides by four
    are removed; a length of one modulo four, or a character outside the
    alphabet, is a failure; the 6-bit values are read four at a time, the
    last bits of a remainder of two or three being dropped. *)
Definition isAsciiWhitespace (c : ascii) : bool :=
  let n := nat_of_ascii c in
  ((n =? 9) || (n =? 10) || (n =? 12) || (n =? 13) || (n =? 32))%nat.

Definition dropPadding (data : list ascii) : list ascii :=
  match rev data with
  | p :: q :: before =>
      if Ascii.eqb p equalsSign then
        if Ascii.eqb q equalsSign then rev before else rev (q :: before)
      else data
  | [p] => if Ascii.eqb p equalsSign then [] else data
  | [] => data
  end.

Fixpoint valuesOf (data : list ascii) : option (list nat) :=
  match data with
  | [] => Some []
  | c :: rest =>
      match base64Value c, valuesOf rest with
      | Some v, Some vs => Some (v :: vs)
      | _, _ => None
      end
  end.

Fixpoint bytesOfValues (values : list nat) : list nat :=
  match values with
  | a :: b :: c :: d :: rest =>
      (a * 4 + b / 16) :: ((b mod 16) * 16 + c / 4) :: ((c mod 4) * 64 + d)
      :: bytesOfValues rest
  | [a; b; c] => [a * 4 + b / 16; (b mod 16) * 16 + c / 4]
  | [a; b] => [a * 4 + b / 16]
  | _ => []
  end.

Definition atobChars (data : list ascii) : option (list ascii) :=
  let data1 := filter (fun c => negb (isAsciiWhitespace c)) data in
  let data2 :=
    if (List.length data1 mod 4 =? 0)%nat then dropPadding data1 else data1 in
  if (List.length data2 mod 4 =? 1)%nat then None
  else
    match valuesOf data2 with
    | Some values => Some (map ascii_of_nat (bytesOfValues values))
    | None => None
    end.

(** [atob(data)]; it throws a [DOMException] named
    [InvalidCharacterError], whose message is the engine's. *)
Definition atob (data : string) : Completion string :=
  match atobChars (list_ascii_of_string data) with
  | Some bin => Normal (string_of_list_ascii bin)
  | None =>
      Throw (ThrowError "InvalidCharacterError"
                        "The string to be decoded is not correctly encoded.")
  end.

(** [s.replace(/c/g, d)] for characters [c] and [d]. *)
Definition replaceChar (c d : ascii) (chars : list ascii) : list ascii :=
  map (fun x => if Ascii.eqb x c then d else x) chars.

(** [s.replace(/=+$/g, "")] *)
Fixpoint dropTrailingEquals (chars : list ascii) : list ascii :=
  match chars with
  | [] => []
  | c :: rest =>
      match dropTrailingEquals rest with
      | [] => if Ascii.eqb c equalsSign then [] else [c]
      | rest' => c :: rest'
      end
  end.

(** ["===".slice(k)] *)
Definition equalsFrom (k : nat) : list ascii := repeat equalsSign (3 - k).

Section ShareLinks.
Context {codec : TextCodec}.

(** [toBase64Url(str)] *)
Definition toBase64Url (str : string) : string :=
  let bytes := utf8Encode str in
  let bin := string_of_list_byte bytes in
  onChars (fun chars =>
             dropTrailingEquals
               (replaceChar "/" "_" (replaceChar "+" "-" chars)))
          (btoa bin).

(** [fromBase64Url(input)] *)
Definition fromBase64Url (input : string) : Completion string :=
  let padded :=
    onChars (fun chars =>
               replaceChar "_" "/" (replaceChar "-" "+" chars)
               ++ equalsFrom ((List.length chars + 3) mod 4))%list
            input in
  do bin <- atob padded;
  Normal (utf8Decode (list_byte_of_string bin)).

End ShareLinks.

(** The UTF-8 codec on ASCII text, where a character is a byte. *)
Definition asciiCodec : TextCodec :=
  {| utf8Encode := list_byte_of_string; utf8Decode := string_of_list_byte |}.

(** The 6-bit values [btoa] writes for [bin], and the number of [=] it
    pads them with. *)
Fixpoint sextets (bin : list ascii) : list nat :=
  match bin with
  | [] => []
  | [a] =>
      let x := nat_of_ascii a in
      [x / 4; (x mod 4) * 16]
  | [a; b] =>
      let x := nat_of_ascii a in
      let y := nat_of_ascii b in
      [x / 4; (x mod 4) * 16 + y / 16; (y mod 16) * 4]
  | a :: b :: c :: rest =>
      let x := nat_of_ascii a in
      let y := nat_of_ascii b in
      let z := nat_of_ascii c in
      x / 4 :: (x mod 4) * 16 + y / 16 :: (y mod 16) * 4 + z / 64 :: z mod 64
      :: sextets rest
  end.

Fixpoint padding (bin : list ascii) : nat :=
  match bin with
  | [] => 0
  | [_] => 2
  | [_; _] => 1
  | _ :: _ :: _ :: rest => padding rest
  end.

(** The characters [toBase64Url] and [fromBase64Url] exchange. *)
Definition urlSafe (chars : list ascii) : list ascii :=
  replaceChar "/" "_" (replaceChar "+" "-" chars).

Definition urlUnsafe (chars : list ascii) : list ascii :=
  replaceChar "_" "/" (replaceChar "-" "+" chars).

(** ** Run controls (docs/app.js) *)

(** [Math.min(a, b)]: [NaN] when one of them is; [-0] counts as smaller
    than [+0]. *)
Definition mathMin (a b : float) : float :=
  if PrimFloat.is_nan a || PrimFloat.is_nan b then PrimFloat.nan
  else if PrimFloat.is_zero a && negb (PrimFloat.get_sign a)
          && PrimFloat.is_zero b && PrimFloat.get_sign b then b
  else if PrimFloat.ltb b a then b else a.

(** [Math.max(a, b)], likewise. *)
Definition mathMax (a b : float) : float :=
  if PrimFloat.is_nan a || PrimFloat.is_nan b then PrimFloat.nan
  else if PrimFloat.is_zero a && PrimFloat.get_sign a
          && PrimFloat.is_zero b && negb (PrimFloat.get_sign b) then b
  else if PrimFloat.ltb a b then b else a.

Section RunControls.
Context {B : Builtins}.

(** [Number(input.value) || 0] *)
Definition numberOrZero (text : string) : float :=
  let x := StringToNumber text in
  if truthy (JNum x) then x else 0%float.

(** The controls [runSimulation] stores in the state before it builds and
    validates the configuration, from the text of the three inputs. *)
Definition runControls (stepsText episodesText seedText : string) : Controls :=
  {| c_steps :=
       mathMax 1 (mathMin (maxSteps RUN_LIMITS) (numberOrZero stepsText));
     c_episodes :=
       mathMax 1 (mathMin (maxEpisodes RUN_LIMITS) (numberOrZero episodesText));
     c_seed := numberOrZero seedText |}.

End RunControls.

(** ** Sample data of the added properties *)

(** The categorical parameter of the [GovernmentPolicy] stream of
    [policyState], its stream and its axis. *)
#[warnings="-inexact-float"]
Definition taxInfo : Obj :=
  [("type", JStr "category");
   ("kind", JStr "condition");
   ("options", JArr [JStr "Tax 0.1"; JStr "Tax 0.3"]);
   ("value", JStr "Tax 0.1");
   ("map", JObj [("Tax 0.1", JNum 0.1%float);
                 ("Tax 0.3", JNum 0.3%float)])].

#[warnings="-inexact-float"]
Definition taxStream : Component :=
  {| id := JStr "L1S1";
     params := [("tax", JNum 0.1%float)];
     paramMeta := [("tax", JObj taxInfo)] |}.

Definition taxAxis : Category :=
  {| componentId := JStr "L1S1"; key := "tax";
     options := ["Tax 0.1"; "Tax 0.3"] |}.

(** A backend whose Python source cannot be fetched. *)
Definition failingBackend : Backend :=
  {| load := fun _ =>
       LoadFailed (Some "0.26.4")
                  "Error: failed-to-fetch-playground-py:404"
                  "failed-to-fetch-playground-py:404";
     run_sim := fun _ => inr "run_sim is not defined" |}.

(** The globals of a worker that has loaded Pyodide 0.26.4. *)
Definition readyGlobals : Worker.Globals :=
  {| Worker.pyodide := Some "0.26.4"; Worker.ready := true;
     Worker.initError := None |}.

(** The messages of a page that retries: [init], then [run]. *)
Definition retryMessages : list (Backend * WorkerRequest) :=
  [(sampleBackend, InitRequest (JObj [("indexURL", JStr "https://cdn/")]));
   (sampleBackend, RunRequest (JObj []))].

(** An onboarding record as a hand-edited store may hold it, and what
    [parseState] reads in it. *)
Definition storedOnboarding : JsVal :=
  JObj [("version", JStr "OnboardingStateV1");
        ("tour_completed", JStr "yes");
        ("last_seen_major", JNum 2%float)].

Definition parsedOnboarding : OnboardingState :=
  {| tour_completed := true; tour_dismissed := false;
     last_seen_major := 2%float; updated_at := "" |}.

(** The time of a save, and a store that gives back what was saved then. *)
Definition savedTime : string := "2026-01-01T00:00:00.000Z".

Definition storeHolding (record : OnboardingState) : Storage :=
  {| readItem := ReadJson (stateObject record); setItemThrows := false |}.

(** * Properties *)

(** ** Objects *)

Lemma ownGet_ownSet_same (o : Obj) (k : string) (v : JsVal) :
  ownGet (ownSet o k v) k = Some v.
Proof.
  induction o as [|[k' v'] rest IH]; simpl.
  - now rewrite String.eqb_refl.
  - destruct (String.eqb k' k) eqn:E; simpl; rewrite E; auto.
Qed.

Lemma ownGet_ownSet_other (o : Obj) (k k' : string) (v : JsVal) :
  k <> k' -> ownGet (ownSet o k v) k' = ownGet o k'.
Proof.
  intros Hne. induction o as [|[k0 v0] rest IH]; simpl.
  - destruct (String.eqb k k') eqn:E; auto.
    apply String.eqb_eq in E. contradiction.
  - destruct (String.eqb k0 k) eqn:E; simpl.
    + apply String.eqb_eq in E. subst k0.
      destruct (String.eqb k k') eqn:E'; auto.
      apply String.eqb_eq in E'. contradiction.
    + now rewrite IH.
Qed.

Lemma objSet_plain (o : Obj) (k : string) (v : JsVal) :
  k <> "__proto__" -> objSet o k v = ownSet o k v.
Proof.
  intros Hne. unfold objSet.
  destruct (String.eqb k "__proto__") eqn:E; auto.
  apply String.eqb_eq in E. contradiction.
Qed.

(** ** Strings *)

Lemma hasColon_app (s t : string) :
  hasColon (s ++ t) = hasColon s || hasColon t.
Proof.
  induction s as [|c s IH]; simpl; auto.
  now rewrite IH, orb_assoc.
Qed.

Section EnumeratorFacts.
Context {B : Builtins}.

Lemma compoundKey_not_proto (c : Category) : compoundKey c <> "__proto__".
Proof.
  intros H. apply (f_equal hasColon) in H. unfold compoundKey in H.
  rewrite !hasColon_app in H. simpl in H.
  rewrite orb_true_r in H. discriminate.
Qed.

(** The accumulating [walk] pushes, after what [combos] held, the
    scenarios of the choices in order. *)
Lemma walk_choices (cats : list Category) :
  forall current labelParts combos,
    walk cats current labelParts combos
    = (combos
       ++ map (fun choice =>
                 {| label := join ", "
                      (labelParts
                       ++ map (fun co => fragment (fst co) (snd co)) choice);
                    overrides := overridesOf current choice |})
              (choices cats))%list.
Proof.
  induction cats as [|c rest IH]; intros current labelParts combos; simpl.
  - now rewrite app_nil_r.
  - generalize combos. clear combos.
    induction (options c) as [|opt opts IHo]; intros combos; simpl.
    + now rewrite app_nil_r.
    + rewrite IHo, IH, map_app, <- app_assoc. f_equal. f_equal.
      rewrite map_map. apply map_ext. intros choice. simpl.
      now rewrite <- app_assoc.
Qed.

Lemma length_choices (cats : list Category) :
  List.length (choices cats) = product (axisSizes cats).
Proof.
  induction cats as [|c rest IH]; simpl; auto.
  induction (options c) as [|opt opts IHo]; simpl; auto.
  rewrite length_app, length_map, IHo, IH. reflexivity.
Qed.

End EnumeratorFacts.

Lemma or_else_idem (k c : JsVal) :
  truthy c = true -> or_else (or_else k c) c = or_else k c.
Proof.
  intros Hc. unfold or_else.
  destruct (truthy k) eqn:Hk; [now rewrite Hk | now rewrite Hc].
Qed.

Lemma product_pos (sizes : list nat) :
  Forall (fun n => 0 < n) sizes -> 0 < product sizes.
Proof.
  induction 1 as [|n sizes Hn _ IH]; simpl; [lia | nia].
Qed.

Section CollectFacts.
Context {B : Builtins}.

Lemma cm_kind_normalize (o : Obj) (fallbackArg : JsVal) :
  cm_kind (normalizeCategoryMeta o fallbackArg)
  = or_else (objGet o "kind") (JStr "condition").
Proof. reflexivity. Qed.

(** What [categoryOf] answers, case by case. *)
Lemma categoryOf_cases (component : Component) (k : string) (info : JsVal) :
  (isConditionAxis info = false /\ categoryOf component (k, info) = [])
  \/ (exists o,
        info = JObj o /\ isConditionAxis info = true
        /\ cm_options (normalizeCategoryMeta o (objGet (params component) k))
           = []
        /\ categoryOf component (k, info) = [])
  \/ (exists o,
        info = JObj o /\ isConditionAxis info = true
        /\ cm_options (normalizeCategoryMeta o (objGet (params component) k))
           <> []
        /\ categoryOf component (k, info)
           = [ {| componentId := id component;
                  key := k;
                  options :=
                    cm_options
                      (normalizeCategoryMeta o
                         (objGet (params component) k)) |} ]).
Proof.
  unfold categoryOf, isConditionAxis. cbv zeta.
  destruct (strictEqStr (field info "type") "category") eqn:Ht;
    [| left; auto].
  destruct info as [| | | | | |o|]; try discriminate Ht.
  rewrite cm_kind_normalize, or_else_idem by reflexivity. simpl field.
  destruct (strictEqStr (or_else (objGet o "kind") (JStr "condition"))
                        "condition") eqn:Hk; cbn [negb andb]; [| left; auto].
  right.
  destruct (cm_options (normalizeCategoryMeta o (objGet (params component) k)))
    as [|first others] eqn:Ho.
  - left. exists o. rewrite Ho. auto.
  - right. exists o. rewrite Ho.
    split; [reflexivity |]. split; [reflexivity |].
    split; [discriminate | reflexivity].
Qed.

Lemma categoryOf_options (component : Component) (entry : string * JsVal) :
  Forall (fun c => options c <> []) (categoryOf component entry).
Proof.
  destruct entry as [k info].
  destruct (categoryOf_cases component k info)
    as [[_ E] | [(o & _ & _ & _ & E) | (o & _ & _ & Hne & E)]];
    rewrite E; constructor; simpl; auto.
Qed.

(** Every axis the enumerator collects has at least one option. *)
Lemma collectCategories_options (st : State) :
  Forall (fun c => options c <> []) (collectCategories st).
Proof.
  unfold collectCategories. apply Forall_flat_map, Forall_forall.
  intros component _. apply Forall_flat_map, Forall_forall.
  intros entry _. apply categoryOf_options.
Qed.

Lemma collectCategories_none (st : State) :
  hasConditionAxis st = false -> collectCategories st = [].
Proof.
  unfold hasConditionAxis, collectCategories. intros H.
  induction (components st) as [|component rest IH]; simpl in *; auto.
  apply orb_false_iff in H. destruct H as [Hc Hr].
  rewrite (IH Hr), app_nil_r. clear IH Hr.
  induction (paramMeta component) as [|[k info] entries IHe]; simpl in *; auto.
  apply orb_false_iff in Hc. destruct Hc as [Hi He].
  rewrite (IHe He), app_nil_r.
  destruct (categoryOf_cases component k info)
    as [[_ E] | [(o & _ & Ht & _) | (o & _ & Ht & _)]]; auto; congruence.
Qed.

Lemma axisSizes_pos (cats : list Category) :
  Forall (fun c => options c <> []) cats ->
  Forall (fun n => 0 < n) (axisSizes cats).
Proof.
  unfold axisSizes. induction 1 as [|c cats Hc _ IH]; simpl; constructor; auto.
  destruct (options c); simpl; [congruence | lia].
Qed.

Lemma buildScenarioList_choices (st : State) :
  collectCategories st <> [] ->
  buildScenarioList st = map scenarioOf (choices (collectCategories st)).
Proof.
  unfold buildScenarioList. intros Hne.
  destruct (collectCategories st) as [|c cats] eqn:E; [congruence |].
  now rewrite walk_choices.
Qed.

Lemma length_buildScenarioList (st : State) :
  List.length (buildScenarioList st)
  = product (axisSizes (collectCategories st)).
Proof.
  destruct (collectCategories st) as [|c cats] eqn:E.
  - unfold buildScenarioList. now rewrite E.
  - rewrite buildScenarioList_choices, length_map, length_choices, E;
      congruence.
Qed.

End CollectFacts.

(** ** Choices and their override maps *)

Lemma NoDup_map_on {A C : Type} (f : A -> C) (l : list A) :
  (forall x y, In x l -> In y l -> f x = f y -> x = y) ->
  NoDup l -> NoDup (map f l).
Proof.
  intros Hinj Hnd. induction Hnd as [|x l Hx _ IH]; simpl; constructor.
  - intros Hin. apply in_map_iff in Hin. destruct Hin as (y & E & Hy).
    apply Hinj in E; simpl; auto. subst y. contradiction.
  - apply IH. intros a b Ha Hb. apply Hinj; simpl; auto.
Qed.

Lemma in_choices_cons (c : Category) (rest : list Category)
  (choice : list (Category * string)) :
  In choice (choices (c :: rest)) <->
  exists opt tail,
    choice = (c, opt) :: tail /\ In opt (options c) /\ In tail (choices rest).
Proof.
  simpl. rewrite in_flat_map. split.
  - intros (opt & Hopt & Hin). apply in_map_iff in Hin.
    destruct Hin as (tail & <- & Htail). eauto.
  - intros (opt & tail & -> & Hopt & Htail).
    exists opt. split; auto. apply in_map_iff. eauto.
Qed.

Lemma choices_axes (cats : list Category) :
  forall choice, In choice (choices cats) -> map fst choice = cats.
Proof.
  induction cats as [|c rest IH]; intros choice Hin.
  - destruct Hin as [<- | []]. reflexivity.
  - apply in_choices_cons in Hin. destruct Hin as (opt & tail & -> & _ & Ht).
    simpl. now rewrite (IH tail Ht).
Qed.

Lemma NoDup_choices (cats : list Category) :
  Forall (fun c => NoDup (options c)) cats -> NoDup (choices cats).
Proof.
  induction 1 as [|c rest Hc _ IH]; simpl.
  - constructor; [intros [] | constructor].
  - induction Hc as [|opt opts Hnotin _ IHo]; simpl; [constructor |].
    apply NoDup_app; auto.
    + apply NoDup_map_on; auto. intros x y _ _ E. now inversion E.
    + intros choice Hin Hin'. apply in_map_iff in Hin.
      destruct Hin as (tail & <- & _). apply in_flat_map in Hin'.
      destruct Hin' as (opt' & Hopt' & Hin'). apply in_map_iff in Hin'.
      destruct Hin' as (tail' & E & _). inversion E. subst. contradiction.
Qed.

Section OverrideFacts.
Context {B : Builtins}.

Lemma overridesOf_cons (current : Obj) (co : Category * string)
  (choice : list (Category * string)) :
  overridesOf current (co :: choice)
  = overridesOf (objSet current (compoundKey (fst co)) (JStr (snd co)))
                choice.
Proof. reflexivity. Qed.

(** Writing a choice leaves the keys of other axes as they were. *)
Lemma overridesOf_other (choice : list (Category * string)) :
  forall current k,
    ~ In k (map compoundKey (map fst choice)) ->
    ownGet (overridesOf current choice) k = ownGet current k.
Proof.
  induction choice as [|co choice IH]; intros current k Hk; auto.
  rewrite overridesOf_cons, IH.
  - rewrite objSet_plain by apply compoundKey_not_proto.
    apply ownGet_ownSet_other. intros E. apply Hk. simpl. auto.
  - intros Hin. apply Hk. simpl. auto.
Qed.

(** With pairwise distinct compound keys, the override map tells the
    choice. *)
Lemma overridesOf_injective (cats : list Category) :
  NoDup (map compoundKey cats) ->
  forall current choice1 choice2,
    In choice1 (choices cats) -> In choice2 (choices cats) ->
    overridesOf current choice1 = overridesOf current choice2 ->
    choice1 = choice2.
Proof.
  induction cats as [|c rest IH]; intros Hkeys current choice1 choice2 H1 H2 E.
  - destruct H1 as [<- | []]. destruct H2 as [<- | []]. reflexivity.
  - apply in_choices_cons in H1, H2.
    destruct H1 as (o1 & t1 & -> & _ & Ht1).
    destruct H2 as (o2 & t2 & -> & _ & Ht2).
    simpl in Hkeys. apply NoDup_cons_iff in Hkeys. destruct Hkeys as [Hc Hrest].
    rewrite !overridesOf_cons in E. simpl fst in E. simpl snd in E.
    assert (Ho : o1 = o2).
    { apply (f_equal (fun o => ownGet o (compoundKey c))) in E.
      rewrite !overridesOf_other in E
        by (rewrite (choices_axes _ _ Ht1) || rewrite (choices_axes _ _ Ht2);
            assumption).
      rewrite !objSet_plain in E by apply compoundKey_not_proto.
      rewrite !ownGet_ownSet_same in E. now inversion E. }
    subst o2. f_equal. eapply IH; eauto.
Qed.

Lemma NoDup_overrides (cats : list Category) :
  NoDup (map compoundKey cats) ->
  Forall (fun c => NoDup (options c)) cats ->
  NoDup (map overrides (map scenarioOf (choices cats))).
Proof.
  intros Hkeys Hopts. rewrite map_map.
  apply NoDup_map_on; [| now apply NoDup_choices].
  intros x y Hx Hy E. simpl in E. eapply overridesOf_injective; eauto.
Qed.

End OverrideFacts.

(** ** The scenario enumerator *)

(** The statements below hold for every [Builtins], and there are some. *)
Example Builtins_inhabited : inhabited Builtins.
Proof.
  constructor.
  exact {| NumberToString := fun _ => "0";
           StringToNumber := fun _ => PrimFloat.nan;
           FunctionToString := fun n => "function " ++ n ++ "() { [native code] }";
           inArrayPrototype := fun _ => false;
           inFunction := fun _ _ => false |}.
Qed.


(** C7: for every configuration with zero condition-kind categorical axes,
    [buildScenarioList] returns exactly one scenario, labelled ["Base"],
    with an empty override map. *)
Theorem zero_axes_base_scenario {B : Builtins} (st : State) :
  hasConditionAxis st = false ->
  buildScenarioList st = [ {| label := "Base"; overrides := [] |} ].
Proof.
  intros H. unfold buildScenarioList.
  now rewrite (collectCategories_none st H).
Qed.

Lemma zero_axes_base_scenario_witness :
  hasConditionAxis priceState = false
  /\ forall B : Builtins,
       @buildScenarioList B priceState
       = [ {| label := "Base"; overrides := [] |} ].
Proof.
  split; [reflexivity |].
  intros B. apply (@zero_axes_base_scenario B priceState). reflexivity.
Defined.

Example government_policy_scenarios {B : Builtins} :
  buildScenarioList policyState
  = [ {| label := "L1S1.tax=Tax 0.1";
         overrides := [("L1S1::tax", JStr "Tax 0.1")] |};
      {| label := "L1S1.tax=Tax 0.3";
         overrides := [("L1S1::tax", JStr "Tax 0.3")] |} ].
Proof. reflexivity. Qed.

(** C1, as stated, fails: with the option [a] listed twice the axis has two
    options and the enumerator returns two scenarios, but both carry the
    same override map. *)
Lemma twin_options_same_overrides :
  (forall B : Builtins,
     axisSizes (@collectCategories B twinOptionState) = [2])
  /\ (forall B : Builtins,
        map overrides (@buildScenarioList B twinOptionState)
        = [ [("L1S1::mode", JStr "a")]; [("L1S1::mode", JStr "a")] ])
  /\ ~ NoDup [ [("L1S1::mode", JStr "a")]; [("L1S1::mode", JStr "a")] ].
Proof.
  split; [reflexivity |]. split; [reflexivity |].
  intros H. inversion H as [|x l Hnotin _]. apply Hnotin. left. reflexivity.
Qed.

(** C1, amended: the axes are the condition-kind categorical parameters
    that keep at least one option after normalization, in component order
    and then parameter order; with [o1..on] their normalized option counts,
    [buildScenarioList] returns exactly [o1 * ... * on] scenarios, which
    are the scenarios of the Cartesian product in lexicographic order with
    the comma-joined [componentId.key=option] labels, so that states with
    the same axes get the same list; and the override maps are pairwise
    distinct whenever no axis repeats an option and no two axes share a
    compound key. *)
Theorem scenario_list_is_product {B : Builtins} (st : State) :
  let cats := collectCategories st in
  Forall (fun c => options c <> []) cats
  /\ List.length (buildScenarioList st) = product (axisSizes cats)
  /\ (cats <> [] -> buildScenarioList st = map scenarioOf (choices cats))
  /\ (forall st', collectCategories st' = cats ->
                  buildScenarioList st' = buildScenarioList st)
  /\ (NoDup (map compoundKey cats) ->
      Forall (fun c => NoDup (options c)) cats ->
      NoDup (map overrides (buildScenarioList st))).
Proof.
  intros cats. split; [apply collectCategories_options |].
  split; [apply length_buildScenarioList |].
  split; [apply buildScenarioList_choices |].
  split.
  - intros st' E. unfold buildScenarioList. fold cats. now rewrite E.
  - intros Hkeys Hopts. destruct cats as [|c cats'] eqn:E.
    + unfold buildScenarioList. fold cats. rewrite E. simpl.
      constructor; [intros [] | constructor].
    + rewrite buildScenarioList_choices by (fold cats; congruence).
      fold cats. rewrite E. now apply NoDup_overrides.
Qed.

Lemma scenario_list_is_product_witness :
  (forall B : Builtins,
     NoDup (map (@compoundKey B) (@collectCategories B twoAxisState)))
  /\ (forall B : Builtins,
        Forall (fun c => NoDup (options c)) (@collectCategories B twoAxisState))
  /\ (forall B : Builtins,
        List.length (@buildScenarioList B twoAxisState) = 4
        /\ NoDup (map overrides (@buildScenarioList B twoAxisState))).
Proof.
  assert (Hkeys : forall B : Builtins,
             NoDup (map (@compoundKey B) (@collectCategories B twoAxisState))).
  { intros B. vm_compute. repeat constructor; simpl; intuition discriminate. }
  assert (Hopts : forall B : Builtins,
             Forall (fun c => NoDup (options c))
                    (@collectCategories B twoAxisState)).
  { intros B. vm_compute. repeat constructor; simpl; intuition discriminate. }
  split; [exact Hkeys |]. split; [exact Hopts |].
  intros B. split; [reflexivity |].
  exact (proj2 (proj2 (proj2 (proj2 (@scenario_list_is_product B twoAxisState))))
               (Hkeys B) (Hopts B)).
Defined.

(** ** Categorical parameter metadata *)

Lemma ownGet_objSet_other (o : Obj) (k k' : string) (v : JsVal) :
  k <> k' -> ownGet (objSet o k v) k' = ownGet o k'.
Proof.
  intros Hne. unfold objSet. destruct (String.eqb k "__proto__"); auto.
  now apply ownGet_ownSet_other.
Qed.

Lemma hasOwn_objSet_same (o : Obj) (k : string) (v : JsVal) :
  k <> "__proto__" -> hasOwn (objSet o k v) k = true.
Proof.
  intros Hk. unfold hasOwn. now rewrite objSet_plain, ownGet_ownSet_same.
Qed.

Lemma hasOwn_objSet_keep (o : Obj) (k k' : string) (v : JsVal) :
  hasOwn o k' = true -> hasOwn (objSet o k v) k' = true.
Proof.
  intros H. destruct (String.eqb k k') eqn:E.
  - apply String.eqb_eq in E. subst k'. unfold objSet.
    destruct (String.eqb k "__proto__"); auto.
    unfold hasOwn. now rewrite ownGet_ownSet_same.
  - apply String.eqb_neq in E. unfold hasOwn.
    now rewrite ownGet_objSet_other.
Qed.

Lemma withIndex_from_split {A : Type} (l1 : list A) (x : A) (l2 : list A) :
  forall start,
    combine (seq start (List.length (l1 ++ x :: l2))) (l1 ++ x :: l2)
    = (combine (seq start (List.length l1)) l1
       ++ (start + List.length l1, x)
          :: combine (seq (S (start + List.length l1)) (List.length l2)) l2)%list.
Proof.
  induction l1 as [|a l1 IH]; intros start; simpl.
  - now rewrite Nat.add_0_r.
  - rewrite IH. now rewrite Nat.add_succ_r.
Qed.

Lemma snd_combine_seq {A : Type} (l : list A) :
  forall start, map snd (combine (seq start (List.length l)) l) = l.
Proof.
  induction l as [|a l IH]; intros start; simpl; auto. now rewrite IH.
Qed.

Section MetadataFacts.
Context {B : Builtins}.

Lemma mapStep_objSet (sourceMap map : Obj) (idx : nat) (opt : string) :
  mapStep sourceMap map (idx, opt)
  = objSet map opt (mapValue sourceMap idx opt).
Proof.
  unfold mapStep, mapValue.
  destruct (ownGet sourceMap opt) as [raw|]; auto.
  destruct (parseNumberish raw); auto.
Qed.

Lemma fold_mapStep_other (sourceMap : Obj) (entries : list (nat * string)) :
  forall map k,
    ~ In k (List.map snd entries) ->
    ownGet (fold_left (mapStep sourceMap) entries map) k = ownGet map k.
Proof.
  induction entries as [|[idx opt] entries IH]; intros map k Hk; auto.
  cbn [fold_left]. rewrite IH by (intros Hin; apply Hk; simpl; auto).
  rewrite mapStep_objSet. apply ownGet_objSet_other.
  intros E. apply Hk. simpl. auto.
Qed.

Lemma fold_mapStep_last (sourceMap : Obj) (before after : list (nat * string))
  (idx : nat) (k : string) (map : Obj) :
  k <> "__proto__" ->
  ~ In k (List.map snd after) ->
  ownGet (fold_left (mapStep sourceMap) (before ++ (idx, k) :: after) map) k
  = Some (mapValue sourceMap idx k).
Proof.
  intros Hk Hafter. rewrite fold_left_app. cbn [fold_left].
  rewrite fold_mapStep_other by assumption.
  now rewrite mapStep_objSet, objSet_plain, ownGet_ownSet_same.
Qed.

Lemma fold_mapStep_hasOwn (sourceMap : Obj) (entries : list (nat * string)) :
  forall map k,
    k <> "__proto__" ->
    In k (List.map snd entries) \/ hasOwn map k = true ->
    hasOwn (fold_left (mapStep sourceMap) entries map) k = true.
Proof.
  induction entries as [|[idx opt] entries IH]; intros map k Hk H.
  - destruct H as [[] | H]. exact H.
  - cbn [fold_left]. apply IH; auto. rewrite mapStep_objSet.
    destruct H as [[E | Hin] | H]; auto.
    + simpl in E. subst opt. right. now apply hasOwn_objSet_same.
    + right. now apply hasOwn_objSet_keep.
Qed.

Lemma cm_map_normalize (info : Obj) (fallbackArg : JsVal) :
  cm_map (normalizeCategoryMeta info fallbackArg)
  = fold_left (mapStep (sourceMapOf info))
              (withIndex (cm_options (normalizeCategoryMeta info fallbackArg)))
              [].
Proof. reflexivity. Qed.

(** Every normalized option is a non-empty string. *)
Lemma cm_options_nonempty (info : Obj) (fallbackArg : JsVal) :
  Forall (fun opt => nonempty opt = true)
         (cm_options (normalizeCategoryMeta info fallbackArg)).
Proof.
  unfold normalizeCategoryMeta. cbn [cm_options].
  match goal with
  | |- context [filter nonempty ?l] =>
      pose proof (fun x => proj1 (filter_In nonempty x l)) as Hf;
      destruct (filter nonempty l) as [|first others]
  end.
  - match goal with |- context [nonempty ?s] => destruct (nonempty s) eqn:E end;
      repeat constructor; auto.
  - apply Forall_forall. intros x Hx. apply (Hf x Hx).
Qed.

Lemma cm_value_in_options (info : Obj) (fallbackArg : JsVal) :
  cm_options (normalizeCategoryMeta info fallbackArg) <> [] ->
  In (cm_value (normalizeCategoryMeta info fallbackArg))
     (cm_options (normalizeCategoryMeta info fallbackArg)).
Proof.
  pose proof (cm_options_nonempty info fallbackArg) as Hne.
  revert Hne. unfold normalizeCategoryMeta. cbn [cm_options cm_value].
  match goal with
  | |- Forall _ ?opts -> _ => generalize opts
  end.
  intros opts Hne Hopts.
  destruct (existsb (String.eqb (ToString (objGet info "value"))) opts) eqn:E.
  - apply existsb_exists in E. destruct E as (x & Hx & E).
    apply String.eqb_eq in E. now rewrite E.
  - destruct opts as [|first others]; [congruence |].
    inversion Hne as [|? ? Hfirst _]. rewrite Hfirst. simpl. auto.
Qed.

End MetadataFacts.

(** C8, as stated, fails: the option [a] has a mapping that
    [parseNumberish] does not read as a number, and the normalized map
    keeps that raw mapping, not the ordinal index 0. *)
Lemma raw_mapping_kept :
  (forall B : Builtins,
     cm_options (@normalizeCategoryMeta B flaggedInfo JUndef) = ["a"])
  /\ (forall B : Builtins, @parseNumberish B (JBool true) = None)
  /\ (forall B : Builtins,
        ownGet (cm_map (@normalizeCategoryMeta B flaggedInfo JUndef)) "a"
        = Some (JBool true))
  /\ JBool true <> JNum (natToNumber 0).
Proof.
  repeat split; try reflexivity. discriminate.
Qed.

(** C8, amended: the metadata [normalizeCategoryMeta] returns has its value
    among its options whenever the options are not empty, and its map has
    an entry for every option other than [__proto__]: the option's ordinal
    index (of its last occurrence) when the source map has no mapping of
    its own for it, the number [parseNumberish] reads from the mapping when
    there is one, and the raw mapping otherwise. *)
Theorem normalized_category_invariant {B : Builtins} (info : Obj)
  (fallbackArg : JsVal) :
  let meta := normalizeCategoryMeta info fallbackArg in
  (cm_options meta <> [] -> In (cm_value meta) (cm_options meta))
  /\ (forall opt,
        In opt (cm_options meta) -> opt <> "__proto__" ->
        hasOwn (cm_map meta) opt = true)
  /\ (forall idx opt,
        nth_error (cm_options meta) idx = Some opt ->
        opt <> "__proto__" ->
        (forall j, idx < j -> nth_error (cm_options meta) j <> Some opt) ->
        ownGet (cm_map meta) opt
        = Some
            match ownGet (sourceMapOf info) opt with
            | None => JNum (natToNumber idx)
            | Some raw =>
                match parseNumberish raw with
                | Some mapped => JNum mapped
                | None => raw
                end
            end).
Proof.
  intros meta. split; [apply cm_value_in_options |]. split.
  - intros opt Hin Hopt. unfold meta. rewrite cm_map_normalize.
    apply fold_mapStep_hasOwn; auto. left.
    unfold withIndex. now rewrite snd_combine_seq.
  - intros idx opt Hnth Hopt Hlast. unfold meta. rewrite cm_map_normalize.
    fold meta. destruct (nth_error_split _ _ Hnth) as (l1 & l2 & E & Hlen).
    unfold withIndex. rewrite E, withIndex_from_split. simpl plus.
    rewrite fold_mapStep_last; auto.
    + now rewrite Hlen.
    + rewrite snd_combine_seq. intros Hin.
      apply In_nth_error in Hin. destruct Hin as (n & Hn).
      apply (Hlast (S (idx + n))); [lia |].
      rewrite E, nth_error_app2 by lia.
      replace (S (idx + n) - List.length l1) with (S n) by lia. exact Hn.
Qed.

Lemma normalized_category_invariant_witness :
  (forall B : Builtins,
     cm_options (@normalizeCategoryMeta B levelInfo JUndef) = ["low"; "high"])
  /\ (forall B : Builtins,
        In (cm_value (@normalizeCategoryMeta B levelInfo JUndef))
           (cm_options (@normalizeCategoryMeta B levelInfo JUndef)))
  /\ (forall B : Builtins,
        ownGet (cm_map (@normalizeCategoryMeta B levelInfo JUndef)) "high"
        = Some (JNum (natToNumber 1))).
Proof.
  split; [reflexivity |]. split.
  - intros B.
    apply (proj1 (@normalized_category_invariant B levelInfo JUndef)).
    discriminate.
  - intros B.
    apply (proj2 (proj2 (@normalized_category_invariant B levelInfo JUndef))
                 1 "high").
    + reflexivity.
    + discriminate.
    + intros [|[|[|j]]] Hj; try lia; discriminate.
Defined.

(** ** Validation *)

Section ValidationFacts.
Context {B : Builtins}.

Lemma forEachM_extends {A : Type}
  (body : list StructuredError -> A -> Completion (list StructuredError))
  (l : list A) :
  (forall acc x r, body acc x = Normal r -> exists more, r = (acc ++ more)%list) ->
  forall acc r,
    forEachM body l acc = Normal r -> exists more, r = (acc ++ more)%list.
Proof.
  intros Hbody. induction l as [|x l IH]; intros acc r H; simpl in H.
  - inversion H. exists []. now rewrite app_nil_r.
  - destruct (body acc x) as [acc'|t] eqn:E; simpl in H; [| discriminate].
    destruct (Hbody _ _ _ E) as (more1 & ->).
    destruct (IH _ _ H) as (more2 & ->).
    exists (more1 ++ more2)%list. now rewrite app_assoc.
Qed.

Lemma checkParam_extends (layerIndex streamIndex : nat) (params : JsVal)
  (acc : list StructuredError) (def : StreamDef) (r : list StructuredError) :
  checkParam layerIndex streamIndex params acc def = Normal r ->
  exists more, r = (acc ++ more)%list.
Proof.
  unfold checkParam.
  destruct (hasProperty (def_key def) params) as [[|]|t]; simpl;
    intros H; inversion H; eauto.
  exists []. now rewrite app_nil_r.
Qed.

Lemma checkStream_extends (streamDefs : StreamDefs) (layerIndex : nat)
  (acc : list StructuredError) (entry : nat * JsVal)
  (r : list StructuredError) :
  checkStream streamDefs layerIndex acc entry = Normal r ->
  exists more, r = (acc ++ more)%list.
Proof.
  destruct entry as [streamIndex stream]. unfold checkStream.
  destruct (negb (isObjectLike stream)).
  - intros H. inversion H. eauto.
  - destruct (lookupDefs streamDefs (field stream "type")) as [defs|t];
      simpl; [| discriminate].
    intros H. apply forEachM_extends in H;
      [| intros; eapply checkParam_extends; eauto].
    destruct H as (more & ->).
    destruct (negb (truthy (field stream "type"))
              || negb (JsType_eqb (typeof (field stream "type")) TString)).
    + rewrite <- app_assoc. eauto.
    + eauto.
Qed.

Lemma checkLayer_extends (streamDefs : StreamDefs)
  (acc : list StructuredError) (entry : nat * JsVal)
  (r : list StructuredError) :
  checkLayer streamDefs acc entry = Normal r ->
  exists more, r = (acc ++ more)%list.
Proof.
  destruct entry as [layerIndex layer]. unfold checkLayer.
  destruct layer as [| | | | |[|s streams]| |];
    try (intros H; inversion H; eauto; fail).
  intros H. eapply forEachM_extends; [| exact H].
  intros. eapply checkStream_extends; eauto.
Qed.

(** A value that is not an object gets exactly one error. *)
Lemma validate_not_object (config : JsVal) (streamDefs : StreamDefs)
  (runLimits : RunLimits) :
  isObjectLike config = false ->
  exists e,
    validateConfigPayload config streamDefs runLimits = Normal [e]
    /\ code e = ERROR_CODES.validation.CFG_INVALID
    /\ ownGet (details e) "path" = Some (JStr "config").
Proof.
  intros H. unfold validateConfigPayload. rewrite H. simpl. eauto.
Qed.

(** Whatever else is wrong, a list that is returned starts with every
    error of the run controls. *)
Lemma validate_keeps_control_errors (config : JsVal)
  (streamDefs : StreamDefs) (runLimits : RunLimits)
  (errors : list StructuredError) :
  isObjectLike config = true ->
  validateConfigPayload config streamDefs runLimits = Normal errors ->
  exists more,
    errors = (controlErrors (readControls config) runLimits ++ more)%list.
Proof.
  intros Hobj. unfold validateConfigPayload. rewrite Hobj. simpl negb.
  cbv iota.
  destruct (field config "layers") as [| | | | |[|l layers]| |];
    try (intros H; inversion H; eauto; fail).
  intros H. eapply forEachM_extends; [| exact H].
  intros. eapply checkLayer_extends; eauto.
Qed.

Lemma control_errors_steps_limit (controls : Controls) (runLimits : RunLimits) :
  PrimFloat.ltb (maxSteps runLimits) (c_steps controls) = true ->
  exists e,
    In e (controlErrors controls runLimits)
    /\ code e = ERROR_CODES.validation.STEPS_LIMIT.
Proof.
  intros H. unfold controlErrors. rewrite H.
  eexists. split.
  - apply in_or_app. right. apply in_or_app. left. left. reflexivity.
  - reflexivity.
Qed.

Lemma control_errors_episodes_invalid (controls : Controls)
  (runLimits : RunLimits) :
  PrimFloat.ltb (c_episodes controls) 1 = true ->
  exists e,
    In e (controlErrors controls runLimits)
    /\ code e = ERROR_CODES.validation.EPISODES_INVALID.
Proof.
  intros H. unfold controlErrors. rewrite H, orb_true_r.
  eexists. split.
  - apply in_or_app. right. apply in_or_app. right.
    apply in_or_app. left. left. reflexivity.
  - reflexivity.
Qed.

(** When [validateConfigPayload] returns, the list has the error of
    every violated control limit. *)
Lemma validate_reports_limits (config : JsVal) (streamDefs : StreamDefs)
  (runLimits : RunLimits) (errors : list StructuredError) :
  isObjectLike config = true ->
  validateConfigPayload config streamDefs runLimits = Normal errors ->
  (PrimFloat.ltb (maxSteps runLimits) (c_steps (readControls config)) = true ->
   exists e, In e errors /\ code e = ERROR_CODES.validation.STEPS_LIMIT)
  /\ (PrimFloat.ltb (c_episodes (readControls config)) 1 = true ->
      exists e, In e errors /\ code e = ERROR_CODES.validation.EPISODES_INVALID).
Proof.
  intros Hobj H.
  destruct (validate_keeps_control_errors _ _ _ Hobj H) as (more & ->).
  split; intros Hv.
  - destruct (control_errors_steps_limit _ runLimits Hv) as (e & Hin & Hc).
    exists e. split; auto. apply in_or_app. auto.
  - destruct (control_errors_episodes_invalid _ runLimits Hv)
      as (e & Hin & Hc).
    exists e. split; auto. apply in_or_app. auto.
Qed.

Lemma forEachM_total {A S : Type} (body : S -> A -> Completion S)
  (l : list A) :
  (forall x, In x l -> forall acc, exists r, body acc x = Normal r) ->
  forall acc, exists r, forEachM body l acc = Normal r.
Proof.
  induction l as [|x l IH]; intros Hbody acc; simpl.
  - eauto.
  - destruct (Hbody x (or_introl eq_refl) acc) as (acc' & E). rewrite E.
    simpl. apply IH. intros y Hy. apply Hbody. right. exact Hy.
Qed.

Lemma checkStream_total (streamDefs : StreamDefs) (layerIndex streamIndex : nat)
  (stream : JsVal) (acc : list StructuredError) :
  checkableStream streamDefs stream = true ->
  exists r, checkStream streamDefs layerIndex acc (streamIndex, stream) = Normal r.
Proof.
  unfold checkableStream, checkStream. intros H.
  destruct (isObjectLike stream); cbn [negb orb] in *; [| eauto].
  apply andb_true_iff in H. destruct H as [Hdefs Hparams].
  destruct (lookupDefs streamDefs (field stream "type")) as [defs|];
    [| discriminate].
  cbn [bind]. apply forEachM_total. intros def _ acc'. unfold checkParam.
  destruct (or_else (field stream "params") (JObj [])); try discriminate;
    simpl; eauto.
Qed.

(** Outside the two throws, [validateConfigPayload] returns its list. *)
Lemma validate_total (config : JsVal) (streamDefs : StreamDefs)
  (runLimits : RunLimits) :
  checkableConfig streamDefs config = true ->
  exists errors, validateConfigPayload config streamDefs runLimits = Normal errors.
Proof.
  unfold checkableConfig, validateConfigPayload. intros H.
  destruct (negb (isObjectLike config)); [eauto |].
  destruct (field config "layers") as [| | | | |[|l layers]| |]; eauto.
  apply forEachM_total. intros [layerIndex layer] Hin acc.
  apply in_combine_r in Hin. rewrite forallb_forall in H.
  specialize (H layer Hin). unfold checkLayer.
  destruct layer as [| | | | |[|s streams]| |]; eauto.
  apply forEachM_total. intros [streamIndex stream] Hs acc'.
  apply in_combine_r in Hs. rewrite forallb_forall in H.
  apply checkStream_total. apply H. exact Hs.
Qed.

(** C5: [validateConfigPayload] is meant never to throw; on a stream
    whose [params] is a string it throws the [TypeError] of the [in]
    operator, and returns no list at all. *)
Theorem validate_throws_on_string_params :
  validateConfigPayload stringParamsConfig priceDefs RUN_LIMITS
  = Throw (TypeError "Cannot use 'in' operator to search for a key").
Proof. reflexivity. Qed.

End ValidationFacts.

(** ** The result shape *)

Lemma isObjectLike_isObject (v : JsVal) : isObjectLike v = true <-> isObject v.
Proof.
  destruct v as [| |b|x|s|l|o|f]; simpl; unfold isObjectLike; simpl;
    try tauto; try (split; [discriminate | tauto]).
  - rewrite andb_false_r. split; [discriminate | tauto].
  - rewrite andb_false_r. split; [discriminate | tauto].
  - rewrite andb_false_r. split; [discriminate | tauto].
Qed.

Lemma isArray_JArr (v : JsVal) : isArray v = true <-> exists l, v = JArr l.
Proof.
  destruct v; simpl; split; try discriminate; eauto;
    intros (l & E); discriminate.
Qed.

(** [validateRunResultShape] decides the shape the design document
    asks for. *)
Lemma validateRunResultShape_spec (result : JsVal) :
  validateRunResultShape result = true <-> ResultShape result.
Proof.
  unfold validateRunResultShape, ResultShape.
  destruct (isObjectLike result) eqn:Hobj; simpl.
  - apply isObjectLike_isObject in Hobj.
    destruct (field result "episodes") as [| | | | |eps| |] eqn:Heps;
      try (split; [discriminate | intros (_ & l & E & _); discriminate]).
    rewrite forallb_forall. split.
    + intros H. split; auto. exists eps. split; auto.
      apply Forall_forall. intros ep Hin. specialize (H ep Hin).
      repeat (apply andb_true_iff in H; destruct H as [H ?]).
      repeat split.
      * apply isObjectLike_isObject. unfold isObjectLike.
        now apply andb_true_iff.
      * now apply isArray_JArr.
      * apply isObjectLike_isObject. unfold isObjectLike.
        now apply andb_true_iff.
    + intros (_ & l & E & Hall). inversion E. subst l.
      intros ep Hin. rewrite Forall_forall in Hall.
      destruct (Hall ep Hin) as (Hep & Hrows & Hsum).
      apply isObjectLike_isObject in Hep, Hsum. unfold isObjectLike in *.
      apply andb_true_iff in Hep, Hsum. destruct Hep, Hsum.
      apply isArray_JArr in Hrows.
      repeat (apply andb_true_iff; split); auto.
  - split; [discriminate |]. intros (Hres & _).
    apply isObjectLike_isObject in Hres. congruence.
Qed.

Example accepts_valid_config {B : Builtins} :
  validateConfigPayload (testConfig 10%float) priceDefs RUN_LIMITS = Normal [].
Proof. reflexivity. Qed.

Example rejects_step_limit_overflow {B : Builtins} :
  option_map (map code)
    (match validateConfigPayload (testConfig 9999%float) priceDefs RUN_LIMITS with
     | Normal errors => Some errors
     | Throw _ => None
     end)
  = Some [ERROR_CODES.validation.STEPS_LIMIT].
Proof. reflexivity. Qed.

(** ** The dispatcher *)

Lemma runSettled_rejected (e : StructuredError) :
  runSettled (Rejected e)
  = Throw (ThrowStructured
             (createError (code e) (message e) (hints e) (details e))).
Proof. reflexivity. Qed.

(** C6: [run] fails with [runtime.bad_result_shape] exactly when the
    worker answered [run_ok] with a payload that is not an object with an
    [episodes] array of objects, each with a [per_step] array and an
    [episode] object; a payload of that shape is returned unchanged. *)
Theorem run_rejects_exactly_bad_shapes (a : Arrival) :
  ((exists e,
      runSettled (settlementOf a) = Throw (ThrowStructured e)
      /\ code e = ERROR_CODES.runtime.BAD_RESULT_SHAPE)
   <-> (exists result, a = Answered (RunOk result) /\ ~ ResultShape result))
  /\ (forall result,
        a = Answered (RunOk result) -> ResultShape result ->
        runSettled (settlementOf a) = Normal result).
Proof.
  split; [split |].
  - intros (e & H & Hcode).
    destruct a as [[info|result|msg]|ev|]; simpl in H;
      try (inversion H; subst e; simpl in Hcode; discriminate).
    exists result. split; auto. intros Hshape.
    apply validateRunResultShape_spec in Hshape.
    unfold runSettled in H. simpl in H. rewrite Hshape in H.
    simpl in H. discriminate.
  - intros (result & -> & Hshape).
    destruct (validateRunResultShape result) eqn:E.
    + apply validateRunResultShape_spec in E. contradiction.
    + unfold runSettled. simpl. rewrite E. simpl. eauto.
  - intros result -> Hshape. apply validateRunResultShape_spec in Hshape.
    unfold runSettled. simpl. now rewrite Hshape.
Qed.

Lemma run_rejects_exactly_bad_shapes_witness :
  ResultShape oneEpisodeResult
  /\ ~ ResultShape rowsOnlyResult
  /\ runSettled (settlementOf (Answered (RunOk oneEpisodeResult)))
     = Normal oneEpisodeResult
  /\ (exists e,
        runSettled (settlementOf (Answered (RunOk rowsOnlyResult)))
        = Throw (ThrowStructured e)
        /\ code e = ERROR_CODES.runtime.BAD_RESULT_SHAPE).
Proof.
  assert (Hgood : ResultShape oneEpisodeResult).
  { apply validateRunResultShape_spec. reflexivity. }
  assert (Hbad : ~ ResultShape rowsOnlyResult).
  { intros H. apply validateRunResultShape_spec in H. discriminate H. }
  split; [exact Hgood |]. split; [exact Hbad |]. split.
  - exact (proj2 (run_rejects_exactly_bad_shapes
                    (Answered (RunOk oneEpisodeResult)))
                 oneEpisodeResult eq_refl Hgood).
  - apply (proj2 (proj1 (run_rejects_exactly_bad_shapes
                           (Answered (RunOk rowsOnlyResult))))).
    exists rowsOnlyResult. split; [reflexivity | exact Hbad].
Defined.

(** ** The dispatch loop *)

Section LoopFacts.
Variable env : RunEnv.

(** A loop that runs to its end has handed every scenario over and holds
    one result per scenario, in order. *)
Lemma dispatchLoop_normal (scenarios : list Scenario) :
  forall i results dispatched sent collected,
    dispatchLoop env scenarios i results dispatched = (sent, Normal collected) ->
    sent = (dispatched ++ scenarios)%list
    /\ map r_label collected
       = (map r_label results ++ map label scenarios)%list.
Proof.
  induction scenarios as [|scenario rest IH];
    intros i results dispatched sent collected H; cbn [dispatchLoop] in H.
  - inversion H. now rewrite !app_nil_r.
  - destruct (cancelRequested env i); [discriminate |].
    destruct (now env i - runStartMs env >? maxRunMs RUN_LIMITS)%Z;
      [discriminate |].
    destruct (payloadOf env scenario) as [payload|]; [| discriminate].
    destruct (assertRunPayloadBridge payload); [| discriminate].
    destruct (runSettled (settlementOf (arrival env i payload)))
      as [result|]; [| discriminate].
    apply IH in H. destruct H as [-> ->].
    rewrite map_app, <- !app_assoc. auto.
Qed.

(** However the loop ends, what it handed over is a prefix of the
    scenarios. *)
Lemma dispatchLoop_prefix (scenarios : list Scenario) :
  forall i results dispatched,
    exists k,
      fst (dispatchLoop env scenarios i results dispatched)
      = (dispatched ++ firstn k scenarios)%list.
Proof.
  induction scenarios as [|scenario rest IH]; intros i results dispatched;
    cbn [dispatchLoop].
  - exists 0. now rewrite app_nil_r.
  - destruct (cancelRequested env i);
      [exists 0; simpl; now rewrite app_nil_r |].
    destruct (now env i - runStartMs env >? maxRunMs RUN_LIMITS)%Z;
      [exists 0; simpl; now rewrite app_nil_r |].
    destruct (payloadOf env scenario) as [payload|];
      [| exists 0; simpl; now rewrite app_nil_r].
    destruct (assertRunPayloadBridge payload);
      [| exists 0; simpl; now rewrite app_nil_r].
    destruct (runSettled (settlementOf (arrival env i payload)))
      as [result|].
    + destruct (IH (S i)
                   (results ++ [ {| r_label := label scenario;
                                    r_result := result |} ])%list
                   (dispatched ++ [scenario])%list) as (k & E).
      exists (S k). rewrite E. simpl. now rewrite <- app_assoc.
    + exists 1. reflexivity.
Qed.

(** Scenarios that went through are followed by the rest of the loop. *)
Lemma dispatchLoop_app (before after : list Scenario) :
  forall i results dispatched sent collected,
    dispatchLoop env before i results dispatched = (sent, Normal collected) ->
    dispatchLoop env (before ++ after) i results dispatched
    = dispatchLoop env after (i + List.length before) collected sent.
Proof.
  induction before as [|scenario rest IH];
    intros i results dispatched sent collected H;
    cbn [dispatchLoop app] in H |- *.
  - inversion H. cbn [List.length]. now rewrite Nat.add_0_r.
  - destruct (cancelRequested env i); [discriminate |].
    destruct (now env i - runStartMs env >? maxRunMs RUN_LIMITS)%Z;
      [discriminate |].
    destruct (payloadOf env scenario) as [payload|]; [| discriminate].
    destruct (assertRunPayloadBridge payload); [| discriminate].
    destruct (runSettled (settlementOf (arrival env i payload)))
      as [result|]; [| discriminate].
    rewrite (IH _ _ _ _ _ H). cbn [List.length Nat.add].
    now rewrite Nat.add_succ_r.
Qed.

End LoopFacts.

Section RunFacts.
Context {B : Builtins}.

Lemma buildScenarioList_not_empty (st : State) : buildScenarioList st <> [].
Proof.
  intros E. apply (f_equal (@List.length Scenario)) in E.
  rewrite length_buildScenarioList in E. simpl in E.
  pose proof (product_pos
                (axisSizes_pos (collectCategories_options st))) as Hpos.
  lia.
Qed.

Lemma runSimulation_throw (env : RunEnv) (st : State)
  (sent : list Scenario) (err : Thrown) :
  started env ->
  dispatchLoop env (firstn (maxScenarios RUN_LIMITS) (buildScenarioList st))
               0 [] []
  = (sent, Throw err) ->
  runSimulation env st
  = (sent,
     RunFailed
       (normalizeError err ERROR_CODES.runtime.FAILED "Simulation failed."
          ["Check stream parameters and scenario settings.";
           "Reduce run size if your browser is resource constrained."])).
Proof.
  intros (Hrun & Hready & Hvalid) Hloop. unfold runSimulation.
  rewrite Hrun, Hready, Hvalid. simpl negb. cbv iota.
  destruct (buildScenarioList st) as [|s all] eqn:E.
  - now apply buildScenarioList_not_empty in E.
  - now rewrite Hloop.
Qed.

(** The run stops at the boundary where the loop throws: nothing is
    handed over after the scenarios that went through before it. *)
Lemma runSimulation_stops (env : RunEnv) (st : State)
  (before after : list Scenario) (scenario : Scenario)
  (sent sent' : list Scenario) (collected : list ScenarioResult)
  (err : Thrown) :
  started env ->
  firstn (maxScenarios RUN_LIMITS) (buildScenarioList st)
  = (before ++ scenario :: after)%list ->
  dispatchLoop env before 0 [] [] = (sent, Normal collected) ->
  dispatchLoop env (scenario :: after) (List.length before) collected before
  = (sent', Throw err) ->
  runSimulation env st
  = (sent',
     RunFailed
       (normalizeError err ERROR_CODES.runtime.FAILED "Simulation failed."
          ["Check stream parameters and scenario settings.";
           "Reduce run size if your browser is resource constrained."])).
Proof.
  intros Hstarted Hsplit Hbefore Hthrow.
  apply runSimulation_throw; auto.
  rewrite Hsplit, (dispatchLoop_app _ _ _ _ _ _ Hbefore). simpl plus.
  destruct (dispatchLoop_normal _ _ _ _ _ Hbefore) as [-> _]. exact Hthrow.
Qed.

End RunFacts.

(** ** The run orchestrator *)

Example truncationNotice_text :
  truncationNotice = "Scenario count capped at 64.".
Proof. reflexivity. Qed.

Section OrchestratorFacts.
Context {B : Builtins}.

(** What a finished run was made of. *)
Lemma runSimulation_done (env : RunEnv) (st : State) (sent : list Scenario)
  (artifact : RunArtifact) (results : list ScenarioResult) :
  runSimulation env st = (sent, Done artifact results) ->
  dispatchLoop env (firstn (maxScenarios RUN_LIMITS) (buildScenarioList st))
               0 [] []
  = (sent, Normal results)
  /\ warnings artifact
     = ((if (List.length (firstn (maxScenarios RUN_LIMITS)
                                 (buildScenarioList st))
             <? List.length (buildScenarioList st))%nat
         then [truncationNotice] else [])
        ++ match memoryWarning env with Some w => [w] | None => [] end)%list.
Proof.
  unfold runSimulation.
  destruct (isRunning env); [discriminate |].
  destruct (pyodideReady env); [| discriminate]. cbn [negb].
  destruct (validateConfigPayload (configV2 env) (STREAM_DEFS env) RUN_LIMITS)
    as [[|e es]|t]; try discriminate.
  destruct (buildScenarioList st) as [|s all] eqn:E; [discriminate |].
  cbv zeta.
  destruct (dispatchLoop env (firstn (maxScenarios RUN_LIMITS) (s :: all))
                         0 [] [])
    as [sent' [[|first others]|t]]; try discriminate.
  intros H. inversion H. subst. auto.
Qed.

(** What [runSimulation] hands to the dispatcher is always a prefix of
    the first [maxScenarios] scenarios. *)
Lemma runSimulation_prefix (env : RunEnv) (st : State) :
  exists k,
    fst (runSimulation env st)
    = firstn k (firstn (maxScenarios RUN_LIMITS) (buildScenarioList st)).
Proof.
  unfold runSimulation.
  destruct (isRunning env); [exists 0; reflexivity |].
  destruct (pyodideReady env); [| exists 0; reflexivity]. cbn [negb].
  destruct (validateConfigPayload (configV2 env) (STREAM_DEFS env) RUN_LIMITS)
    as [[|e es]|t]; try (exists 0; reflexivity).
  destruct (buildScenarioList st) as [|s all] eqn:E;
    [exists 0; reflexivity |].
  cbv zeta.
  destruct (dispatchLoop_prefix env
              (firstn (maxScenarios RUN_LIMITS) (s :: all)) 0 [] [])
    as (k & Hk).
  cbn [app] in Hk. exists k. rewrite <- Hk.
  destruct (dispatchLoop env (firstn (maxScenarios RUN_LIMITS) (s :: all))
                         0 [] [])
    as [sent' [[|first others]|t]]; reflexivity.
Qed.

(** C10: [buildScenarioList] never returns an empty list, so
    [runSimulation] never ends in its zero-scenarios branch. *)
Theorem scenario_list_never_empty :
  (forall st : State, buildScenarioList st <> [])
  /\ (forall (env : RunEnv) (st : State),
        snd (runSimulation env st) <> NoScenarios).
Proof.
  split; [apply buildScenarioList_not_empty |].
  intros env st. unfold runSimulation.
  destruct (isRunning env); [discriminate |].
  destruct (pyodideReady env); [| discriminate]. cbn [negb].
  destruct (validateConfigPayload (configV2 env) (STREAM_DEFS env) RUN_LIMITS)
    as [[|e es]|t]; try discriminate.
  destruct (buildScenarioList st) as [|s all] eqn:E.
  - now apply buildScenarioList_not_empty in E.
  - cbv zeta.
    destruct (dispatchLoop env (firstn (maxScenarios RUN_LIMITS) (s :: all))
                           0 [] [])
      as [sent' [[|first others]|t]]; discriminate.
Qed.

(** C2: the enumerator returns the whole product, however long; when
    that is more than [maxScenarios], a run that produces an artifact has
    dispatched exactly the first [maxScenarios] scenarios and its
    artifact's warnings hold the truncation notice.  What a run
    dispatches is in every case a prefix of those first scenarios. *)
Theorem truncation_by_orchestrator (env : RunEnv) (st : State) :
  List.length (buildScenarioList st)
  = product (axisSizes (collectCategories st))
  /\ (exists k,
        fst (runSimulation env st)
        = firstn k (firstn (maxScenarios RUN_LIMITS) (buildScenarioList st)))
  /\ (maxScenarios RUN_LIMITS < List.length (buildScenarioList st) ->
      forall sent artifact results,
        runSimulation env st = (sent, Done artifact results) ->
        sent = firstn (maxScenarios RUN_LIMITS) (buildScenarioList st)
        /\ List.length sent = maxScenarios RUN_LIMITS
        /\ map r_label results = map label sent
        /\ In truncationNotice (warnings artifact)).
Proof.
  split; [apply length_buildScenarioList |].
  split; [apply runSimulation_prefix |].
  intros Hlong sent artifact results H.
  apply runSimulation_done in H. destruct H as [Hloop Hwarn].
  apply dispatchLoop_normal in Hloop. destruct Hloop as [Hsent Hlabels].
  cbn [app map] in Hsent, Hlabels. subst sent.
  split; [reflexivity |]. split; [| split; [exact Hlabels |]].
  - rewrite length_firstn. lia.
  - rewrite Hwarn.
    assert (Ht : (List.length (firstn (maxScenarios RUN_LIMITS)
                                      (buildScenarioList st))
                  <? List.length (buildScenarioList st))%nat = true).
    { apply Nat.ltb_lt. rewrite length_firstn. lia. }
    rewrite Ht. left. reflexivity.
Qed.

End OrchestratorFacts.

Lemma truncation_by_orchestrator_witness :
  (forall B : Builtins,
     maxScenarios RUN_LIMITS < List.length (@buildScenarioList B wideState))
  /\ (forall B : Builtins,
        exists artifact results,
          @runSimulation B quietEnv wideState
          = (firstn (maxScenarios RUN_LIMITS) (@buildScenarioList B wideState),
             Done artifact results)
          /\ In truncationNotice (warnings artifact)).
Proof.
  assert (Hlong : forall B : Builtins,
             maxScenarios RUN_LIMITS
             < List.length (@buildScenarioList B wideState)).
  { intros B. apply Nat.ltb_lt. vm_compute. reflexivity. }
  split; [exact Hlong |].
  intros B.
  assert (exists sent artifact results,
             @runSimulation B quietEnv wideState
             = (sent, Done artifact results))
    as (sent & artifact & results & E).
  { vm_compute. do 3 eexists. reflexivity. }
  destruct (proj2 (proj2 (@truncation_by_orchestrator B quietEnv wideState))
                  (Hlong B) sent artifact results E)
    as (Hsent & _ & _ & Hin).
  exists artifact, results. rewrite <- Hsent. auto.
Defined.

(** With nothing else pending, a request is answered by what the worker
    replies, settled as [worker.onmessage] settles it. *)
Lemma roundTrip_idle (backend : Backend) (rt : PlaygroundRuntime)
  (req : WorkerRequest) :
  pending rt = [] ->
  roundTrip backend rt req
  = (let ws := match worker rt with Some ws => ws | None => Worker.fresh end in
     ({| worker := Some (fst (Worker.onmessage backend ws req));
         requestSeq := S (requestSeq rt);
         pending := [];
         ready := ready rt;
         engineVersion := engineVersion rt |},
      Some (settlementOf (Answered (snd (Worker.onmessage backend ws req)))))).
Proof.
  intros Hidle. destruct rt as [w seq pend rdy ev]. simpl in Hidle. subst pend.
  unfold roundTrip, request, ensureWorker, onmessage.
  destruct w as [ws|];
    cbn [worker requestSeq pending ready engineVersion app];
    [destruct (Worker.onmessage backend ws req) as [ws' reply]
    | destruct (Worker.onmessage backend Worker.fresh req) as [ws' reply]];
    cbn [worker requestSeq pending ready engineVersion existsb filter fst snd];
    rewrite String.eqb_refl; cbn [orb negb option_map snd];
    destruct reply; reflexivity.
Qed.

Section BoundaryFacts.
Context {B : Builtins}.

(** C3: at a scenario boundary that the loop reaches with the elapsed
    time above [maxRunMs], the run ends with the error
    [runtime.limit_exceeded] and has dispatched only the scenarios before
    that boundary; the check comes after the cancellation check, which
    wins when the flag is set at the same boundary. *)
Theorem limit_exceeded_stops_run (env : RunEnv) (st : State)
  (before : list Scenario) (scenario : Scenario) (after : list Scenario) :
  started env ->
  firstn (maxScenarios RUN_LIMITS) (buildScenarioList st)
  = (before ++ scenario :: after)%list ->
  wentThrough env before ->
  (now env (List.length before) - runStartMs env > maxRunMs RUN_LIMITS)%Z ->
  (cancelRequested env (List.length before) = false ->
   exists e,
     runSimulation env st = (before, RunFailed e)
     /\ code e = ERROR_CODES.runtime.LIMIT_EXCEEDED)
  /\ (cancelRequested env (List.length before) = true ->
      exists e,
        runSimulation env st = (before, RunFailed e)
        /\ code e = ERROR_CODES.runtime.CANCELLED).
Proof.
  intros Hstarted Hsplit (sent & collected & Hbefore) Hlate.
  apply Z.gt_lt, Z.gtb_lt in Hlate.
  split; intros Hflag; eexists; split.
  - eapply runSimulation_stops; eauto.
    cbn [dispatchLoop]. rewrite Hflag, Hlate. reflexivity.
  - reflexivity.
  - eapply runSimulation_stops; eauto.
    cbn [dispatchLoop]. rewrite Hflag. reflexivity.
  - reflexivity.
Qed.

(** C4: a cancellation flag found set at a scenario boundary, and a
    termination of the dispatcher while a scenario is in flight, both end
    the run with the error [runtime.cancelled] and no further dispatch;
    [terminate] rejects every pending request with [runtime.cancelled],
    empties the pending table, drops the worker and marks the runtime not
    ready; a run requested then, before a new [init], is answered by a
    fresh worker that is not ready and fails, while after a successful
    [init] the runtime is ready and the run reaches the backend. *)
Theorem cancellation_is_destructive (env : RunEnv) (st : State)
  (before : list Scenario) (scenario : Scenario) (after : list Scenario)
  (rt : PlaygroundRuntime) (backend : Backend) (payload : JsVal) :
  (started env ->
   firstn (maxScenarios RUN_LIMITS) (buildScenarioList st)
   = (before ++ scenario :: after)%list ->
   wentThrough env before ->
   (cancelRequested env (List.length before) = true ->
    exists e,
      runSimulation env st = (before, RunFailed e)
      /\ code e = ERROR_CODES.runtime.CANCELLED)
   /\ (cancelRequested env (List.length before) = false ->
       (now env (List.length before) - runStartMs env <= maxRunMs RUN_LIMITS)%Z ->
       forall sentPayload,
         payloadOf env scenario = Normal sentPayload ->
         assertRunPayloadBridge sentPayload = Normal tt ->
         arrival env (List.length before) sentPayload = Terminated ->
         exists e,
           runSimulation env st = ((before ++ [scenario])%list, RunFailed e)
           /\ code e = ERROR_CODES.runtime.CANCELLED))
  /\ (let (rt', rejections) := terminate rt in
      rejections = map (fun k => (k, settlementOf Terminated)) (pending rt)
      /\ Forall (fun r => exists e,
                   snd r = Rejected e
                   /\ code e = ERROR_CODES.runtime.CANCELLED)
                rejections
      /\ pending rt' = [] /\ worker rt' = None /\ ready rt' = false)
  /\ (exists rt' e,
        run backend (fst (terminate rt)) payload
        = (rt', Some (Throw (ThrowStructured e)))
        /\ code e = ERROR_CODES.runtime.FAILED
        /\ message e = "runtime-not-ready"
        /\ ready rt' = false)
  /\ (forall indexURL version result,
        load backend indexURL = Loaded version ->
        run_sim backend payload = inl result ->
        ResultShape result ->
        exists rt1 info rt2,
          init backend (fst (terminate rt)) indexURL
          = (rt1, Some (Normal info))
          /\ ready rt1 = true
          /\ run backend rt1 payload = (rt2, Some (Normal result))).
Proof.
  split; [| split; [| split]].
  - intros Hstarted Hsplit (sent & collected & Hbefore). split.
    + intros Hflag. eexists. split.
      * eapply runSimulation_stops; eauto.
        cbn [dispatchLoop]. rewrite Hflag. reflexivity.
      * reflexivity.
    + intros Hflag Htime sentPayload Hpayload Hbridge Harrival.
      assert (Hle : (now env (List.length before) - runStartMs env
                     >? maxRunMs RUN_LIMITS)%Z = false).
      { destruct (now env (List.length before) - runStartMs env
                  >? maxRunMs RUN_LIMITS)%Z eqn:E; auto.
        apply Z.gtb_lt in E. lia. }
      eexists. split.
      * eapply runSimulation_stops; eauto.
        cbn [dispatchLoop].
        rewrite Hflag, Hle, Hpayload, Hbridge, Harrival. reflexivity.
      * reflexivity.
  - unfold terminate. repeat split; auto.
    apply Forall_forall. intros r Hin. apply in_map_iff in Hin.
    destruct Hin as (k & <- & _). simpl. eauto.
  - unfold run. rewrite roundTrip_idle by reflexivity. simpl.
    do 2 eexists. repeat split.
  - intros indexURL version result Hload Hrun Hshape.
    apply validateRunResultShape_spec in Hshape.
    unfold init. rewrite roundTrip_idle by reflexivity.
    cbn [terminate fst worker Worker.onmessage Worker.initRuntime Worker.fresh
         Worker.ready Worker.pyodide Worker.initError].
    rewrite Hload. cbn [fst snd settlementOf initSettled String.eqb
                        Ascii.eqb Bool.eqb negb].
    do 3 eexists. split; [reflexivity |]. split; [reflexivity |].
    unfold run. rewrite roundTrip_idle by reflexivity.
    cbn [worker Worker.onmessage Worker.runSimulation Worker.ready
         Worker.pyodide].
    rewrite Hrun.
    cbn [fst snd settlementOf option_map]. unfold runSettled.
    cbn [String.eqb Ascii.eqb Bool.eqb negb]. rewrite Hshape. reflexivity.
Qed.

End BoundaryFacts.

Lemma limit_exceeded_stops_run_witness :
  cancelRequested lateEnv 1 = false
  /\ (now lateEnv 1 - runStartMs lateEnv > maxRunMs RUN_LIMITS)%Z
  /\ (forall B : Builtins,
        exists e,
          @runSimulation B lateEnv twoAxisState
          = (firstn 1 (@buildScenarioList B twoAxisState), RunFailed e)
          /\ code e = ERROR_CODES.runtime.LIMIT_EXCEEDED).
Proof.
  split; [reflexivity |]. split; [reflexivity |].
  intros B.
  assert (Hstarted : @started B lateEnv) by (repeat split; reflexivity).
  assert (Hsplit :
            firstn (maxScenarios RUN_LIMITS) (@buildScenarioList B twoAxisState)
            = (firstn 1 (@buildScenarioList B twoAxisState)
               ++ nth 1 (@buildScenarioList B twoAxisState) baseScenario
               :: skipn 2 (@buildScenarioList B twoAxisState))%list)
    by reflexivity.
  assert (Hwent : wentThrough lateEnv
                    (firstn 1 (@buildScenarioList B twoAxisState))).
  { vm_compute. do 2 eexists. reflexivity. }
  apply (proj1 (@limit_exceeded_stops_run B lateEnv twoAxisState _ _ _
                  Hstarted Hsplit Hwent eq_refl)).
  reflexivity.
Defined.

Lemma cancellation_is_destructive_witness :
  cancelRequested cancelledEnv 1 = true
  /\ arrival terminatedEnv 1 samplePayload = Terminated
  /\ load sampleBackend (JStr "cdn") = Loaded "0.26.4"
  /\ forall B : Builtins,
       (exists e,
          @runSimulation B cancelledEnv twoAxisState
          = (firstn 1 (@buildScenarioList B twoAxisState), RunFailed e)
          /\ code e = ERROR_CODES.runtime.CANCELLED)
       /\ (exists e,
             @runSimulation B terminatedEnv twoAxisState
             = (firstn 2 (@buildScenarioList B twoAxisState), RunFailed e)
             /\ code e = ERROR_CODES.runtime.CANCELLED)
       /\ (exists rt info rt',
             init sampleBackend (fst (terminate newRuntime)) (JStr "cdn")
             = (rt, Some (Normal info))
             /\ ready rt = true
             /\ run sampleBackend rt samplePayload
                = (rt', Some (Normal oneEpisodeResult))).
Proof.
  split; [reflexivity |]. split; [reflexivity |]. split; [reflexivity |].
  intros B.
  assert (Hsplit :
            firstn (maxScenarios RUN_LIMITS) (@buildScenarioList B twoAxisState)
            = (firstn 1 (@buildScenarioList B twoAxisState)
               ++ nth 1 (@buildScenarioList B twoAxisState) baseScenario
               :: skipn 2 (@buildScenarioList B twoAxisState))%list)
    by reflexivity.
  split; [| split].
  - assert (Hstarted : @started B cancelledEnv) by (repeat split; reflexivity).
    assert (Hwent : wentThrough cancelledEnv
                      (firstn 1 (@buildScenarioList B twoAxisState))).
    { vm_compute. do 2 eexists. reflexivity. }
    apply (proj1 (proj1 (@cancellation_is_destructive B cancelledEnv
                           twoAxisState _ _ _ newRuntime sampleBackend
                           samplePayload)
                        Hstarted Hsplit Hwent)).
    reflexivity.
  - assert (Hstarted : @started B terminatedEnv) by (repeat split; reflexivity).
    assert (Hwent : wentThrough terminatedEnv
                      (firstn 1 (@buildScenarioList B twoAxisState))).
    { vm_compute. do 2 eexists. reflexivity. }
    apply (proj2 (proj1 (@cancellation_is_destructive B terminatedEnv
                           twoAxisState _ _ _ newRuntime sampleBackend
                           samplePayload)
                        Hstarted Hsplit Hwent)
                 eq_refl ltac:(vm_compute; discriminate) samplePayload
                 eq_refl eq_refl eq_refl).
  - assert (Hshape : ResultShape oneEpisodeResult)
      by (apply validateRunResultShape_spec; reflexivity).
    exact (proj2 (proj2 (proj2
             (@cancellation_is_destructive B quietEnv priceState []
                baseScenario [] newRuntime sampleBackend samplePayload)))
             (JStr "cdn") "0.26.4" oneEpisodeResult eq_refl eq_refl Hshape).
Defined.

(** The end-to-end example of the design document. *)
Example price_end_to_end {B : Builtins} :
  validateConfigPayload priceConfig priceDefs RUN_LIMITS = Normal []
  /\ buildScenarioList priceState = [ {| label := "Base"; overrides := [] |} ]
  /\ exists artifact results,
       runSimulation priceEnv priceState
       = ([ {| label := "Base"; overrides := [] |} ], Done artifact results)
       /\ run_id artifact = "20260213102030-01234567"
       /\ warnings artifact = [] /\ errors artifact = []
       /\ exists episode rows,
            episodes artifact = JArr [episode]
            /\ field episode "per_step" = JArr rows
            /\ List.length rows = 20.
Proof.
  split; [reflexivity |]. split; [reflexivity |].
  vm_compute. do 2 eexists. split; [reflexivity |].
  repeat split. do 2 eexists. repeat split.
Qed.

(** Each handler of the dispatcher settles a pending request as
    [settlementOf] says. *)
Lemma onerror_settles (rt : PlaygroundRuntime) (eventMessage : JsVal) :
  snd (onerror rt eventMessage)
  = map (fun k => (k, settlementOf (Crashed eventMessage))) (pending rt).
Proof. reflexivity. Qed.

Lemma onmessage_settles (rt : PlaygroundRuntime) (requestId : string)
  (reply : WorkerReply) (settled : string * Settlement) :
  snd (onmessage rt requestId reply) = Some settled ->
  In requestId (pending rt)
  /\ settled = (requestId, settlementOf (Answered reply))
  /\ ~ In requestId (pending (fst (onmessage rt requestId reply))).
Proof.
  unfold onmessage.
  destruct (existsb (String.eqb requestId) (pending rt)) eqn:E;
    [| discriminate].
  intros H. inversion H. subst settled. clear H.
  apply existsb_exists in E. destruct E as (k & Hin & Hk).
  apply String.eqb_eq in Hk. subst k. split; [exact Hin |]. split.
  - destruct reply; reflexivity.
  - simpl. intros Hin'. apply filter_In in Hin'. destruct Hin' as [_ Hne].
    rewrite String.eqb_refl in Hne. discriminate.
Qed.

(** ** Config migration *)

Example migrates_prior_to_current :
  exists migrated,
    migrate priorDocument = Normal migrated
    /\ field migrated "version" = JStr "PlaygroundConfigV2"
    /\ field (field migrated "controls") "steps" = JNum 12%float
    /\ field (field migrated "controls") "episodes" = JNum 3%float
    /\ field (field migrated "controls") "seed" = JNum 7%float
    /\ field migrated "layers" = field priorDocument "layers".
Proof. eexists. repeat split. Qed.

Lemma migrate_current (props : Obj) :
  field (JObj props) "version" = JStr PLAYGROUND_CONFIG_VERSION ->
  migrate (JObj props) = Normal (JObj props).
Proof. intros E. unfold migrate. rewrite E. reflexivity. Qed.

Lemma migrate_prior (props : Obj) :
  field (JObj props) "version" = JStr PRIOR_CONFIG_VERSION ->
  migrate (JObj props) = Normal (upgraded props).
Proof. intros E. unfold migrate. rewrite E. reflexivity. Qed.

(** C9: for every document of a recognized version, migrating the migrated
    document gives the migrated document again; a document of the current
    version is returned unchanged, and the result always carries the
    current version. *)
Theorem migrate_idempotent (rawDocument : JsVal) :
  recognized rawDocument ->
  bind (migrate rawDocument) migrate = migrate rawDocument
  /\ (field rawDocument "version" = JStr PLAYGROUND_CONFIG_VERSION ->
      migrate rawDocument = Normal rawDocument)
  /\ (exists migrated,
        migrate rawDocument = Normal migrated
        /\ field migrated "version" = JStr PLAYGROUND_CONFIG_VERSION).
Proof.
  intros (props & v & -> & Hv & Hknown).
  split; [| split; [apply migrate_current |]].
  - destruct Hknown as [-> | ->].
    + rewrite (migrate_current _ Hv). cbn [bind]. apply migrate_current, Hv.
    + rewrite (migrate_prior _ Hv). cbn [bind]. unfold upgraded.
      apply migrate_current. reflexivity.
  - destruct Hknown as [-> | ->].
    + rewrite (migrate_current _ Hv). eauto.
    + rewrite (migrate_prior _ Hv). eexists. split; reflexivity.
Qed.

Lemma migrate_idempotent_witness :
  recognized priorDocument
  /\ bind (migrate priorDocument) migrate = migrate priorDocument.
Proof.
  assert (H : recognized priorDocument).
  { eexists. eexists. split; [reflexivity |]. split; [reflexivity |].
    right. reflexivity. }
  split; [exact H |]. exact (proj1 (migrate_idempotent H)).
Defined.

(** * Further properties of the code *)

(** ** Trimming *)

Lemma trimEnd_cons (c : ascii) (s : string) :
  trimEnd (String c s)
  = match trimEnd s with
    | EmptyString => if isWhite c then EmptyString else String c EmptyString
    | rest' => String c rest'
    end.
Proof. reflexivity. Qed.

Lemma trimEnd_fix (s : string) : trimEnd (trimEnd s) = trimEnd s.
Proof.
  induction s as [|c s IH]; auto.
  rewrite trimEnd_cons.
  destruct (trimEnd s) as [|c' s'] eqn:E.
  - destruct (isWhite c) eqn:W; auto. rewrite trimEnd_cons. simpl. now rewrite W.
  - rewrite trimEnd_cons, IH. reflexivity.
Qed.

Lemma trimStart_startsBlack (s : string) : startsBlack (trimStart s) = true.
Proof.
  induction s as [|c s IH]; simpl; auto.
  destruct (isWhite c) eqn:E; auto. simpl. now rewrite E.
Qed.

Lemma trimStart_black (s : string) : startsBlack s = true -> trimStart s = s.
Proof.
  destruct s as [|c s]; simpl; auto. now destruct (isWhite c).
Qed.

Lemma trimEnd_startsBlack (s : string) :
  startsBlack s = true -> startsBlack (trimEnd s) = true.
Proof.
  destruct s as [|c s]; auto. rewrite trimEnd_cons. simpl.
  intros H. apply negb_true_iff in H.
  destruct (trimEnd s); rewrite ?H; simpl; now rewrite H.
Qed.

(** Trimming a trimmed string changes nothing. *)
Lemma trim_fix (s : string) : trim (trim s) = trim s.
Proof.
  unfold trim.
  rewrite (trimStart_black (trimEnd (trimStart s))).
  - apply trimEnd_fix.
  - apply trimEnd_startsBlack, trimStart_startsBlack.
Qed.

(** ** Normal forms of categorical metadata *)

Lemma In_last_split (k : string) (l : list string) :
  In k l -> exists l1 l2, l = (l1 ++ k :: l2)%list /\ ~ In k l2.
Proof.
  induction l as [|x l IH]; intros Hin; [destruct Hin |].
  destruct (in_dec string_dec k l) as [Hl | Hl].
  - destruct (IH Hl) as (l1 & l2 & -> & Hn). exists (x :: l1), l2. auto.
  - destruct Hin as [-> | Hin]; [| contradiction].
    exists [], l. auto.
Qed.

Lemma ownGet_objSet_proto (o : Obj) (k : string) (v : JsVal) :
  ownGet (objSet o k v) "__proto__" = ownGet o "__proto__".
Proof.
  unfold objSet. destruct (String.eqb k "__proto__") eqn:E; auto.
  apply ownGet_ownSet_other. now apply String.eqb_neq.
Qed.

Section NormalForm.
Context {B : Builtins}.

Lemma fold_mapStep_proto (sourceMap : Obj) (entries : list (nat * string)) :
  forall map,
    ownGet (fold_left (mapStep sourceMap) entries map) "__proto__"
    = ownGet map "__proto__".
Proof.
  induction entries as [|[idx opt] entries IH]; intros map; auto.
  cbn [fold_left]. rewrite IH, mapStep_objSet. apply ownGet_objSet_proto.
Qed.

(** A value of the normalized map is read back as itself. *)
Lemma mapValue_normal (sourceMap : Obj) (idx : nat) (opt : string) :
  match parseNumberish (mapValue sourceMap idx opt) with
  | Some mapped => JNum mapped
  | None => mapValue sourceMap idx opt
  end = mapValue sourceMap idx opt.
Proof.
  unfold mapValue. destruct (ownGet sourceMap opt) as [raw|].
  - destruct (parseNumberish raw) as [mapped|] eqn:E.
    + simpl. now destruct (PrimFloat.is_finite mapped).
    + now rewrite E.
  - simpl. now destruct (PrimFloat.is_finite (natToNumber idx)).
Qed.

(** The map of a second normalization, over the same options, has the
    lookups of the first. *)
Lemma fold_mapStep_again (sourceMap : Obj) (opts : list string) (k : string) :
  let map1 := fold_left (mapStep sourceMap) (withIndex opts) [] in
  ownGet (fold_left (mapStep map1) (withIndex opts) []) k = ownGet map1 k.
Proof.
  intros map1.
  destruct (String.eqb k "__proto__") eqn:Ep.
  { apply String.eqb_eq in Ep. subst k. unfold map1.
    now rewrite !fold_mapStep_proto. }
  apply String.eqb_neq in Ep.
  destruct (in_dec string_dec k opts) as [Hin | Hout].
  - destruct (In_last_split _ _ Hin) as (l1 & l2 & E & Hl2).
    assert (H1 : ownGet map1 k
                 = Some (mapValue sourceMap (0 + List.length l1) k)).
    { unfold map1, withIndex. rewrite E, withIndex_from_split.
      apply fold_mapStep_last; auto. now rewrite snd_combine_seq. }
    unfold withIndex at 1. rewrite E, withIndex_from_split.
    rewrite fold_mapStep_last by (auto; now rewrite snd_combine_seq).
    rewrite H1. f_equal. unfold mapValue at 1. rewrite H1.
    apply mapValue_normal.
  - unfold map1. rewrite !fold_mapStep_other; auto;
      unfold withIndex; now rewrite snd_combine_seq.
Qed.

Lemma filter_nonempty_all (l : list string) :
  Forall (fun s => nonempty s = true) l -> filter nonempty l = l.
Proof.
  induction 1 as [|s l Hs _ IH]; simpl; auto. now rewrite Hs, IH.
Qed.

(** Every normalized option is trimmed. *)
Lemma cm_options_trimmed (info : Obj) (fallbackArg : JsVal) :
  Forall (fun opt => trim opt = opt)
         (cm_options (normalizeCategoryMeta info fallbackArg)).
Proof.
  unfold normalizeCategoryMeta. cbn [cm_options].
  match goal with
  | |- context [filter nonempty ?l] =>
      assert (Hl : Forall (fun opt => trim opt = opt) (filter nonempty l))
  end.
  { apply Forall_forall. intros x Hx. apply filter_In in Hx.
    destruct Hx as [Hx _]. apply in_map_iff in Hx.
    destruct Hx as (raw & <- & _). apply trim_fix. }
  match goal with
  | |- context [filter nonempty ?l] => destruct (filter nonempty l)
  end; auto.
  match goal with |- context [nonempty ?s] => destruct (nonempty s) end;
    repeat constructor. apply trim_fix.
Qed.

Lemma cm_options_unfold (info : Obj) (fallbackArg : JsVal) :
  cm_options (normalizeCategoryMeta info fallbackArg)
  = match declaredOptions info with
    | [] => if nonempty (fallbackLabelOf info fallbackArg)
            then [fallbackLabelOf info fallbackArg] else []
    | declared => declared
    end.
Proof.
  unfold normalizeCategoryMeta, declaredOptions, fallbackLabelOf.
  cbn [cm_options]. now destruct (filter _ _).
Qed.

Lemma cm_value_unfold (info : Obj) (fallbackArg : JsVal) :
  cm_value (normalizeCategoryMeta info fallbackArg)
  = if existsb (String.eqb (ToString (objGet info "value")))
               (cm_options (normalizeCategoryMeta info fallbackArg))
    then ToString (objGet info "value")
    else match cm_options (normalizeCategoryMeta info fallbackArg) with
         | first :: _ =>
             if nonempty first then first else fallbackLabelOf info fallbackArg
         | [] => fallbackLabelOf info fallbackArg
         end.
Proof. reflexivity. Qed.

Lemma nonempty_false (s : string) : nonempty s = false -> s = "".
Proof. destruct s; [reflexivity | discriminate]. Qed.

(** With no option, the value is the empty fallback label. *)
Lemma cm_options_none (info : Obj) (fallbackArg : JsVal) :
  cm_options (normalizeCategoryMeta info fallbackArg) = [] ->
  declaredOptions info = []
  /\ fallbackLabelOf info fallbackArg = ""
  /\ cm_value (normalizeCategoryMeta info fallbackArg) = "".
Proof.
  intros Eo. rewrite cm_value_unfold, Eo. cbn [existsb].
  rewrite cm_options_unfold in Eo.
  destruct (declaredOptions info); [| discriminate].
  destruct (nonempty (fallbackLabelOf info fallbackArg)) eqn:En;
    [discriminate |].
  apply nonempty_false in En. auto.
Qed.

Lemma declaredOptions_again (m : CategoryMeta) :
  Forall (fun opt => nonempty opt = true) (cm_options m) ->
  Forall (fun opt => trim opt = opt) (cm_options m) ->
  declaredOptions (categoryObject m) = cm_options m.
Proof.
  intros Hne Htr. unfold declaredOptions.
  change (objGet (categoryObject m) "options")
    with (JArr (map JStr (cm_options m))).
  cbv beta iota. rewrite map_map. cbn [ToString].
  rewrite <- (filter_nonempty_all Hne) at 2. f_equal.
  clear Hne. induction Htr as [|x l Hx _ IH]; simpl; auto.
  now rewrite Hx, IH.
Qed.

(** The fallback label of the second normalization, when the first found
    no option. *)
Lemma fallbackLabelOf_again (info : Obj) (fallbackArg : JsVal) :
  cm_options (normalizeCategoryMeta info fallbackArg) = [] ->
  fallbackLabelOf (categoryObject (normalizeCategoryMeta info fallbackArg))
                  fallbackArg = "".
Proof.
  intros Eo. destruct (cm_options_none _ _ Eo) as (_ & El & Ev).
  unfold fallbackLabelOf in *.
  change (objGet (categoryObject (normalizeCategoryMeta info fallbackArg))
                 "value")
    with (JStr (cm_value (normalizeCategoryMeta info fallbackArg))).
  rewrite Ev.
  destruct fallbackArg; cbn [coalesce nullish] in *; auto.
Qed.

(** The options of a normalized entry, normalized again. *)
Lemma cm_options_again (info : Obj) (fallbackArg : JsVal) :
  cm_options
    (normalizeCategoryMeta
       (categoryObject (normalizeCategoryMeta info fallbackArg)) fallbackArg)
  = cm_options (normalizeCategoryMeta info fallbackArg).
Proof.
  rewrite cm_options_unfold at 1.
  rewrite declaredOptions_again
    by (apply cm_options_nonempty || apply cm_options_trimmed).
  destruct (cm_options (normalizeCategoryMeta info fallbackArg)) eqn:Eo; auto.
  now rewrite fallbackLabelOf_again.
Qed.

Lemma cm_value_again (info : Obj) (fallbackArg : JsVal) :
  cm_value
    (normalizeCategoryMeta
       (categoryObject (normalizeCategoryMeta info fallbackArg)) fallbackArg)
  = cm_value (normalizeCategoryMeta info fallbackArg).
Proof.
  rewrite cm_value_unfold at 1. rewrite cm_options_again.
  change (objGet (categoryObject (normalizeCategoryMeta info fallbackArg))
                 "value")
    with (JStr (cm_value (normalizeCategoryMeta info fallbackArg))).
  cbn [ToString].
  destruct (cm_options (normalizeCategoryMeta info fallbackArg))
    as [|first others] eqn:Eo.
  - cbn [existsb]. rewrite fallbackLabelOf_again by exact Eo.
    symmetry. now apply cm_options_none.
  - assert (Hin : In (cm_value (normalizeCategoryMeta info fallbackArg))
                     (first :: others)).
    { rewrite <- Eo. apply cm_value_in_options. rewrite Eo. discriminate. }
    assert (E : existsb
                  (String.eqb (cm_value (normalizeCategoryMeta info fallbackArg)))
                  (first :: others) = true).
    { apply existsb_exists. eexists. split; [exact Hin |].
      apply String.eqb_refl. }
    now rewrite E.
Qed.

Lemma cm_map_again (info : Obj) (fallbackArg : JsVal) (k : string) :
  ownGet
    (cm_map
       (normalizeCategoryMeta
          (categoryObject (normalizeCategoryMeta info fallbackArg))
          fallbackArg)) k
  = ownGet (cm_map (normalizeCategoryMeta info fallbackArg)) k.
Proof.
  rewrite cm_map_normalize at 1. rewrite cm_options_again.
  change (sourceMapOf (categoryObject (normalizeCategoryMeta info fallbackArg)))
    with (cm_map (normalizeCategoryMeta info fallbackArg)).
  rewrite (cm_map_normalize info fallbackArg).
  apply fold_mapStep_again.
Qed.

Lemma cm_kind_again (info : Obj) (fallbackArg : JsVal) :
  cm_kind
    (normalizeCategoryMeta
       (categoryObject (normalizeCategoryMeta info fallbackArg)) fallbackArg)
  = cm_kind (normalizeCategoryMeta info fallbackArg).
Proof.
  rewrite cm_kind_normalize.
  change (objGet (categoryObject (normalizeCategoryMeta info fallbackArg))
                 "kind")
    with (cm_kind (normalizeCategoryMeta info fallbackArg)).
  rewrite cm_kind_normalize. now apply or_else_idem.
Qed.

End NormalForm.

(** ** Metadata tables *)

Lemma digits_string_of_uint (d : Decimal.uint) :
  filterString isDigit (NilEmpty.string_of_uint d)
  = NilEmpty.string_of_uint d.
Proof. induction d; simpl; now rewrite ?IHd. Qed.

(** The numeral of an index consists of digits. *)
Lemma digits_natToString (n : nat) :
  filterString isDigit (natToString n) = natToString n.
Proof.
  unfold natToString, NilZero.string_of_uint.
  destruct (Nat.to_uint n); [reflexivity | apply digits_string_of_uint ..].
Qed.

Lemma ownGet_indexed_name (l : list JsVal) (k : string) :
  filterString isDigit k <> k -> ownGet (indexed l) k = None.
Proof.
  intros Hk. unfold indexed. generalize 0.
  induction l as [|x l IH]; intros start; simpl; auto.
  destruct (String.eqb (natToString start) k) eqn:E; auto.
  apply String.eqb_eq in E. subst k. destruct Hk. apply digits_natToString.
Qed.

(** Writing a name the object does not have adds it last. *)
Lemma ownSet_fresh (o : Obj) (k : string) (v : JsVal) :
  ~ In k (map fst o) -> ownSet o k v = (o ++ [(k, v)])%list.
Proof.
  induction o as [|[k' v'] o IH]; simpl; intros Hk; auto.
  destruct (String.eqb k' k) eqn:E.
  - apply String.eqb_eq in E. destruct Hk. auto.
  - rewrite IH; auto.
Qed.

Section TableFacts.
Context {B : Builtins}.

Lemma normalizedEntry_keys (params : Obj) (entry : string * JsVal) :
  fst entry <> "__proto__" ->
  forall kv, In kv (normalizedEntry params entry) -> fst kv = fst entry.
Proof.
  destruct entry as [k info]. simpl. intros Hk kv.
  unfold normalizedEntry, paramMetaStep.
  destruct (negb (isObjectLike info)); [intros [] |].
  rewrite !objSet_plain by assumption. simpl.
  destruct (strictEqStr (field info "type") "category").
  - destruct info as [| | | | | |o|]; simpl; try contradiction.
    rewrite objSet_plain by assumption.
    intros [<- | []]. reflexivity.
  - intros [<- | []]. reflexivity.
Qed.

Lemma paramMetaStep_append (params normalized : Obj) (entry : string * JsVal) :
  fst entry <> "__proto__" ->
  ~ In (fst entry) (map fst normalized) ->
  paramMetaStep params normalized entry
  = (normalized ++ normalizedEntry params entry)%list.
Proof.
  destruct entry as [k info]. simpl. intros Hk Hfresh.
  unfold normalizedEntry, paramMetaStep.
  destruct (negb (isObjectLike info)); [now rewrite app_nil_r |].
  rewrite !objSet_plain by assumption.
  destruct (strictEqStr (field info "type") "category").
  - destruct info; rewrite ?app_nil_r; auto.
    rewrite !objSet_plain by assumption. now apply ownSet_fresh.
  - now apply ownSet_fresh.
Qed.

(** With pairwise distinct names, none of them [__proto__],
    [normalizeParamMeta] maps the entries one by one, in order. *)
Lemma normalizeParamMeta_flat_map (params : Obj) (meta : Obj) :
  properKeys meta ->
  normalizeParamMeta meta params = flat_map (normalizedEntry params) meta.
Proof.
  unfold normalizeParamMeta, properKeys. intros [Hnd Hproto].
  change (flat_map (normalizedEntry params) meta)
    with ([] ++ flat_map (normalizedEntry params) meta)%list.
  assert (Hacc : forall kv, In kv (@nil (string * JsVal)) ->
                            ~ In (fst kv) (map fst meta)) by (intros ? []).
  revert Hacc. generalize (@nil (string * JsVal)) as acc.
  induction meta as [|entry meta IH]; intros acc Hacc; simpl.
  - now rewrite app_nil_r.
  - inversion Hnd as [|? ? Hentry Hrest]; subst.
    assert (Hk : fst entry <> "__proto__") by (intros E; apply Hproto; simpl; auto).
    rewrite paramMetaStep_append; auto.
    + rewrite IH, app_assoc; auto.
      * intros E. apply Hproto. simpl. auto.
      * intros kv Hin. apply in_app_or in Hin. destruct Hin as [Hin | Hin].
        -- intros H. apply (Hacc kv Hin). simpl. auto.
        -- rewrite (normalizedEntry_keys _ _ Hk _ Hin). exact Hentry.
    + intros Hin. apply in_map_iff in Hin. destruct Hin as (kv & E & Hin).
      apply (Hacc kv Hin). simpl. auto.
Qed.

Lemma categoryOf_same (c c' : Component) (entry : string * JsVal) :
  id c' = id c -> params c' = params c ->
  categoryOf c' entry = categoryOf c entry.
Proof.
  intros Hi Hp. unfold categoryOf. destruct entry as [k info].
  now rewrite Hi, Hp.
Qed.

Lemma categoryOf_category (c : Component) (k : string) (o : Obj) :
  strictEqStr (objGet o "type") "category" = true ->
  categoryOf c (k, JObj o)
  = if negb (strictEqStr
               (or_else (cm_kind (normalizeCategoryMeta o (objGet (params c) k)))
                        (JStr "condition"))
               "condition")
    then []
    else match cm_options (normalizeCategoryMeta o (objGet (params c) k)) with
         | [] => []
         | _ :: _ =>
             [ {| componentId := id c;
                  key := k;
                  options :=
                    cm_options
                      (normalizeCategoryMeta o (objGet (params c) k)) |} ]
         end.
Proof.
  intros Et. unfold categoryOf. cbn [field]. now rewrite Et.
Qed.

(** The axis of an entry is the axis of what [normalizeParamMeta] keeps of
    it. *)
Lemma categoryOf_normalizedEntry (c : Component) (entry : string * JsVal) :
  fst entry <> "__proto__" ->
  flat_map (categoryOf c) (normalizedEntry (params c) entry)
  = categoryOf c entry.
Proof.
  destruct entry as [k info]. simpl. intros Hk.
  unfold normalizedEntry, paramMetaStep.
  rewrite !objSet_plain by assumption.
  destruct (isObjectLike info) eqn:Eobj; cbn [negb].
  - destruct (strictEqStr (field info "type") "category") eqn:Et.
    + destruct info as [| | | | | |o|]; try discriminate Et.
      rewrite objSet_plain by assumption.
      cbn [ownSet flat_map]. rewrite app_nil_r.
      rewrite !categoryOf_category by (exact Et || reflexivity).
      now rewrite cm_kind_again, cm_options_again.
    + cbn [ownSet flat_map]. rewrite app_nil_r.
      destruct info as [| | | | |l|o|];
        try (unfold isObjectLike in Eobj; simpl in Eobj;
             rewrite ?andb_false_r in Eobj; discriminate Eobj).
      * unfold categoryOf. cbn [field]. unfold objGet.
        rewrite ownGet_indexed_name by discriminate. reflexivity.
      * unfold categoryOf. now rewrite Et.
  - destruct info as [| | | | |l|o|]; try (cbv in Eobj; discriminate Eobj);
      reflexivity.
Qed.

Lemma collect_normalized (c : Component) :
  properKeys (paramMeta c) ->
  flat_map (categoryOf (normalizedComponent c))
           (paramMeta (normalizedComponent c))
  = flat_map (categoryOf c) (paramMeta c).
Proof.
  intros Hkeys. cbn [normalizedComponent paramMeta].
  rewrite normalizeParamMeta_flat_map by assumption.
  destruct Hkeys as [_ Hproto].
  induction (paramMeta c) as [|entry meta IH]; auto.
  cbn [flat_map]. rewrite flat_map_app, IH.
  - f_equal.
    rewrite (flat_map_ext _ (categoryOf c))
      by (intros e; now apply categoryOf_same).
    apply categoryOf_normalizedEntry. intros E. apply Hproto. simpl. auto.
  - intros Hin. apply Hproto. simpl. auto.
Qed.

End TableFacts.

(** ** Parameter encoding *)

Lemma ownGet_assign_other (o : Obj) (k k' : string) (v : JsVal) :
  k <> k' -> ownGet (assign o k v) k' = ownGet o k'.
Proof.
  intros Hne. unfold assign.
  destruct (String.eqb k "__proto__" && negb (hasOwn o k)); auto.
  now apply ownGet_ownSet_other.
Qed.

Lemma ownGet_assign_same (o : Obj) (k : string) (v : JsVal) :
  k <> "__proto__" -> ownGet (assign o k v) k = Some v.
Proof.
  intros Hk. unfold assign. apply String.eqb_neq in Hk. rewrite Hk.
  apply ownGet_ownSet_same.
Qed.

Lemma hasOwn_ownSet_keep (o : Obj) (k k' : string) (v : JsVal) :
  hasOwn o k' = true -> hasOwn (ownSet o k v) k' = true.
Proof.
  intros H. unfold hasOwn. destruct (string_dec k k') as [-> | Hne].
  - now rewrite ownGet_ownSet_same.
  - now rewrite ownGet_ownSet_other.
Qed.

Lemma hasOwn_assign_keep (o : Obj) (k k' : string) (v : JsVal) :
  hasOwn o k' = true -> hasOwn (assign o k v) k' = true.
Proof.
  intros H. unfold assign.
  destruct (String.eqb k "__proto__" && negb (hasOwn o k)); auto.
  now apply hasOwn_ownSet_keep.
Qed.

(** In a spread, a name of the second object with a single entry there has
    the value the second object gives it. *)
Lemma ownGet_fold_ownSet (l : list (string * JsVal)) (k : string) (v : JsVal) :
  forall acc,
    NoDup (map fst l) -> In (k, v) l ->
    ownGet (fold_left (fun o kv => ownSet o (fst kv) (snd kv)) l acc) k
    = Some v.
Proof.
  induction l as [|[k' v'] l IH]; intros acc Hnd Hin; [destruct Hin |].
  inversion Hnd as [|? ? Hk' Hl]; subst. cbn [fold_left fst snd].
  destruct Hin as [E | Hin].
  - inversion E; subst. clear E IH.
    assert (Hkeep : forall l acc,
               ~ In k (map fst l) ->
               ownGet (fold_left (fun o kv => ownSet o (fst kv) (snd kv)) l acc) k
               = ownGet acc k).
    { clear. induction l as [|[k1 v1] l IH]; intros acc Hk; auto.
      cbn [fold_left fst snd]. rewrite IH by (intros H; apply Hk; simpl; auto).
      apply ownGet_ownSet_other. intros E. apply Hk. simpl. auto. }
    rewrite Hkeep by assumption. apply ownGet_ownSet_same.
  - apply IH; auto.
Qed.

Lemma ownGet_In (o : Obj) (k : string) (v : JsVal) :
  ownGet o k = Some v -> In (k, v) o.
Proof.
  induction o as [|[k' v'] o IH]; simpl; [discriminate |].
  destruct (String.eqb k' k) eqn:E.
  - apply String.eqb_eq in E. intros H. inversion H. subst. auto.
  - auto.
Qed.

Lemma ownGet_spread_second (a b : Obj) (k : string) (v : JsVal) :
  NoDup (map fst b) -> ownGet b k = Some v -> ownGet (spread a b) k = Some v.
Proof.
  intros Hnd Hb. unfold spread. rewrite fold_left_app.
  apply ownGet_fold_ownSet; auto. now apply ownGet_In.
Qed.

Section EncodingFacts.
Context {B : Builtins}.

(** A step of the encoding writes the parameter of its entry only, and
    removes none. *)
Lemma encodeStep_other (override params : Obj) (entry : string * JsVal)
  (k : string) :
  fst entry <> k ->
  ownGet (encodeStep override params entry) k = ownGet params k.
Proof.
  destruct entry as [key info]. simpl. intros Hne. unfold encodeStep.
  destruct (strictEqStr (field info "type") "category"); auto.
  destruct info; auto. cbv zeta.
  repeat match goal with
         | |- context [match ?x with _ => _ end] => destruct x
         end; now apply ownGet_assign_other.
Qed.

Lemma encodeStep_keeps (override params : Obj) (entry : string * JsVal)
  (k : string) :
  hasOwn params k = true ->
  hasOwn (encodeStep override params entry) k = true.
Proof.
  destruct entry as [key info]. intros H. unfold encodeStep.
  destruct (strictEqStr (field info "type") "category"); auto.
  destruct info; auto. cbv zeta.
  repeat match goal with
         | |- context [match ?x with _ => _ end] => destruct x
         end; now apply hasOwn_assign_keep.
Qed.

Lemma encodeStep_plain (override params : Obj) (key : string) (info : JsVal) :
  strictEqStr (field info "type") "category" = false ->
  encodeStep override params (key, info) = params.
Proof. intros E. unfold encodeStep. now rewrite E. Qed.

Lemma encode_fold_other (override : Obj) (meta : Obj) (k : string) :
  forall params,
    ~ In k (map fst meta) ->
    ownGet (fold_left (encodeStep override) meta params) k = ownGet params k.
Proof.
  induction meta as [|entry meta IH]; intros params Hk; auto.
  cbn [fold_left]. rewrite IH by (intros H; apply Hk; simpl; auto).
  apply encodeStep_other. intros E. apply Hk. simpl. auto.
Qed.

Lemma encode_fold_keeps (override : Obj) (meta : Obj) (k : string) :
  forall params,
    hasOwn params k = true ->
    hasOwn (fold_left (encodeStep override) meta params) k = true.
Proof.
  induction meta as [|entry meta IH]; intros params Hk; auto.
  cbn [fold_left]. apply IH. now apply encodeStep_keeps.
Qed.

(** With pairwise distinct names, the encoded value of a parameter is the
    one the step of its own entry writes, started from the spread. *)
Lemma encode_fold_entry (override : Obj) (meta : Obj) (key : string)
  (info : JsVal) (params : Obj) :
  NoDup (map fst meta) -> In (key, info) meta ->
  exists before,
    ownGet before key = ownGet params key
    /\ ownGet (fold_left (encodeStep override) meta params) key
       = ownGet (encodeStep override before (key, info)) key.
Proof.
  revert params. induction meta as [|entry meta IH]; intros params Hnd Hin;
    [destruct Hin |].
  inversion Hnd as [|? ? Hentry Hrest]; subst. cbn [fold_left].
  destruct Hin as [-> | Hin].
  - exists params. split; auto. now apply encode_fold_other.
  - destruct (IH (encodeStep override params entry) Hrest Hin)
      as (before & Hb & E).
    exists before. split; auto. rewrite Hb. apply encodeStep_other.
    intros Ek. apply Hentry. apply in_map_iff. exists (key, info). auto.
Qed.

(** The options do not depend on the fallback once one of them is the
    fallback. *)
Lemma cm_options_refallback (info : Obj) (fallbackArg : JsVal) (opt : string) :
  In opt (cm_options (normalizeCategoryMeta info fallbackArg)) ->
  cm_options (normalizeCategoryMeta info (JStr opt))
  = cm_options (normalizeCategoryMeta info fallbackArg).
Proof.
  intros Hin.
  pose proof (cm_options_nonempty info fallbackArg) as Hne.
  pose proof (cm_options_trimmed info fallbackArg) as Htr.
  rewrite Forall_forall in Hne, Htr.
  specialize (Hne _ Hin). specialize (Htr _ Hin). cbv beta in Hne, Htr.
  rewrite !cm_options_unfold in *.
  destruct (declaredOptions info); auto.
  destruct (nonempty (fallbackLabelOf info fallbackArg)); [| destruct Hin].
  destruct Hin as [<- | []].
  assert (E : fallbackLabelOf info (JStr (fallbackLabelOf info fallbackArg))
              = fallbackLabelOf info fallbackArg).
  { unfold fallbackLabelOf at 1. cbn [coalesce nullish ToString]. exact Htr. }
  now rewrite E, Hne.
Qed.

Lemma cm_map_same_options (info : Obj) (fb1 fb2 : JsVal) :
  cm_options (normalizeCategoryMeta info fb1)
  = cm_options (normalizeCategoryMeta info fb2) ->
  cm_map (normalizeCategoryMeta info fb1)
  = cm_map (normalizeCategoryMeta info fb2).
Proof. intros E. rewrite !cm_map_normalize. now rewrite E. Qed.

(** Every value of the normalized map is what [mapValue] gives some
    index. *)
Lemma fold_mapStep_values (sourceMap : Obj) (entries : list (nat * string))
  (k : string) (v : JsVal) :
  forall map,
    ownGet (fold_left (mapStep sourceMap) entries map) k = Some v ->
    (exists idx, v = mapValue sourceMap idx k) \/ ownGet map k = Some v.
Proof.
  induction entries as [|[idx opt] entries IH]; intros map H; auto.
  cbn [fold_left] in H. apply IH in H. destruct H as [H | H]; auto.
  rewrite mapStep_objSet in H. unfold objSet in H.
  destruct (String.eqb opt "__proto__"); auto.
  destruct (string_dec opt k) as [-> | Hne].
  - rewrite ownGet_ownSet_same in H. inversion H. eauto.
  - rewrite ownGet_ownSet_other in H; auto.
Qed.

Lemma mapValue_number (sourceMap : Obj) (idx : nat) (k : string) :
  (forall raw, ownGet sourceMap k = Some raw -> parseNumberish raw <> None) ->
  exists x, mapValue sourceMap idx k = JNum x.
Proof.
  intros Hsrc. unfold mapValue. destruct (ownGet sourceMap k) as [raw|]; eauto.
  specialize (Hsrc raw eq_refl). destruct (parseNumberish raw); eauto.
  congruence.
Qed.

End EncodingFacts.

(** ** Regrouping the overrides *)

Lemma splitColons_cons (c c' : ascii) (rest : string) :
  splitColons (String c (String c' rest))
  = if Ascii.eqb c ":" && Ascii.eqb c' ":"
    then EmptyString :: splitColons rest
    else match splitColons (String c' rest) with
         | part :: parts => String c part :: parts
         | [] => [String c EmptyString]
         end.
Proof. reflexivity. Qed.

Lemma containsSep_cons (c c' : ascii) (rest : string) :
  containsSep (String c (String c' rest))
  = (Ascii.eqb c ":" && Ascii.eqb c' ":") || containsSep (String c' rest).
Proof. reflexivity. Qed.

Lemma splitColons_plain (s : string) :
  containsSep s = false -> splitColons s = [s].
Proof.
  induction s as [|c rest IH]; auto.
  destruct rest as [|c' rest']; auto.
  rewrite containsSep_cons, splitColons_cons. intros H.
  apply orb_false_iff in H. destruct H as [Hcc Hrest].
  rewrite Hcc, (IH Hrest). reflexivity.
Qed.

(** A component identifier and a parameter name joined by ["::"] are
    split into the two again. *)
Lemma splitColons_join (cid key : string) :
  containsSep cid = false -> endsWithColon cid = false ->
  containsSep key = false ->
  splitColons (cid ++ "::" ++ key) = [cid; key].
Proof.
  intros Hc He Hk. induction cid as [|c rest IH].
  - cbn. now rewrite (splitColons_plain _ Hk).
  - destruct rest as [|c' rest'].
    + cbn [endsWithColon] in He. cbn. rewrite He. cbn.
      now rewrite (splitColons_plain _ Hk).
    + rewrite containsSep_cons in Hc. apply orb_false_iff in Hc.
      destruct Hc as [Hcc Hrest].
      change (String c (String c' rest') ++ "::" ++ key)
        with (String c (String c' (rest' ++ "::" ++ key))).
      rewrite splitColons_cons, Hcc.
      change (String c' (rest' ++ "::" ++ key))
        with (String c' rest' ++ "::" ++ key).
      rewrite IH; auto.
Qed.

Lemma groupGet_groupSet_same (m : OverrideMap) (cid : string) (g : Obj) :
  groupGet (groupSet m cid g) cid = Some g.
Proof.
  induction m as [|[cid' g'] m IH]; simpl.
  - now rewrite String.eqb_refl.
  - destruct (String.eqb cid' cid) eqn:E; simpl; rewrite E; auto.
Qed.

Lemma groupGet_groupSet_other (m : OverrideMap) (cid cid' : string) (g : Obj) :
  cid <> cid' -> groupGet (groupSet m cid g) cid' = groupGet m cid'.
Proof.
  intros Hne. induction m as [|[c0 g0] m IH]; simpl.
  - apply String.eqb_neq in Hne. now rewrite Hne.
  - destruct (String.eqb c0 cid) eqn:E; simpl.
    + apply String.eqb_eq in E. subst c0. apply String.eqb_neq in Hne.
      now rewrite Hne.
    + now rewrite IH.
Qed.

Lemma keys_ownSet (o : Obj) (k k' : string) (v : JsVal) :
  In k' (map fst (ownSet o k v)) -> k' = k \/ In k' (map fst o).
Proof.
  induction o as [|[k0 v0] o IH]; simpl.
  - intros [<- | []]. auto.
  - destruct (String.eqb k0 k) eqn:E; simpl; [tauto |].
    intros [<- | H]; auto. destruct (IH H); auto.
Qed.

Lemma NoDup_keys_ownSet (o : Obj) (k : string) (v : JsVal) :
  NoDup (map fst o) -> NoDup (map fst (ownSet o k v)).
Proof.
  induction o as [|[k' v'] o IH]; simpl; intros Hnd.
  - constructor; [intros [] | constructor].
  - inversion Hnd as [|? ? Hk' Ho]; subst.
    destruct (String.eqb k' k) eqn:E; simpl; [exact Hnd |].
    constructor; auto. intros Hin. apply keys_ownSet in Hin.
    destruct Hin as [-> | Hin]; [| contradiction].
    now rewrite String.eqb_refl in E.
Qed.

Lemma NoDup_keys_objSet (o : Obj) (k : string) (v : JsVal) :
  NoDup (map fst o) -> NoDup (map fst (objSet o k v)).
Proof.
  intros H. unfold objSet. destruct (String.eqb k "__proto__"); auto.
  now apply NoDup_keys_ownSet.
Qed.

Lemma lookup2_groupSet_same (m : OverrideMap) (cid key : string) (g : Obj) :
  lookup2 (groupSet m cid g) cid key = ownGet g key.
Proof. unfold lookup2. now rewrite groupGet_groupSet_same. Qed.

Lemma lookup2_groupSet_other (m : OverrideMap) (cid cid' key : string)
  (g : Obj) :
  cid <> cid' -> lookup2 (groupSet m cid g) cid' key = lookup2 m cid' key.
Proof. intros H. unfold lookup2. now rewrite groupGet_groupSet_other. Qed.

Lemma Forall_groupSet (P : Obj -> Prop) (m : OverrideMap) (cid : string)
  (g : Obj) :
  Forall (fun e => P (snd e)) m -> P g ->
  Forall (fun e => P (snd e)) (groupSet m cid g).
Proof.
  intros Hm Hg. induction Hm as [|[c0 g0] m H0 Hm IH]; simpl.
  - constructor; auto.
  - destruct (String.eqb c0 cid); constructor; auto.
Qed.

Lemma groupGet_Forall (P : Obj -> Prop) (m : OverrideMap) (cid : string)
  (g : Obj) :
  Forall (fun e => P (snd e)) m -> groupGet m cid = Some g -> P g.
Proof.
  induction 1 as [|[c0 g0] m H0 _ IH]; simpl; [discriminate |].
  destruct (String.eqb c0 cid); auto. intros E. inversion E. now subst.
Qed.

(** One step of the regrouping, for a plain identifier and a plain name:
    it writes [overrideMap[cid][key]] and nothing else. *)
Lemma regroupStep_plain (m : OverrideMap) (cid key : string) (opt : string) :
  plainId cid = true -> plainKey key = true ->
  Forall (fun e => NoDup (map fst (snd e))) m ->
  exists m',
    regroupStep m (cid ++ "::" ++ key, JStr opt) = Grouped m'
    /\ lookup2 m' cid key = Some (JStr opt)
    /\ (forall cid' key',
          (cid', key') <> (cid, key) ->
          lookup2 m' cid' key' = lookup2 m cid' key')
    /\ Forall (fun e => NoDup (map fst (snd e))) m'.
Proof.
  unfold plainId, plainKey. intros Hid Hkey Hm.
  apply andb_true_iff in Hid. destruct Hid as [Hid Hproto].
  apply andb_true_iff in Hid. destruct Hid as [Hsep Hend].
  apply andb_true_iff in Hkey. destruct Hkey as [Hksep Hkproto].
  apply negb_true_iff in Hproto, Hsep, Hend, Hksep, Hkproto.
  unfold regroupStep. rewrite splitColons_join by assumption.
  cbn [hd]. rewrite Hkproto. cbn [andb].
  assert (Hk : key <> "__proto__") by now apply String.eqb_neq.
  assert (Hset : forall g,
             NoDup (map fst g) ->
             let m' := groupSet m cid (objSet g key (JStr opt)) in
             (groupGet m cid = Some g \/ (groupGet m cid = None /\ g = [])) ->
             lookup2 m' cid key = Some (JStr opt)
             /\ (forall cid' key',
                   (cid', key') <> (cid, key) ->
                   lookup2 m' cid' key' = lookup2 m cid' key')
             /\ Forall (fun e => NoDup (map fst (snd e))) m').
  { intros g Hg m' Hwas. unfold m'. split; [| split].
    - rewrite lookup2_groupSet_same, objSet_plain by assumption.
      apply ownGet_ownSet_same.
    - intros cid' key' Hne. destruct (string_dec cid cid') as [<- | Hc].
      + rewrite lookup2_groupSet_same, ownGet_objSet_other
          by (intros E; apply Hne; now rewrite E).
        unfold lookup2. destruct Hwas as [-> | [-> ->]]; reflexivity.
      + now apply lookup2_groupSet_other.
    - apply (Forall_groupSet (fun g => NoDup (map fst g))); auto.
      now apply NoDup_keys_objSet. }
  destruct (groupGet m cid) as [g|] eqn:Eg.
  - eexists. split; [reflexivity |]. apply Hset; auto.
    apply (@groupGet_Forall (fun g => NoDup (map fst g)) m cid g); auto.
  - rewrite Hproto. eexists. split; [reflexivity |]. apply Hset; auto.
    constructor.
Qed.

Section RegroupFacts.
Context {B : Builtins}.

(** The override map of a choice over axes with pairwise distinct
    compound keys lists the axes in order. *)
Lemma overridesOf_list (choice : list (Category * string)) :
  forall current,
    NoDup (map compoundKey (map fst choice)) ->
    (forall co, In co choice ->
                ~ In (compoundKey (fst co)) (map fst current)) ->
    overridesOf current choice
    = (current
       ++ map (fun co => (compoundKey (fst co), JStr (snd co))) choice)%list.
Proof.
  induction choice as [|co choice IH]; intros current Hnd Hfresh.
  - now rewrite app_nil_r.
  - rewrite overridesOf_cons. cbn [map] in Hnd.
    inversion Hnd as [|? ? Hco Hrest]; subst.
    rewrite objSet_plain by apply compoundKey_not_proto.
    rewrite ownSet_fresh by (apply Hfresh; simpl; auto).
    rewrite IH; auto.
    + now rewrite <- app_assoc.
    + intros co' Hin. rewrite map_app. intros H. apply in_app_or in H.
      destruct H as [H | [H | []]].
      * apply (Hfresh co'); simpl; auto.
      * simpl in H. apply Hco. rewrite H. apply in_map, in_map. exact Hin.
Qed.

Lemma regroupFrom_plain (choice : list (Category * string)) :
  forall m,
    Forall (fun co => plainAxis (fst co) = true) choice ->
    NoDup (map compoundKey (map fst choice)) ->
    Forall (fun e => NoDup (map fst (snd e))) m ->
    exists m',
      regroupFrom m
        (map (fun co => (compoundKey (fst co), JStr (snd co))) choice)
      = Grouped m'
      /\ (forall cat opt,
            In (cat, opt) choice ->
            lookup2 m' (ToString (componentId cat)) (key cat)
            = Some (JStr opt))
      /\ Forall (fun e => NoDup (map fst (snd e))) m'.
Proof.
  induction choice as [|[cat0 opt0] choice IH]; intros m Hplain Hnd Hm.
  - exists m. split; [reflexivity |]. split; [intros ? ? [] | exact Hm].
  - inversion Hplain as [|? ? H0 Hrest]; subst. cbn [fst] in H0.
    cbn [map] in Hnd. inversion Hnd as [|? ? Hfresh Hnd']; subst.
    unfold plainAxis in H0. apply andb_true_iff in H0.
    destruct H0 as [Hid Hkey]. cbn [map regroupFrom fst snd].
    destruct (@regroupStep_plain m _ _ opt0 Hid Hkey Hm)
      as (m1 & E1 & Hsame & Hother & Hm1).
    unfold compoundKey at 1. rewrite E1.
    destruct (IH m1 Hrest Hnd' Hm1) as (m' & E' & Hlook & Hm').
    exists m'. split; [exact E' |]. split; [| exact Hm'].
    intros cat opt [E | Hin]; [| now apply Hlook].
    inversion E; subst. clear E.
    (* the later axes write other properties *)
    clear Hlook IH.
    assert (Hkeep : forall choice m1 m',
               regroupFrom m1
                 (map (fun co => (compoundKey (fst co), JStr (snd co))) choice)
               = Grouped m' ->
               Forall (fun co => plainAxis (fst co) = true) choice ->
               Forall (fun e => NoDup (map fst (snd e))) m1 ->
               ~ In (compoundKey cat) (map compoundKey (map fst choice)) ->
               lookup2 m' (ToString (componentId cat)) (key cat)
               = lookup2 m1 (ToString (componentId cat)) (key cat)).
    { clear. induction choice as [|[c1 o1] choice IH];
        intros m1 m' E Hplain Hm1 Hfresh.
      - inversion E. reflexivity.
      - inversion Hplain as [|? ? H1 Hrest]; subst. cbn [fst] in H1.
        unfold plainAxis in H1. apply andb_true_iff in H1.
        destruct H1 as [Hid Hkey]. cbn [map regroupFrom fst snd] in E.
        destruct (@regroupStep_plain m1 _ _ o1 Hid Hkey Hm1)
          as (m2 & E2 & _ & Hother & Hm2).
        unfold compoundKey at 1 in E. rewrite E2 in E.
        rewrite (IH m2 m' E Hrest Hm2)
          by (intros H; apply Hfresh; simpl; auto).
        apply Hother. intros Epair. inversion Epair as [[Ec Ek]].
        apply Hfresh. simpl. left. unfold compoundKey. now rewrite Ec, Ek. }
    rewrite (Hkeep choice m1 m' E' Hrest Hm1 Hfresh). exact Hsame.
Qed.

End RegroupFacts.

(** X1: normalizing the entry [normalizeCategoryMeta] returns, with the
    same fallback, gives the same kind, options and value, and a map with
    the same value under every name. *)
Theorem normalizeCategoryMeta_idempotent {B : Builtins} (info : Obj)
  (fallbackArg : JsVal) :
  let once := normalizeCategoryMeta info fallbackArg in
  let twice := normalizeCategoryMeta (categoryObject once) fallbackArg in
  cm_kind twice = cm_kind once
  /\ cm_options twice = cm_options once
  /\ cm_value twice = cm_value once
  /\ forall k, ownGet (cm_map twice) k = ownGet (cm_map once) k.
Proof.
  intros once twice. unfold twice, once.
  split; [apply cm_kind_again |].
  split; [apply cm_options_again |].
  split; [apply cm_value_again |].
  intros k. apply cm_map_again.
Qed.

(** X2: when the metadata of every component has pairwise distinct
    parameter names, none of them [__proto__], replacing each component's
    metadata by what [normalizeParamMeta] makes of it leaves the scenario
    list as it was: same scenarios, same order, same labels. *)
Theorem normalizeParamMeta_keeps_scenarios {B : Builtins} (st : State) :
  Forall (fun c => properKeys (paramMeta c)) (components st) ->
  buildScenarioList {| components := map normalizedComponent (components st) |}
  = buildScenarioList st.
Proof.
  intros Hkeys. unfold buildScenarioList.
  assert (E : collectCategories
                {| components := map normalizedComponent (components st) |}
              = collectCategories st).
  { unfold collectCategories. cbn [components].
    induction Hkeys as [|c cs Hc _ IH]; auto.
    cbn [map flat_map]. now rewrite IH, collect_normalized. }
  now rewrite E.
Qed.

(** The value [encodeComponentParams] gives a categorical parameter whose
    override is one of its options. *)
Lemma encode_selected {B : Builtins} (c : Component)
  (override : Obj) (key : string) (info : Obj) (opt : string) :
  properKeys (paramMeta c) ->
  NoDup (map fst override) ->
  In (key, JObj info) (paramMeta c) ->
  strictEqStr (objGet info "type") "category" = true ->
  ownGet override key = Some (JStr opt) ->
  In opt (cm_options (normalizeCategoryMeta info (objGet (params c) key))) ->
  opt <> "__proto__" ->
  exists mapped,
    ownGet (cm_map (normalizeCategoryMeta info (objGet (params c) key))) opt
    = Some mapped
    /\ ownGet (encodeComponentParams c override) key = Some mapped.
Proof.
  intros [Hnd Hproto] Hov Hin Htype Hsel Hopt Hname.
  assert (Hkey : key <> "__proto__").
  { intros E. apply Hproto. apply in_map_iff. exists (key, JObj info).
    split; auto. }
  assert (Hown : hasOwn (cm_map (normalizeCategoryMeta info
                                   (objGet (params c) key))) opt = true).
  { rewrite cm_map_normalize. apply fold_mapStep_hasOwn; auto. left.
    unfold withIndex. now rewrite snd_combine_seq. }
  unfold hasOwn in Hown.
  destruct (ownGet (cm_map (normalizeCategoryMeta info (objGet (params c) key)))
                   opt) as [mapped|] eqn:Emap; [| discriminate].
  exists mapped. split; auto.
  unfold encodeComponentParams.
  destruct (encode_fold_entry override (paramMeta c) key (JObj info)
              (spread (params c) override) Hnd Hin) as (before & Hb & ->).
  rewrite (ownGet_spread_second (params c) override key Hov Hsel) in Hb.
  unfold encodeStep. cbn [field]. rewrite Htype. cbv zeta.
  assert (Eb : objGet before key = JStr opt) by (unfold objGet; now rewrite Hb).
  assert (Eo : objGet override key = JStr opt)
    by (unfold objGet; now rewrite Hsel).
  rewrite Eb, Eo. cbn [coalesce nullish ToString].
  rewrite (cm_map_same_options info (JStr opt) (objGet (params c) key))
    by now apply cm_options_refallback.
  rewrite Emap. now apply ownGet_assign_same.
Qed.

(** X3: when an override names, for a categorical parameter, one of the
    options its normalized metadata lists, [encodeComponentParams] gives
    the parameter the value the normalized map has for that option. *)
Theorem encode_selected_option {B : Builtins} (c : Component)
  (override : Obj) (key : string) (info : Obj) (opt : string) :
  properKeys (paramMeta c) ->
  NoDup (map fst override) ->
  In (key, JObj info) (paramMeta c) ->
  strictEqStr (objGet info "type") "category" = true ->
  ownGet override key = Some (JStr opt) ->
  In opt (cm_options (normalizeCategoryMeta info (objGet (params c) key))) ->
  opt <> "__proto__" ->
  exists mapped,
    ownGet (cm_map (normalizeCategoryMeta info (objGet (params c) key))) opt
    = Some mapped
    /\ ownGet (encodeComponentParams c override) key = Some mapped.
Proof. apply encode_selected. Qed.

(** X4: a categorical parameter that declares at least one option and
    whose mappings all read as numbers is encoded as a number, whatever
    the override and the current value are. *)
Theorem encode_category_number {B : Builtins} (c : Component)
  (override : Obj) (key : string) (info : Obj) :
  properKeys (paramMeta c) ->
  In (key, JObj info) (paramMeta c) ->
  strictEqStr (objGet info "type") "category" = true ->
  declaredOptions info <> [] ->
  (forall k raw,
     ownGet (sourceMapOf info) k = Some raw -> parseNumberish raw <> None) ->
  exists x, ownGet (encodeComponentParams c override) key = Some (JNum x).
Proof.
  intros [Hnd Hproto] Hin Htype Hdecl Hsrc.
  assert (Hkey : key <> "__proto__").
  { intros E. apply Hproto. apply in_map_iff. exists (key, JObj info).
    split; auto. }
  unfold encodeComponentParams.
  destruct (encode_fold_entry override (paramMeta c) key (JObj info)
              (spread (params c) override) Hnd Hin) as (before & _ & ->).
  unfold encodeStep. cbn [field]. rewrite Htype. cbv zeta.
  set (normalized := normalizeCategoryMeta info (objGet before key)).
  assert (Hval : forall k v,
             ownGet (cm_map normalized) k = Some v -> exists x, v = JNum x).
  { intros k v Hk. unfold normalized in Hk. rewrite cm_map_normalize in Hk.
    apply fold_mapStep_values in Hk. destruct Hk as [(idx & ->) | Hk];
      [| discriminate].
    apply mapValue_number. intros raw. apply Hsrc. }
  match goal with
  | |- context [ownGet (cm_map normalized) (ToString ?s)] =>
      destruct (ownGet (cm_map normalized) (ToString s)) as [mapped|] eqn:Esel
  end.
  - destruct (Hval _ _ Esel) as (x & ->). exists x.
    now apply ownGet_assign_same.
  - match goal with
    | |- context [parseNumberish ?s] =>
        destruct (parseNumberish s) as [numeric|]
    end.
    + exists numeric. now apply ownGet_assign_same.
    + assert (Eo : cm_options normalized = declaredOptions info).
      { unfold normalized. rewrite cm_options_unfold.
        destruct (declaredOptions info); congruence. }
      rewrite Eo. destruct (declaredOptions info) as [|first others];
        [congruence |].
      destruct (ownGet (cm_map normalized) first) as [mapped|] eqn:Efirst.
      * destruct (Hval _ _ Efirst) as (x & ->). exists x.
        now apply ownGet_assign_same.
      * eexists. now apply ownGet_assign_same.
Qed.

(** X5: [encodeComponentParams] removes no parameter of the spread of the
    component's parameters and the override, and leaves the value of
    every parameter that has no categorical entry in the metadata. *)
Theorem encode_keeps_parameters {B : Builtins} (c : Component)
  (override : Obj) (k : string) :
  (hasOwn (spread (params c) override) k = true ->
   hasOwn (encodeComponentParams c override) k = true)
  /\ ((forall info,
         In (k, info) (paramMeta c) ->
         strictEqStr (field info "type") "category" = false) ->
      ownGet (encodeComponentParams c override) k
      = ownGet (spread (params c) override) k).
Proof.
  unfold encodeComponentParams. split.
  - apply encode_fold_keeps.
  - generalize (spread (params c) override).
    induction (paramMeta c) as [|[key info] meta IH]; intros params Hplain; auto.
    cbn [fold_left]. rewrite IH by (intros i Hi; apply Hplain; simpl; auto).
    destruct (string_dec key k) as [-> | Hne].
    + rewrite encodeStep_plain; auto. apply Hplain. simpl. auto.
    + now apply encodeStep_other.
Qed.

(** The override objects of the scenario of a choice. *)
Lemma regroup_choice {B : Builtins} (cats : list Category)
  (choice : list (Category * string)) :
  NoDup (map compoundKey cats) ->
  Forall (fun cat => plainAxis cat = true) cats ->
  In choice (choices cats) ->
  exists overrideMap,
    regroup (overrides (scenarioOf choice)) = Grouped overrideMap
    /\ forall cat opt,
         In (cat, opt) choice ->
         exists override,
           overrideFor overrideMap (ToString (componentId cat)) = JObj override
           /\ NoDup (map fst override)
           /\ ownGet override (key cat) = Some (JStr opt).
Proof.
  intros Hnd Hplain Hin. pose proof (choices_axes _ _ Hin) as Haxes.
  unfold scenarioOf. cbn [overrides]. unfold regroup.
  rewrite overridesOf_list
    by (rewrite ?Haxes; auto; intros ? _ []).
  cbn [app].
  assert (Hchoice : Forall (fun co => plainAxis (fst co) = true) choice).
  { apply Forall_forall. intros [cat opt] Hco. cbn [fst].
    rewrite Forall_forall in Hplain. apply Hplain. rewrite <- Haxes.
    apply in_map_iff. exists (cat, opt). auto. }
  assert (Hnd' : NoDup (map compoundKey (map fst choice)))
    by now rewrite Haxes.
  destruct (@regroupFrom_plain B choice [] Hchoice Hnd' (Forall_nil _))
    as (m' & E & Hlook & Hm').
  exists m'. split; [exact E |]. intros cat opt Hco.
  specialize (Hlook cat opt Hco). unfold lookup2 in Hlook.
  unfold overrideFor.
  destruct (groupGet m' (ToString (componentId cat))) as [g|] eqn:Eg;
    [| discriminate].
  exists g. split; [reflexivity |]. split; [| exact Hlook].
  apply (@groupGet_Forall (fun g => NoDup (map fst g)) m' _ g Hm' Eg).
Qed.

(** X6: for axes with pairwise distinct compound keys, whose component
    identifiers contain no ["::"], end with no colon and name no member of
    [Object.prototype], and whose parameter names contain no ["::"] and
    are not [__proto__], regrouping the overrides of a scenario never
    writes outside the objects it creates, and the override object it
    hands [buildPayloadWithOverrides] for a component has each of that
    component's axes set to the scenario's option. *)
Theorem regroup_recovers_choice {B : Builtins} (cats : list Category)
  (choice : list (Category * string)) :
  NoDup (map compoundKey cats) ->
  Forall (fun cat => plainAxis cat = true) cats ->
  In choice (choices cats) ->
  exists overrideMap,
    regroup (overrides (scenarioOf choice)) = Grouped overrideMap
    /\ forall cat opt,
         In (cat, opt) choice ->
         exists override,
           overrideFor overrideMap (ToString (componentId cat)) = JObj override
           /\ NoDup (map fst override)
           /\ ownGet override (key cat) = Some (JStr opt).
Proof. apply regroup_choice. Qed.

Lemma In_ownGet (o : Obj) (k : string) (v : JsVal) :
  NoDup (map fst o) -> In (k, v) o -> ownGet o k = Some v.
Proof.
  induction o as [|[k' v'] o IH]; simpl; intros Hnd Hin; [destruct Hin |].
  inversion Hnd as [|? ? Hk' Ho]; subst.
  destruct Hin as [E | Hin].
  - inversion E. subst. now rewrite String.eqb_refl.
  - destruct (String.eqb k' k) eqn:E; auto.
    apply String.eqb_eq in E. subst k'. destruct Hk'.
    apply in_map_iff. exists (k, v). auto.
Qed.

Lemma in_choice_option (cats : list Category) :
  forall choice cat opt,
    In choice (choices cats) -> In (cat, opt) choice -> In opt (options cat).
Proof.
  induction cats as [|c rest IH]; intros choice cat opt Hin Hco.
  - destruct Hin as [<- | []]. destruct Hco.
  - apply in_choices_cons in Hin. destruct Hin as (o & tail & -> & Ho & Ht).
    destruct Hco as [E | Hco]; [inversion E; now subst | eauto].
Qed.

(** X7: for a state whose axes have pairwise distinct compound keys, plain
    component identifiers and plain parameter names, take any scenario of
    [buildScenarioList] and any axis whose options do not include
    [__proto__].  The scenario sets the axis to one of its options;
    regrouping its overrides writes nowhere else than into the objects it
    creates; and [encodeComponentParams], given the override object of the
    axis's component, gives the parameter the value the normalized map has
    for that option. *)
Theorem scenario_option_reaches_payload {B : Builtins} (st : State)
  (c : Component) (key : string) (info : Obj) (s : Scenario) :
  let cat :=
    {| componentId := id c;
       key := key;
       options :=
         cm_options (normalizeCategoryMeta info (objGet (params c) key)) |} in
  NoDup (map compoundKey (collectCategories st)) ->
  Forall (fun cat => plainAxis cat = true) (collectCategories st) ->
  properKeys (paramMeta c) ->
  In (key, JObj info) (paramMeta c) ->
  strictEqStr (objGet info "type") "category" = true ->
  In cat (collectCategories st) ->
  ~ In "__proto__" (options cat) ->
  In s (buildScenarioList st) ->
  exists opt overrideMap override mapped,
    In opt (options cat)
    /\ ownGet (overrides s) (compoundKey cat) = Some (JStr opt)
    /\ regroup (overrides s) = Grouped overrideMap
    /\ overrideFor overrideMap (ToString (id c)) = JObj override
    /\ ownGet (cm_map (normalizeCategoryMeta info (objGet (params c) key))) opt
       = Some mapped
    /\ ownGet (encodeComponentParams c override) key = Some mapped.
Proof.
  intros cat Hnd Hplain Hkeys Hentry Htype Hcat Hproto Hs.
  rewrite buildScenarioList_choices in Hs
    by (intros E; rewrite E in Hcat; destruct Hcat).
  apply in_map_iff in Hs. destruct Hs as (choice & <- & Hchoice).
  pose proof (choices_axes _ _ Hchoice) as Haxes.
  assert (Hco : exists opt, In (cat, opt) choice).
  { rewrite <- Haxes in Hcat. apply in_map_iff in Hcat.
    destruct Hcat as ([cat' opt] & E & Hin). simpl in E. subst cat'. eauto. }
  destruct Hco as (opt & Hco).
  pose proof (in_choice_option _ _ _ _ Hchoice Hco) as Hopt.
  destruct (@regroup_choice B _ _ Hnd Hplain Hchoice) as (overrideMap & Er & Hfor).
  destruct (Hfor cat opt Hco) as (override & Eo & Hov & Hsel).
  assert (Hname : opt <> "__proto__") by (intros E; apply Hproto; now rewrite <- E).
  destruct (@encode_selected B c override key info opt Hkeys Hov Hentry Htype
              Hsel Hopt Hname) as (mapped & Emap & Eenc).
  exists opt, overrideMap, override, mapped.
  split; [exact Hopt |]. split; [| auto].
  unfold scenarioOf. cbn [overrides].
  rewrite overridesOf_list by (rewrite ?Haxes; auto; intros ? _ []).
  cbn [app]. apply In_ownGet.
  - rewrite map_map. cbn [fst]. rewrite <- map_map, Haxes. exact Hnd.
  - apply in_map_iff. exists (cat, opt). auto.
Qed.

(** ** Parameter defaults and the required-parameter check *)

Lemma hasOwn_fold_ownSet (l : list (string * JsVal)) (k : string) :
  forall acc,
    hasOwn acc k = true \/ In k (map fst l) ->
    hasOwn (fold_left (fun o kv => ownSet o (fst kv) (snd kv)) l acc) k = true.
Proof.
  induction l as [|[k' v'] l IH]; intros acc H.
  - destruct H as [H | []]. exact H.
  - cbn [fold_left fst snd]. apply IH. destruct H as [H | [E | H]]; auto.
    + left. now apply hasOwn_ownSet_keep.
    + simpl in E. subst k'. left. unfold hasOwn.
      now rewrite ownGet_ownSet_same.
Qed.

Lemma hasOwn_In (o : Obj) (k : string) :
  hasOwn o k = true -> In k (map fst o).
Proof.
  unfold hasOwn. destruct (ownGet o k) eqn:E; [| discriminate]. intros _.
  apply ownGet_In in E. apply in_map_iff. exists (k, j). auto.
Qed.

(** A spread has the own properties of its first object. *)
Lemma hasOwn_spread_first (a b : Obj) (k : string) :
  hasOwn a k = true -> hasOwn (spread a b) k = true.
Proof.
  intros H. unfold spread. apply hasOwn_fold_ownSet. right.
  rewrite map_app. apply in_or_app. left. now apply hasOwn_In.
Qed.

Section DefaultsFacts.
Context {B : Builtins}.

Lemma lookupDefs_required (table : ParamDefs) (type : JsVal)
  (defs : list ParamDef) :
  lookupParamDefs table type = Normal defs ->
  lookupDefs (requiredKeys table) type
  = Normal (map (fun def => {| def_key := pd_key def |}) defs).
Proof.
  unfold lookupParamDefs, lookupDefs, requiredKeys.
  generalize (ToString type) as k. intros k.
  induction table as [|[k' ds] table IH]; simpl.
  - destruct (inObjectPrototype k); [discriminate |].
    intros E. inversion E. reflexivity.
  - destruct (String.eqb k' k); auto.
    intros E. inversion E. reflexivity.
Qed.

Lemma defaultStep_keeps (existing merged : Obj) (def : ParamDef) (k : string) :
  hasOwn merged k = true -> hasOwn (defaultStep existing merged def) k = true.
Proof. apply hasOwn_objSet_keep. Qed.

Lemma customStep_keeps (merged : Obj) (entry : string * JsVal) (k : string) :
  hasOwn merged k = true -> hasOwn (customStep merged entry) k = true.
Proof.
  destruct entry as [k' v]. unfold customStep. intros H.
  destruct (hasOwn merged k' || inObjectPrototype k'); auto.
  now apply hasOwn_objSet_keep.
Qed.

Lemma fold_defaultStep_has (existing : Obj) (defs : list ParamDef)
  (k : string) :
  forall merged,
    k <> "__proto__" ->
    hasOwn merged k = true \/ In k (map pd_key defs) ->
    hasOwn (fold_left (defaultStep existing) defs merged) k = true.
Proof.
  induction defs as [|def defs IH]; intros merged Hk H.
  - destruct H as [H | []]. exact H.
  - cbn [fold_left]. apply IH; auto. destruct H as [H | [E | H]]; auto.
    + left. now apply defaultStep_keeps.
    + left. subst k. unfold defaultStep. now apply hasOwn_objSet_same.
Qed.

Lemma fold_customStep_keeps (existing : Obj) (k : string) :
  forall merged,
    hasOwn merged k = true ->
    hasOwn (fold_left customStep existing merged) k = true.
Proof.
  induction existing as [|entry existing IH]; intros merged H; auto.
  cbn [fold_left]. apply IH. now apply customStep_keeps.
Qed.

(** Every parameter the table declares for the type is a property of the
    merged object. *)
Lemma mergeDefaults_has (table : ParamDefs) (type : JsVal) (existing : Obj)
  (defs : list ParamDef) (merged : Obj) (def : ParamDef) :
  lookupParamDefs table type = Normal defs ->
  mergeDefaultsForType table type existing = Normal merged ->
  In def defs ->
  hasOwn merged (pd_key def) || inObjectPrototype (pd_key def) = true.
Proof.
  intros Hdefs Hmerge Hin. unfold mergeDefaultsForType in Hmerge.
  rewrite Hdefs in Hmerge. cbn [bind] in Hmerge.
  destruct (string_dec (pd_key def) "__proto__") as [E | Hk];
    [rewrite E; apply orb_true_r |].
  apply orb_true_iff. left.
  assert (H0 : hasOwn (fold_left (defaultStep existing) defs []) (pd_key def)
               = true).
  { apply fold_defaultStep_has; auto. right. now apply in_map. }
  destruct (negb (strictEqStr type "Custom")); inversion Hmerge; subst; auto.
  now apply fold_customStep_keeps.
Qed.

End DefaultsFacts.

(** X8: a stream whose parameters went through [mergeDefaultsForType] for
    its type, a non-empty string, and then through [encodeComponentParams]
    with any metadata, adds no error to the list when
    [validateConfigPayload] checks it against the same table: no required
    parameter is missing. *)
Theorem merged_defaults_pass_validation {B : Builtins} (table : ParamDefs)
  (type : string) (existing merged : Obj) (cid : JsVal) (meta : Obj)
  (stream : Obj) (layerIndex streamIndex : nat)
  (errors : list StructuredError) :
  nonempty type = true ->
  mergeDefaultsForType table (JStr type) existing = Normal merged ->
  objGet stream "type" = JStr type ->
  objGet stream "params"
  = JObj (encodeComponentParams
            {| id := cid; params := merged; paramMeta := meta |} []) ->
  checkStream (requiredKeys table) layerIndex errors (streamIndex, JObj stream)
  = Normal errors.
Proof.
  intros Htype Hmerge Est Esp.
  destruct (lookupParamDefs table (JStr type)) as [defs|t] eqn:Edefs.
  2: { unfold mergeDefaultsForType in Hmerge. rewrite Edefs in Hmerge.
       discriminate. }
  unfold checkStream. cbn [isObjectLike truthy typeof JsType_eqb andb negb field].
  rewrite Est, Esp. cbn [truthy typeof JsType_eqb negb orb or_else].
  rewrite Htype. cbn [negb orb].
  rewrite (lookupDefs_required _ _ Edefs). cbn [bind].
  assert (Hall : forall def, In def defs ->
                   hasProperty (pd_key def)
                     (JObj (encodeComponentParams
                              {| id := cid; params := merged;
                                 paramMeta := meta |} []))
                   = Normal true).
  { intros def Hin. cbn [hasProperty]. f_equal.
    pose proof (mergeDefaults_has _ _ _ def Edefs Hmerge Hin) as H.
    apply orb_true_iff in H. apply orb_true_iff.
    destruct H as [H | H]; auto. left.
    unfold encodeComponentParams. apply encode_fold_keeps.
    cbn [params]. now apply hasOwn_spread_first. }
  clear Edefs Hmerge. revert Hall. generalize errors.
  induction defs as [|def defs IH]; intros acc Hall; auto.
  cbn [map forEachM]. unfold checkParam at 1. cbn [def_key].
  rewrite (Hall def) by (simpl; auto). cbn [bind].
  apply IH. intros d Hd. apply Hall. simpl. auto.
Qed.

(** ** Errors on arbitrary values *)




(** The typed [normalizeError] is the function of errors.js on what the
    typed throw stands for. *)
Lemma normalizeError_typed {B : Builtins} (t : Thrown)
  (fallbackCode fallbackMessage : string) (fallbackHints : list string) :
  Errors.normalizeError (caughtOf t) fallbackCode fallbackMessage fallbackHints
  = errorObject (normalizeError t fallbackCode fallbackMessage fallbackHints).
Proof. destruct t as [e | name msg]; reflexivity. Qed.


(** ** The worker over time *)

Lemma serveAll_failed (g : Worker.Globals) (errString : string)
  (messages : list (Backend * WorkerRequest)) :
  Worker.ready g = false ->
  Worker.initError g = Some errString -> errString <> "" ->
  serveAll g messages = (g, map (answerAfterFailure errString) messages).
Proof.
  intros Hr He Hne. induction messages as [|[backend request] rest IH]; auto.
  cbn [serveAll map].
  assert (E : Worker.onmessage backend g request
              = (g, answerAfterFailure errString (backend, request))).
  { unfold Worker.onmessage, answerAfterFailure. cbn [snd].
    destruct request as [indexURL | payload | type]; auto.
    - unfold Worker.initRuntime. rewrite Hr, He.
      destruct errString; [congruence | reflexivity].
    - unfold Worker.runSimulation. now rewrite Hr. }
  now rewrite E, IH.
Qed.

(** X10: once loading has failed in a worker that was not ready, with a
    non-empty [String(err)], the worker never loads again: it answers
    every later [init] with that string as an error, every [run] with
    [runtime-not-ready], and its state no longer changes, whatever the
    backend would do by then. *)
Theorem worker_load_failure_is_permanent (backend : Backend)
  (g : Worker.Globals) (indexURL : JsVal) (pyodideSet : option string)
  (errString errMessage : string)
  (later : list (Backend * WorkerRequest)) :
  Worker.ready g = false ->
  Worker.initError g = None ->
  load backend indexURL = LoadFailed pyodideSet errString errMessage ->
  errString <> "" ->
  let (g', reply) := Worker.onmessage backend g (InitRequest indexURL) in
  reply = WorkerError errMessage
  /\ serveAll g' later = (g', map (answerAfterFailure errString) later).
Proof.
  intros Hr He Hload Hne.
  unfold Worker.onmessage, Worker.initRuntime. rewrite Hr, He, Hload.
  split; [reflexivity |]. now apply serveAll_failed.
Qed.

(** X11: a worker that is ready stays as it is: it answers every [init]
    with the version it loaded, without loading again, and hands every
    [run] to the backend. *)
Theorem worker_ready_is_stable (g : Worker.Globals) (version : string)
  (messages : list (Backend * WorkerRequest)) :
  Worker.ready g = true ->
  Worker.pyodide g = Some version ->
  serveAll g messages = (g, map (answerWhenReady version) messages).
Proof.
  intros Hr Hp. induction messages as [|[backend request] rest IH]; auto.
  cbn [serveAll map].
  assert (E : Worker.onmessage backend g request
              = (g, answerWhenReady version (backend, request))).
  { unfold Worker.onmessage, answerWhenReady. cbn [fst snd].
    destruct request as [indexURL | payload | type]; auto.
    - unfold Worker.initRuntime. now rewrite Hr, Hp.
    - unfold Worker.runSimulation. rewrite Hr, Hp.
      now destruct (run_sim backend payload). }
  now rewrite E, IH.
Qed.

(** ** The dispatcher over time *)

Lemma to_uint_not_nil (n : nat) : Nat.to_uint n <> Decimal.Nil.
Proof.
  intros E. pose proof (Unsigned.of_to n) as H. rewrite E in H.
  simpl in H. subst n. discriminate E.
Qed.

(** Different numbers have different numerals. *)
Lemma natToString_inj (n m : nat) : natToString n = natToString m -> n = m.
Proof.
  unfold natToString. intros E.
  apply (f_equal NilZero.uint_of_string) in E.
  rewrite !NilZero.usu in E by apply to_uint_not_nil.
  inversion E. now apply Unsigned.to_uint_inj.
Qed.

Lemma requestIdOf_inj (n m : nat) : requestIdOf n = requestIdOf m -> n = m.
Proof.
  unfold requestIdOf. intros E. inversion E. now apply natToString_inj.
Qed.

Lemma NoDup_remove_move (l : list string) (x : string) (settled : list string) :
  In x l -> NoDup (l ++ settled) ->
  NoDup (filter (fun k => negb (String.eqb k x)) l ++ settled ++ [x]).
Proof.
  intros Hin Hnd.
  apply NoDup_app_remove_r in Hnd as Hl.
  apply NoDup_app_remove_l in Hnd as Hs.
  apply NoDup_app; [now apply NoDup_filter | |].
  - apply NoDup_app; auto.
    + constructor; [intros [] | constructor].
    + intros y Hy [<- | []]. revert Hy. revert Hin.
      clear - Hnd. induction l as [|a l IH]; simpl; [tauto |].
      intros [-> | Hin] Hy.
      * inversion Hnd as [|? ? Ha _]. apply Ha. apply in_or_app. auto.
      * inversion Hnd. eauto.
  - intros y Hy Hy'. apply filter_In in Hy. destruct Hy as [Hyl Hyx].
    apply negb_true_iff, String.eqb_neq in Hyx.
    apply in_app_or in Hy'. destruct Hy' as [Hy' | [E | []]];
      [| congruence].
    clear - Hnd Hyl Hy'. induction l as [|a l IH]; [destruct Hyl |].
    inversion Hnd as [|? ? Ha Hrest]; subst. destruct Hyl as [-> | Hyl]; auto.
    apply Ha. apply in_or_app. auto.
Qed.

Lemma consistent_step (rt : PlaygroundRuntime) (event : RuntimeEvent)
  (done : list string) :
  consistent rt done ->
  consistent (fst (stepRuntime rt event))
             (done ++ map fst (snd (stepRuntime rt event))).
Proof.
  intros [Hnd Hiss]. destruct event as [| requestId reply | msg |].
  - (* a request: its identifier is new *)
    cbn [stepRuntime fst snd map]. rewrite app_nil_r.
    unfold request. cbn [fst snd].
    assert (Hp : pending (ensureWorker rt) = pending rt)
      by (unfold ensureWorker; destruct (worker rt); reflexivity).
    assert (Hs : requestSeq (ensureWorker rt) = requestSeq rt)
      by (unfold ensureWorker; destruct (worker rt); reflexivity).
    unfold consistent. cbn [pending requestSeq]. rewrite Hp, Hs.
    fold (requestIdOf (S (requestSeq rt))). split.
    + rewrite <- app_assoc.
      apply (Permutation_NoDup
               (l := requestIdOf (S (requestSeq rt)) :: pending rt ++ done)).
      { apply Permutation_cons_app. reflexivity. }
      constructor; auto. intros Hin.
      destruct (Hiss _ Hin) as (k & Hk & E).
      apply requestIdOf_inj in E. clear - Hk E. lia.
    + intros x Hin. rewrite <- app_assoc in Hin.
      apply in_app_or in Hin. destruct Hin as [Hin | [<- | Hin]].
      * destruct (Hiss x) as (k & Hk & E); [apply in_or_app; auto |].
        exists k. split; [cbn [requestSeq]; lia | exact E].
      * exists (S (requestSeq rt)). split; [cbn [requestSeq]; lia | reflexivity].
      * destruct (Hiss x) as (k & Hk & E); [apply in_or_app; auto |].
        exists k. split; [cbn [requestSeq]; lia | exact E].
  - (* a message: it settles its request if that is pending *)
    cbn [stepRuntime]. unfold onmessage.
    destruct (existsb (String.eqb requestId) (pending rt)) eqn:Ein.
    + cbn [fst snd map]. unfold consistent. cbn [pending requestSeq].
      apply existsb_exists in Ein. destruct Ein as (x & Hx & Ex).
      apply String.eqb_eq in Ex. subst x. split.
      * now apply NoDup_remove_move.
      * intros x Hin. apply Hiss.
        apply in_app_or in Hin. destruct Hin as [Hin | Hin].
        -- apply filter_In in Hin. apply in_or_app. tauto.
        -- apply in_app_or in Hin. destruct Hin as [Hin | [<- | []]];
             apply in_or_app; auto.
    + cbn [fst snd map]. rewrite app_nil_r. split; assumption.
  - (* the worker fails: every pending request is settled *)
    cbn [stepRuntime onerror fst snd]. rewrite map_map. cbn [fst].
    rewrite map_id. unfold consistent. cbn [pending requestSeq app]. split.
    + apply (Permutation_NoDup (l := pending rt ++ done)); auto.
      apply Permutation_app_comm.
    + intros x Hin. apply Hiss. apply in_app_or in Hin.
      apply in_or_app. tauto.
  - cbn [stepRuntime terminate fst snd]. rewrite map_map. cbn [fst].
    rewrite map_id. unfold consistent. cbn [pending requestSeq app]. split.
    + apply (Permutation_NoDup (l := pending rt ++ done)); auto.
      apply Permutation_app_comm.
    + intros x Hin. apply Hiss. apply in_app_or in Hin.
      apply in_or_app. tauto.
Qed.

Lemma consistent_run (events : list RuntimeEvent) :
  forall rt done,
    consistent rt done ->
    consistent (fst (runEvents rt events))
               (done ++ map fst (snd (runEvents rt events))).
Proof.
  induction events as [|event rest IH]; intros rt done H.
  - cbn [runEvents fst snd map]. now rewrite app_nil_r.
  - cbn [runEvents]. pose proof (consistent_step event H) as H1.
    destruct (stepRuntime rt event) as [rt1 settled].
    cbn [fst snd] in H1. specialize (IH rt1 _ H1).
    destruct (runEvents rt1 rest) as [rt2 later]. cbn [fst snd] in *.
    now rewrite map_app, app_assoc.
Qed.

(** X12: in every run of a [PlaygroundRuntime] from its construction,
    whatever requests are made, whatever messages and errors arrive from
    the worker and whenever [terminate()] is called, no request is
    settled twice, a settled request is no longer pending, and every
    request settled or pending carries an identifier [r1], [r2], ... that
    [request] has handed out. *)
Theorem requests_settle_at_most_once (events : list RuntimeEvent) :
  let (rt, settled) := runEvents newRuntime events in
  NoDup (pending rt ++ map fst settled)
  /\ forall requestId,
       In requestId (pending rt ++ map fst settled) ->
       exists k, 1 <= k <= requestSeq rt /\ requestId = requestIdOf k.
Proof.
  assert (H0 : consistent newRuntime []).
  { split; [constructor | intros ? []]. }
  pose proof (consistent_run events H0) as H.
  destruct (runEvents newRuntime events) as [rt settled]. exact H.
Qed.

(** ** Onboarding *)

Lemma finiteOrZero_finite (x : float) :
  PrimFloat.is_finite (finiteOrZero x) = true.
Proof.
  unfold finiteOrZero. destruct (PrimFloat.is_finite x) eqn:E; auto.
Qed.

Lemma finiteOrZero_fix (x : float) :
  PrimFloat.is_finite x = true -> finiteOrZero x = x.
Proof. intros E. unfold finiteOrZero. now rewrite E. Qed.

Section OnboardingFacts.
Context {B : Builtins}.

(** The object of a record with a finite major version is parsed as that
    record. *)
Lemma parseState_stateObject (s : OnboardingState) :
  PrimFloat.is_finite (last_seen_major s) = true ->
  parseState (stateObject s) = Some s.
Proof.
  intros Hf. destruct s as [c d m u]. cbn [last_seen_major] in Hf.
  unfold parseState, stateObject.
  cbn [isObjectLike truthy typeof JsType_eqb andb negb field objGet ownGet
       String.eqb Ascii.eqb Bool.eqb strictEqStr ONBOARDING_VERSION
       tour_completed tour_dismissed last_seen_major updated_at ToNumber].
  simpl. rewrite (finiteOrZero_fix _ Hf). f_equal. f_equal.
  unfold or_else. cbn [truthy]. now destruct u.
Qed.

Lemma parseState_finite (raw : JsVal) (s : OnboardingState) :
  parseState raw = Some s -> PrimFloat.is_finite (last_seen_major s) = true.
Proof.
  unfold parseState.
  destruct (negb (isObjectLike raw)); [discriminate |].
  destruct (negb (strictEqStr (field raw "version") ONBOARDING_VERSION));
    [discriminate |].
  intros E. inversion E. cbn [last_seen_major]. apply finiteOrZero_finite.
Qed.

Lemma parseMajor_finite (appVersion : JsVal) :
  PrimFloat.is_finite (parseMajor appVersion) = true.
Proof. apply finiteOrZero_finite. Qed.

Lemma parseOrDefault_finite (now : string) (raw : JsVal) :
  PrimFloat.is_finite (last_seen_major (parseOrDefault now raw)) = true.
Proof.
  unfold parseOrDefault. destruct (parseState raw) eqn:E.
  - now apply (parseState_finite raw).
  - reflexivity.
Qed.

End OnboardingFacts.

(** X13: the record [parseState] returns has a finite major version, and
    is parsed as itself: [parseState] applied to its own result changes
    nothing. *)
Theorem parseState_idempotent {B : Builtins} (raw : JsVal)
  (s : OnboardingState) :
  parseState raw = Some s ->
  PrimFloat.is_finite (last_seen_major s) = true
  /\ parseState (stateObject s) = Some s.
Proof.
  intros E. pose proof (parseState_finite raw E) as Hf.
  split; [exact Hf | now apply parseState_stateObject].
Qed.

(** X14: after [markTourCompleted] or [markTourDismissed] for a version,
    whatever the state was, the tour is shown for a later version exactly
    when the major number of the later version is greater; this holds for
    the record returned and for the record kept by [saveOnboardingState]. *)
Theorem tour_shown_again_only_on_major_bump {B : Builtins}
  (now savedAt later : string) (state appVersion laterVersion : JsVal)
  (store : option Storage) :
  let shown s := shouldShowTour later (stateObject s) laterVersion in
  let bump :=
    PrimFloat.ltb (parseMajor appVersion) (parseMajor laterVersion) in
  let (completed, keptC) :=
    markTourCompleted now savedAt state appVersion store in
  let (dismissed, keptD) :=
    markTourDismissed now savedAt state appVersion store in
  shown completed = bump /\ shown keptC = bump
  /\ shown dismissed = bump /\ shown keptD = bump.
Proof.
  cbv zeta. unfold markTourCompleted, markTourDismissed, saveOnboardingState.
  cbn [fst].
  assert (Hshow : forall s,
             PrimFloat.is_finite (last_seen_major s) = true ->
             tour_completed s || tour_dismissed s = true ->
             shouldShowTour later (stateObject s) laterVersion
             = PrimFloat.ltb (last_seen_major s) (parseMajor laterVersion)).
  { intros s Hf Hd. unfold shouldShowTour, parseOrDefault.
    rewrite (parseState_stateObject s Hf).
    destruct (tour_completed s), (tour_dismissed s); try discriminate;
      reflexivity. }
  assert (Hkept : forall s,
             PrimFloat.is_finite (last_seen_major s) = true ->
             setUpdated savedAt (parseOrDefault savedAt (stateObject s))
             = setUpdated savedAt s).
  { intros s Hf. unfold parseOrDefault.
    now rewrite (parseState_stateObject s Hf). }
  rewrite !Hkept by apply parseMajor_finite.
  repeat split; rewrite Hshow; try reflexivity;
    try apply parseMajor_finite;
    cbn [setUpdated setMajor setDismissed setCompleted tour_completed
         tour_dismissed]; auto using orb_true_r.
Qed.

(** X15: a saved onboarding state is what the next load returns.  When
    the store gives back the record [saveOnboardingState] wrote,
    [loadOnboardingState] returns that record, whatever is kept in memory;
    and when there is no store, or reading it throws, finds nothing or
    finds no valid state, it returns the record kept in memory by the
    save. The record saved is always one [parseState] accepts. *)
Theorem load_returns_saved_state {B : Builtins} (savedAt now : string)
  (state : JsVal) (storeThen storeNow : option Storage)
  (inMemory : option OnboardingState) :
  let record := fst (saveOnboardingState savedAt state storeThen) in
  (forall st,
     readItem st = ReadJson (stateObject record) ->
     loadOnboardingState now inMemory (Some st) = record)
  /\ ((forall st v,
         storeNow = Some st -> readItem st = ReadJson v ->
         parseState v = None) ->
      loadOnboardingState now (Some record) storeNow = record).
Proof.
  unfold saveOnboardingState. cbn [fst]. cbv zeta.
  assert (Hp : parseState
                 (stateObject (setUpdated savedAt (parseOrDefault savedAt state)))
               = Some (setUpdated savedAt (parseOrDefault savedAt state))).
  { apply parseState_stateObject.
    cbn [setUpdated last_seen_major]. apply parseOrDefault_finite. }
  assert (E : rememberedOrDefault now
                (Some (setUpdated savedAt (parseOrDefault savedAt state)))
              = setUpdated savedAt (parseOrDefault savedAt state)).
  { unfold rememberedOrDefault, parseOrDefault at 1. now rewrite Hp. }
  split.
  - intros st Hst. unfold loadOnboardingState. now rewrite Hst, Hp.
  - intros Hnone. unfold loadOnboardingState.
    destruct storeNow as [st|]; auto.
    destruct (readItem st) as [| |v] eqn:Er; auto.
    now rewrite (Hnone st v eq_refl Er).
Qed.

(** ** Hashing *)

Lemma toInt32_mod (z : Z) : ((toInt32 z) mod 2 ^ 32 = z mod 2 ^ 32)%Z.
Proof.
  unfold toInt32.
  rewrite Zminus_mod, Z.mod_mod by lia.
  rewrite <- Zminus_mod. f_equal. lia.
Qed.

Lemma toInt32_range (z : Z) : (- 2 ^ 31 <= toInt32 z < 2 ^ 31)%Z.
Proof.
  unfold toInt32. pose proof (Z.mod_pos_bound (z + 2 ^ 31) (2 ^ 32)). lia.
Qed.

Lemma lxor_mod_pow2 (a b n : Z) :
  (0 <= n)%Z ->
  ((Z.lxor a b) mod 2 ^ n = Z.lxor (a mod 2 ^ n) (b mod 2 ^ n))%Z.
Proof.
  intros Hn. apply Z.bits_inj'. intros i Hi. rewrite Z.lxor_spec.
  destruct (Z.ltb_spec i n).
  - rewrite !Z.mod_pow2_bits_low by lia. now rewrite Z.lxor_spec.
  - now rewrite !Z.mod_pow2_bits_high by lia.
Qed.

Lemma byteValue_range (b : Byte.byte) : (0 <= byteValue b < 256)%Z.
Proof.
  unfold byteValue. pose proof (Byte.to_N_bounded b). lia.
Qed.

Lemma toUint32_xor32 (h : Z) (b : Byte.byte) :
  toUint32 (xor32 h (byteValue b)) = Z.lxor (toUint32 h) (byteValue b).
Proof.
  unfold toUint32, xor32. rewrite toInt32_mod, lxor_mod_pow2 by lia.
  rewrite !toInt32_mod. f_equal.
  pose proof (byteValue_range b). apply Z.mod_small. lia.
Qed.

Lemma toUint32_shl32 (a k : Z) :
  (0 <= k < 32)%Z ->
  toUint32 (shl32 a k) = ((a * 2 ^ k) mod 2 ^ 32)%Z.
Proof.
  intros Hk. unfold toUint32, shl32.
  rewrite toInt32_mod, (Z.mod_small k) by lia.
  rewrite Z.shiftl_mul_pow2 by lia.
  rewrite Zmult_mod, toInt32_mod, <- Zmult_mod. reflexivity.
Qed.

Lemma shl32_congruent (a k : Z) :
  (0 <= k < 32)%Z -> exists q, (shl32 a k = a * 2 ^ k + q * 2 ^ 32)%Z.
Proof.
  intros Hk. pose proof (toUint32_shl32 a Hk) as E. unfold toUint32 in E.
  exists (shl32 a k / 2 ^ 32 - (a * 2 ^ k) / 2 ^ 32)%Z.
  pose proof (Z.div_mod (shl32 a k) (2 ^ 32)).
  pose proof (Z.div_mod (a * 2 ^ k) (2 ^ 32)). lia.
Qed.

Lemma toUint32_fnvStep (h : Z) (b : Byte.byte) :
  toUint32 (fnvStep h b)
  = ((Z.lxor (toUint32 h) (byteValue b)) * fnvPrime mod 2 ^ 32)%Z.
Proof.
  unfold fnvStep. cbv zeta. set (h1 := xor32 h (byteValue b)).
  rewrite <- toUint32_xor32. fold h1. unfold toUint32.
  destruct (shl32_congruent h1 (k := 1)) as (q1 & ->); [lia |].
  destruct (shl32_congruent h1 (k := 4)) as (q4 & ->); [lia |].
  destruct (shl32_congruent h1 (k := 7)) as (q7 & ->); [lia |].
  destruct (shl32_congruent h1 (k := 8)) as (q8 & ->); [lia |].
  destruct (shl32_congruent h1 (k := 24)) as (q24 & ->); [lia |].
  rewrite Z.mul_mod_idemp_l by lia.
  replace (h1 + (h1 * 2 ^ 1 + q1 * 2 ^ 32 + (h1 * 2 ^ 4 + q4 * 2 ^ 32)
                 + (h1 * 2 ^ 7 + q7 * 2 ^ 32) + (h1 * 2 ^ 8 + q8 * 2 ^ 32)
                 + (h1 * 2 ^ 24 + q24 * 2 ^ 32)))%Z
    with (h1 * fnvPrime + (q1 + q4 + q7 + q8 + q24) * 2 ^ 32)%Z
    by (unfold fnvPrime; lia).
  apply Z.mod_add. lia.
Qed.

Lemma fnvStep_range (h : Z) (b : Byte.byte) :
  (- 2 ^ 53 < fnvStep h b < 2 ^ 53)%Z.
Proof.
  unfold fnvStep, xor32, shl32. cbv zeta.
  repeat match goal with
         | |- context [toInt32 ?z] =>
             let H := fresh in
             pose proof (toInt32_range z) as H;
             generalize dependent (toInt32 z); intros
         end.
  lia.
Qed.

Lemma fold_fnvStep (data : list Byte.byte) :
  forall h hs,
    toUint32 h = hs ->
    toUint32 (fold_left fnvStep data h)
    = fold_left (fun h b => ((Z.lxor h (byteValue b)) * fnvPrime) mod 2 ^ 32)%Z
                data hs.
Proof.
  induction data as [|b data IH]; intros h hs E; auto.
  cbn [fold_left]. apply IH. now rewrite toUint32_fnvStep, E.
Qed.

(** X16: where [crypto.subtle] is missing, [hashText] answers ["fnv1a-"]
    followed by the hexadecimal numeral of the 32-bit FNV-1a hash of the
    encoded input: its shifts and additions on numbers compute the
    multiplication by the prime 16777619 modulo 2^32, and every number
    the loop holds is an integer below 2^53 in absolute value, which a
    double represents exactly. *)
Theorem hashText_fallback_is_fnv1a (data : list Byte.byte) :
  hashTextOf None data = "fnv1a-" ++ hexString (fnv1a32 data)
  /\ forall before b after,
       data = (before ++ b :: after)%list ->
       (- 2 ^ 53 < fnvStep (fold_left fnvStep before fnvOffset) b < 2 ^ 53)%Z.
Proof.
  split.
  - unfold hashTextOf, fnv1a32. f_equal. f_equal.
    apply fold_fnvStep. reflexivity.
  - intros before b after _. apply fnvStep_range.
Qed.

(** ** Share links *)

Lemma list_ind3 (A : Type) (P : list A -> Prop) :
  P [] -> (forall a, P [a]) -> (forall a b, P [a; b]) ->
  (forall a b c rest, P rest -> P (a :: b :: c :: rest)) ->
  forall l, P l.
Proof.
  intros H0 H1 H2 H3.
  assert (H : forall l, P l /\ (forall a, P (a :: l))
                        /\ (forall a b, P (a :: b :: l))).
  { induction l as [|x l [Ha [Hb Hc]]].
    - repeat split; auto.
    - repeat split; auto. }
  intro l. apply H.
Qed.

Lemma nat_of_ascii_bound (a : ascii) : nat_of_ascii a < 256.
Proof.
  destruct a as [[] [] [] [] [] [] [] []]; vm_compute; lia.
Qed.

Ltac divmod := zify; Z.to_euclidean_division_equations; lia.

Lemma btoaChars_sextets (bin : list ascii) :
  btoaChars bin
  = (map base64Char (sextets bin) ++ repeat equalsSign (padding bin))%list.
Proof.
  induction bin as [|a|a b|a b c rest IH] using list_ind3;
    try reflexivity.
  cbn [btoaChars sextets padding map app]. now rewrite IH.
Qed.

Lemma sextets_small (bin : list ascii) :
  Forall (fun v => v < 64) (sextets bin).
Proof.
  induction bin as [|a|a b|a b c rest IH] using list_ind3;
    cbn [sextets].
  - constructor.
  - pose proof (nat_of_ascii_bound a).
    repeat (constructor; [divmod|]). constructor.
  - pose proof (nat_of_ascii_bound a). pose proof (nat_of_ascii_bound b).
    repeat (constructor; [divmod|]). constructor.
  - pose proof (nat_of_ascii_bound a). pose proof (nat_of_ascii_bound b).
    pose proof (nat_of_ascii_bound c).
    repeat (constructor; [divmod|]). exact IH.
Qed.

Lemma bytesOfValues_sextets (bin : list ascii) :
  bytesOfValues (sextets bin) = map nat_of_ascii bin.
Proof.
  induction bin as [|a|a b|a b c rest IH] using list_ind3;
    cbn [sextets bytesOfValues map].
  - reflexivity.
  - pose proof (nat_of_ascii_bound a). f_equal. divmod.
  - pose proof (nat_of_ascii_bound a). pose proof (nat_of_ascii_bound b).
    f_equal; [divmod|]. f_equal. divmod.
  - pose proof (nat_of_ascii_bound a). pose proof (nat_of_ascii_bound b).
    pose proof (nat_of_ascii_bound c).
    rewrite IH. f_equal; [divmod|]. f_equal; [divmod|]. f_equal. divmod.
Qed.

Lemma sextets_length (bin : list ascii) :
  (List.length (sextets bin) + padding bin) mod 4 = 0
  /\ padding bin <= 2
  /\ List.length (sextets bin) mod 4 <> 1.
Proof.
  induction bin as [|a|a b|a b c rest IH] using list_ind3;
    cbn [sextets padding List.length].
  - repeat split; cbn; lia.
  - repeat split; cbn; lia.
  - repeat split; cbn; lia.
  - destruct IH as [H1 [H2 H3]]. repeat split; divmod.
Qed.

Lemma below64 (P : nat -> bool) :
  forallb P (seq 0 64) = true -> forall n, n < 64 -> P n = true.
Proof.
  intros H n Hn. rewrite forallb_forall in H. apply H, in_seq. lia.
Qed.

Lemma base64Value_Char (n : nat) :
  n < 64 -> base64Value (base64Char n) = Some n.
Proof.
  intro Hn.
  assert (H : (match base64Value (base64Char n) with
               | Some m => Nat.eqb m n
               | None => false
               end) = true).
  { revert n Hn. apply (below64 (fun n =>
      match base64Value (base64Char n) with
      | Some m => Nat.eqb m n
      | None => false
      end)). vm_compute. reflexivity. }
  destruct (base64Value (base64Char n)); [|discriminate].
  apply Nat.eqb_eq in H. now subst.
Qed.

Lemma base64Char_plain (n : nat) :
  n < 64 ->
  Ascii.eqb (base64Char n) equalsSign = false
  /\ isAsciiWhitespace (base64Char n) = false.
Proof.
  intro Hn.
  assert (H : negb (Ascii.eqb (base64Char n) equalsSign)
              && negb (isAsciiWhitespace (base64Char n)) = true).
  { revert n Hn. apply (below64 (fun n =>
      negb (Ascii.eqb (base64Char n) equalsSign)
      && negb (isAsciiWhitespace (base64Char n)))).
    vm_compute. reflexivity. }
  apply andb_true_iff in H. destruct H as [H1 H2].
  now rewrite negb_true_iff in H1, H2.
Qed.

Lemma base64Char_url (n : nat) :
  n < 64 ->
  urlUnsafe (urlSafe [base64Char n]) = [base64Char n]
  /\ forall c, urlSafe [base64Char n] = [c] ->
       c <> "+"%char /\ c <> "/"%char /\ c <> equalsSign.
Proof.
  intro Hn.
  pose (safe := fun n => match urlSafe [base64Char n] with
                         | [c] => c
                         | _ => equalsSign
                         end).
  pose (back := fun n => match urlUnsafe [safe n] with
                         | [c] => c
                         | _ => equalsSign
                         end).
  assert (H : Ascii.eqb (back n) (base64Char n)
              && negb (Ascii.eqb (safe n) "+")
              && negb (Ascii.eqb (safe n) "/")
              && negb (Ascii.eqb (safe n) equalsSign) = true).
  { revert n Hn. apply (below64 (fun n =>
      Ascii.eqb (back n) (base64Char n)
      && negb (Ascii.eqb (safe n) "+")
      && negb (Ascii.eqb (safe n) "/")
      && negb (Ascii.eqb (safe n) equalsSign))).
    vm_compute. reflexivity. }
  repeat rewrite andb_true_iff in H.
  destruct H as [[[H1 H2] H3] H4].
  rewrite negb_true_iff in H2, H3, H4.
  apply Ascii.eqb_eq in H1.
  assert (Es : urlSafe [base64Char n] = [safe n]) by reflexivity.
  split.
  - rewrite Es. unfold back in H1. unfold urlUnsafe, replaceChar in *.
    cbn [map] in *. now rewrite H1.
  - intros c Hc. rewrite Es in Hc. injection Hc as <-.
    repeat split; intro E; rewrite E in *;
      (discriminate H2 || discriminate H3 || discriminate H4).
Qed.

Lemma valuesOf_chars (values : list nat) :
  Forall (fun v => v < 64) values ->
  valuesOf (map base64Char values) = Some values.
Proof.
  induction 1 as [|v values Hv _ IH]; [reflexivity|].
  cbn [map valuesOf]. now rewrite (base64Value_Char Hv), IH.
Qed.

Lemma filter_whitespace_chars (values : list nat) (k : nat) :
  Forall (fun v => v < 64) values ->
  filter (fun c => negb (isAsciiWhitespace c))
         (map base64Char values ++ repeat equalsSign k)
  = (map base64Char values ++ repeat equalsSign k)%list.
Proof.
  induction 1 as [|v values Hv _ IH].
  - cbn [map app]. induction k as [|k IHk]; [reflexivity|].
    cbn [repeat filter]. now rewrite IHk.
  - cbn [map app filter].
    destruct (base64Char_plain Hv) as [_ ->]. cbn [negb]. now rewrite IH.
Qed.

Lemma rev_chars_head (values : list nat) :
  Forall (fun v => v < 64) values ->
  match rev (map base64Char values) with
  | [] => True
  | c :: _ => Ascii.eqb c equalsSign = false
  end.
Proof.
  intro H. rewrite <- map_rev.
  assert (Hr : Forall (fun v => v < 64) (rev values)).
  { apply Forall_forall. intros v Hv. rewrite Forall_forall in H.
    apply H. now apply in_rev. }
  destruct Hr as [|v l Hv _]; [exact I|].
  cbn [map]. apply (base64Char_plain Hv).
Qed.

Lemma dropPadding_chars (values : list nat) (k : nat) :
  Forall (fun v => v < 64) values -> k <= 2 ->
  dropPadding (map base64Char values ++ repeat equalsSign k)
  = map base64Char values.
Proof.
  intros H Hk. pose proof (rev_chars_head H) as Hh.
  unfold dropPadding. rewrite rev_app_distr, rev_repeat.
  generalize dependent (map base64Char values). intros body Hh.
  assert (Eb : body = rev (rev body)) by (symmetry; apply rev_involutive).
  destruct (rev body) as [|c l].
  - rewrite Eb. destruct k as [|[|[|k]]]; try lia; reflexivity.
  - destruct k as [|[|[|k]]]; try lia; cbn [repeat app].
    + destruct l as [|d l]; rewrite Hh; apply app_nil_r.
    + change (Ascii.eqb equalsSign equalsSign) with true. cbn iota.
      rewrite Hh. now rewrite Eb.
    + change (Ascii.eqb equalsSign equalsSign) with true. cbn iota.
      now rewrite Eb.
Qed.

Lemma urlSafe_app (a b : list ascii) :
  urlSafe (a ++ b) = (urlSafe a ++ urlSafe b)%list.
Proof. unfold urlSafe, replaceChar. now rewrite !map_app. Qed.

Lemma urlUnsafe_app (a b : list ascii) :
  urlUnsafe (a ++ b) = (urlUnsafe a ++ urlUnsafe b)%list.
Proof. unfold urlUnsafe, replaceChar. now rewrite !map_app. Qed.

Lemma urlSafe_equals (k : nat) :
  urlSafe (repeat equalsSign k) = repeat equalsSign k.
Proof.
  induction k as [|k IH]; [reflexivity|].
  change (repeat equalsSign (S k)) with ([equalsSign] ++ repeat equalsSign k)%list.
  rewrite urlSafe_app, IH. reflexivity.
Qed.

Lemma urlSafe_chars (values : list nat) :
  Forall (fun v => v < 64) values ->
  urlUnsafe (urlSafe (map base64Char values)) = map base64Char values
  /\ Forall (fun c => c <> "+"%char /\ c <> "/"%char /\ c <> equalsSign)
            (urlSafe (map base64Char values)).
Proof.
  induction 1 as [|v values Hv _ [IH1 IH2]]; [split; [reflexivity|constructor]|].
  destruct (base64Char_url Hv) as [H1 H2].
  change (map base64Char (v :: values))
    with ([base64Char v] ++ map base64Char values)%list.
  rewrite urlSafe_app. split.
  - rewrite urlUnsafe_app, H1, IH1. reflexivity.
  - destruct (urlSafe [base64Char v]) as [|c [|]] eqn:E; try discriminate.
    cbn [app]. constructor; [now apply H2|exact IH2].
Qed.

Lemma dropTrailingEquals_chars (chars : list ascii) (k : nat) :
  Forall (fun c => c <> equalsSign) chars ->
  dropTrailingEquals (chars ++ repeat equalsSign k) = chars.
Proof.
  induction 1 as [|c chars Hc _ IH].
  - cbn [app]. induction k as [|k IHk]; [reflexivity|].
    cbn [repeat dropTrailingEquals]. now rewrite IHk.
  - cbn [app dropTrailingEquals]. rewrite IH.
    destruct chars; [|reflexivity].
    destruct (Ascii.eqb_spec c equalsSign); [contradiction|reflexivity].
Qed.

Lemma padding_from_length (bin : list ascii) :
  equalsFrom ((List.length (sextets bin) + 3) mod 4)
  = repeat equalsSign (padding bin).
Proof.
  unfold equalsFrom. f_equal.
  induction bin as [|a|a b|a b c rest IH] using list_ind3;
    cbn [sextets padding List.length]; try reflexivity.
  rewrite <- IH.
  replace (S (S (S (S (List.length (sextets rest))))) + 3)
    with (List.length (sextets rest) + 3 + 1 * 4) by lia.
  now rewrite Nat.Div0.mod_add.
Qed.

Lemma map_ascii_of_nat (bin : list ascii) :
  map ascii_of_nat (map nat_of_ascii bin) = bin.
Proof.
  induction bin as [|a bin IH]; [reflexivity|].
  cbn [map]. now rewrite ascii_nat_embedding, IH.
Qed.

Lemma atobChars_btoaChars (bin : list ascii) :
  atobChars (btoaChars bin) = Some bin.
Proof.
  pose proof (sextets_small bin) as Hs.
  destruct (sextets_length bin) as [H1 [H2 H3]].
  unfold atobChars. rewrite btoaChars_sextets.
  rewrite (filter_whitespace_chars _ Hs).
  rewrite length_app, length_map, repeat_length, H1.
  cbn [Nat.eqb]. rewrite (dropPadding_chars Hs H2).
  rewrite length_map.
  destruct (Nat.eqb_spec (List.length (sextets bin) mod 4) 1) as [E|_];
    [contradiction|].
  rewrite (valuesOf_chars Hs), bytesOfValues_sextets.
  now rewrite map_ascii_of_nat.
Qed.

(** X17: a share-link payload survives the trip through the URL:
    [fromBase64Url] returns, without throwing, the string that
    [toBase64Url] was given, for every string the engine's UTF-8 decoder
    reads back from its encoder (every well-formed string); and the
    encoded text has no [+], [/] or [=], the characters that a URL query
    would alter. *)
Theorem share_link_round_trip (codec : TextCodec) (str : string) :
  utf8Decode (utf8Encode str) = str ->
  fromBase64Url (toBase64Url str) = Normal str
  /\ forall c, In c (list_ascii_of_string (toBase64Url str)) ->
       c <> "+"%char /\ c <> "/"%char /\ c <> "="%char.
Proof.
  intro Hcodec.
  set (bin := list_ascii_of_string (string_of_list_byte (utf8Encode str))).
  pose proof (sextets_small bin) as Hs.
  destruct (urlSafe_chars Hs) as [Hback Hsafe].
  assert (Eto : toBase64Url str
                = string_of_list_ascii (urlSafe (map base64Char (sextets bin)))).
  { unfold toBase64Url, btoa, onChars.
    rewrite list_ascii_of_string_of_list_ascii. fold bin. f_equal.
    change (dropTrailingEquals (urlSafe (btoaChars bin))
            = urlSafe (map base64Char (sextets bin))).
    rewrite btoaChars_sextets, urlSafe_app, urlSafe_equals.
    apply dropTrailingEquals_chars.
    eapply Forall_impl; [|exact Hsafe]. cbv beta. tauto. }
  split.
  - rewrite Eto. unfold fromBase64Url, onChars.
    rewrite list_ascii_of_string_of_list_ascii.
    change (replaceChar "_" "/" (replaceChar "-" "+" ?x)) with (urlUnsafe x).
    rewrite Hback. unfold urlSafe, replaceChar at 1 2.
    rewrite !length_map, padding_from_length, <- btoaChars_sextets.
    unfold atob. rewrite list_ascii_of_string_of_list_ascii.
    rewrite atobChars_btoaChars. cbn [bind]. unfold bin.
    rewrite string_of_list_ascii_of_string.
    now rewrite list_byte_of_string_of_list_byte, Hcodec.
  - intros c Hc. rewrite Eto, list_ascii_of_string_of_list_ascii in Hc.
    rewrite Forall_forall in Hsafe. now apply Hsafe.
Qed.

Lemma share_link_round_trip_witness :
  fromBase64Url (codec := asciiCodec) (toBase64Url (codec := asciiCodec) "{}")
  = Normal "{}"
  /\ forall c,
       In c (list_ascii_of_string (toBase64Url (codec := asciiCodec) "{}")) ->
       c <> "+"%char /\ c <> "/"%char /\ c <> "="%char.
Proof.
  apply (@share_link_round_trip asciiCodec "{}"). reflexivity.
Defined.

(** ** Run controls *)

Lemma SFcompare_asym (a b : spec_float) :
  SFcompare a b = Some Lt -> SFcompare b a = Some Gt.
Proof.
  destruct a as [sa | sa | | sa ma ea], b as [sb | sb | | sb mb eb];
    cbn [SFcompare]; try discriminate;
    repeat match goal with s : bool |- _ => destruct s end;
    intros H; try discriminate H; try reflexivity;
    rewrite (Z.compare_antisym ea eb);
    destruct (Z.compare ea eb); cbn [CompOpp] in *; try discriminate H;
    try reflexivity;
    change (PosDef.Pos.compare_cont Eq) with Pos.compare in *;
    rewrite (Pos.compare_antisym ma mb);
    destruct (Pos.compare ma mb); cbn [CompOpp] in *; try discriminate H;
    reflexivity.
Qed.

Lemma ltb_asym (x y : float) :
  PrimFloat.ltb x y = true -> PrimFloat.ltb y x = false.
Proof.
  rewrite !FloatAxioms.ltb_spec. unfold SFltb.
  destruct (SFcompare (Prim2SF x) (Prim2SF y)) as [[| |]|] eqn:E;
    try discriminate.
  intros _. now rewrite (SFcompare_asym _ _ E).
Qed.

Lemma SFcompare_refl (a : spec_float) :
  a <> S754_nan -> SFcompare a a = Some Eq.
Proof.
  destruct a as [s | s | | s m e]; cbn [SFcompare]; try congruence;
    destruct s; try reflexivity; intros _;
    rewrite Z.compare_refl;
    change (PosDef.Pos.compare_cont Eq) with Pos.compare;
    now rewrite Pos.compare_refl.
Qed.

Lemma finite_between (a z b : float) :
  PrimFloat.ltb a z = true -> PrimFloat.ltb z b = true ->
  PrimFloat.is_finite z = true.
Proof.
  rewrite !FloatAxioms.ltb_spec. unfold SFltb. intros Ha Hb.
  unfold PrimFloat.is_finite, PrimFloat.is_nan, PrimFloat.is_infinity.
  rewrite !FloatAxioms.eqb_spec, FloatAxioms.abs_spec. unfold SFeqb.
  change (Prim2SF infinity) with (S754_infinity false).
  destruct (Prim2SF z) as [s | s | | s m e] eqn:Ez.
  - reflexivity.
  - exfalso. destruct s.
    + destruct (Prim2SF a) as [sa | [|] | | sa ma ea]; discriminate Ha.
    + destruct (Prim2SF b) as [sb | [|] | | sb mb eb]; discriminate Hb.
  - destruct (Prim2SF a); discriminate Ha.
  - rewrite SFcompare_refl by discriminate. reflexivity.
Qed.

Lemma numberOrZero_not_nan {B : Builtins} (text : string) :
  PrimFloat.is_nan (numberOrZero text) = false.
Proof.
  unfold numberOrZero. cbn [truthy].
  destruct (PrimFloat.is_zero (StringToNumber text)); cbn [orb negb];
    [reflexivity |].
  destruct (PrimFloat.is_nan (StringToNumber text)) eqn:E; cbn [negb];
    [reflexivity | exact E].
Qed.

Lemma clamped_in_range (limit z : float) :
  PrimFloat.is_nan limit = false ->
  PrimFloat.is_zero limit = false ->
  PrimFloat.is_finite limit = true ->
  PrimFloat.ltb limit 1 = false ->
  PrimFloat.ltb limit limit = false ->
  PrimFloat.is_nan z = false ->
  let s := mathMax 1 (mathMin limit z) in
  PrimFloat.is_finite s = true
  /\ PrimFloat.ltb s 1 = false
  /\ PrimFloat.ltb limit s = false.
Proof.
  intros Hnan Hzero Hfin Hone Hself Hz.
  assert (Em : mathMin limit z = if PrimFloat.ltb z limit then z else limit).
  { unfold mathMin. now rewrite Hnan, Hz, Hzero. }
  assert (Hm : PrimFloat.is_nan (mathMin limit z) = false).
  { rewrite Em. now destruct (PrimFloat.ltb z limit). }
  assert (Es : mathMax 1 (mathMin limit z)
               = if PrimFloat.ltb 1 (mathMin limit z)
                 then mathMin limit z else 1%float).
  { unfold mathMax. rewrite Hm.
    change (PrimFloat.is_nan 1) with false.
    change (PrimFloat.is_zero 1) with false. reflexivity. }
  cbv zeta. rewrite Es.
  destruct (PrimFloat.ltb 1 (mathMin limit z)) eqn:E1.
  - rewrite Em in *. destruct (PrimFloat.ltb z limit) eqn:E2.
    + split; [exact (finite_between E1 E2) |].
      split; [exact (ltb_asym E1) | exact (ltb_asym E2)].
    + auto.
  - split; [reflexivity |]. split; [reflexivity |].
    destruct (PrimFloat.ltb limit 1) eqn:E; [discriminate Hone | reflexivity].
Qed.

(** X18: the controls [runSimulation] stores before it validates, whatever
    the three inputs hold, pass every check [validateConfigPayload] makes
    on steps and episodes: they are finite, at least 1 and at most the
    limit.  The only error the controls of a run can get is that of a
    seed that is not finite. *)
Theorem run_controls_pass_validation {B : Builtins}
  (stepsText episodesText seedText : string) :
  controlErrors (runControls stepsText episodesText seedText) RUN_LIMITS
  = if PrimFloat.is_finite (numberOrZero seedText) then []
    else [ createError ERROR_CODES.validation.CFG_INVALID
             "Seed must be numeric." ["Set a numeric seed value."]
             [("path", JStr "controls.seed")] ].
Proof.
  destruct (@clamped_in_range (maxSteps RUN_LIMITS) (numberOrZero stepsText)
              eq_refl eq_refl eq_refl eq_refl eq_refl
              (numberOrZero_not_nan stepsText)) as [S1 [S2 S3]].
  destruct (@clamped_in_range (maxEpisodes RUN_LIMITS)
              (numberOrZero episodesText)
              eq_refl eq_refl eq_refl eq_refl eq_refl
              (numberOrZero_not_nan episodesText)) as [E1 [E2 E3]].
  unfold controlErrors, runControls. cbn [c_steps c_episodes c_seed].
  cbv zeta in S1, S2, S3, E1, E2, E3.
  rewrite S1, S2, S3, E1, E2, E3. cbn [negb orb app].
  now destruct (PrimFloat.is_finite (numberOrZero seedText)).
Qed.

(** ** Instances of the properties above *)

Lemma taxStream_properKeys : properKeys (paramMeta taxStream).
Proof.
  split.
  - repeat constructor. intros [].
  - intros [E | []]. discriminate E.
Defined.

Lemma normalizeParamMeta_keeps_scenarios_witness :
  Forall (fun c => properKeys (paramMeta c)) (components policyState)
  /\ forall B : Builtins,
       @buildScenarioList B
         {| components := map (@normalizedComponent B) (components policyState) |}
       = @buildScenarioList B policyState.
Proof.
  assert (H : Forall (fun c => properKeys (paramMeta c))
                     (components policyState)).
  { constructor; [exact taxStream_properKeys | constructor]. }
  split; [exact H |].
  intros B. exact (@normalizeParamMeta_keeps_scenarios B policyState H).
Defined.

Lemma encode_selected_option_witness :
  (forall B : Builtins,
     In "Tax 0.3"
        (cm_options (@normalizeCategoryMeta B taxInfo
                       (objGet (params taxStream) "tax"))))
  /\ forall B : Builtins,
       exists mapped,
         ownGet (cm_map (@normalizeCategoryMeta B taxInfo
                           (objGet (params taxStream) "tax"))) "Tax 0.3"
         = Some mapped
         /\ ownGet (@encodeComponentParams B taxStream
                      [("tax", JStr "Tax 0.3")]) "tax"
            = Some mapped.
Proof.
  assert (Hopt : forall B : Builtins,
             In "Tax 0.3"
                (cm_options (@normalizeCategoryMeta B taxInfo
                               (objGet (params taxStream) "tax")))).
  { intros B. right. left. reflexivity. }
  split; [exact Hopt |].
  intros B.
  apply (@encode_selected_option B taxStream [("tax", JStr "Tax 0.3")]
           "tax" taxInfo "Tax 0.3").
  - exact taxStream_properKeys.
  - repeat constructor. intros [].
  - left. reflexivity.
  - reflexivity.
  - reflexivity.
  - apply Hopt.
  - discriminate.
Defined.

Lemma encode_category_number_witness :
  (forall B : Builtins, @declaredOptions B taxInfo <> [])
  /\ forall B : Builtins,
       exists x,
         ownGet (@encodeComponentParams B taxStream []) "tax" = Some (JNum x).
Proof.
  assert (Hdecl : forall B : Builtins, @declaredOptions B taxInfo <> [])
    by discriminate.
  split; [exact Hdecl |].
  intros B.
  apply (@encode_category_number B taxStream [] "tax" taxInfo).
  - exact taxStream_properKeys.
  - left. reflexivity.
  - reflexivity.
  - apply Hdecl.
  - intros k raw H. apply ownGet_In in H.
    destruct H as [H | [H | []]]; injection H as _ <-; discriminate.
Defined.

Lemma encode_keeps_parameters_witness :
  (forall B : Builtins,
     hasOwn (@encodeComponentParams B taxStream [("rate", JNum 2%float)])
            "rate" = true)
  /\ forall B : Builtins,
       ownGet (@encodeComponentParams B taxStream [("rate", JNum 2%float)])
              "rate"
       = Some (JNum 2%float).
Proof.
  split; intros B.
  - apply (proj1 (@encode_keeps_parameters B taxStream
                    [("rate", JNum 2%float)] "rate")).
    reflexivity.
  - rewrite (proj2 (@encode_keeps_parameters B taxStream
                      [("rate", JNum 2%float)] "rate")); [reflexivity |].
    intros info [H | []]. discriminate H.
Defined.

Lemma regroup_recovers_choice_witness :
  (forall B : Builtins,
     NoDup (map (@compoundKey B) [taxAxis])
     /\ Forall (fun cat => @plainAxis B cat = true) [taxAxis])
  /\ forall B : Builtins,
       exists overrideMap,
         regroup (overrides (@scenarioOf B [(taxAxis, "Tax 0.3")]))
         = Grouped overrideMap
         /\ forall cat opt,
              In (cat, opt) [(taxAxis, "Tax 0.3")] ->
              exists override,
                overrideFor overrideMap (ToString (componentId cat))
                = JObj override
                /\ NoDup (map fst override)
                /\ ownGet override (key cat) = Some (JStr opt).
Proof.
  assert (H : forall B : Builtins,
             NoDup (map (@compoundKey B) [taxAxis])
             /\ Forall (fun cat => @plainAxis B cat = true) [taxAxis]).
  { intros B. split.
    - repeat constructor. intros [].
    - repeat constructor. }
  split; [exact H |].
  intros B.
  apply (@regroup_recovers_choice B [taxAxis] [(taxAxis, "Tax 0.3")]).
  - apply H.
  - apply H.
  - right. left. reflexivity.
Defined.

Lemma scenario_option_reaches_payload_witness :
  (forall B : Builtins,
     In (@scenarioOf B [(taxAxis, "Tax 0.3")]) (@buildScenarioList B policyState))
  /\ forall B : Builtins,
       let s := @scenarioOf B [(taxAxis, "Tax 0.3")] in
       exists opt overrideMap override mapped,
         In opt (options taxAxis)
         /\ ownGet (overrides s) (compoundKey taxAxis) = Some (JStr opt)
         /\ regroup (overrides s) = Grouped overrideMap
         /\ overrideFor overrideMap "L1S1" = JObj override
         /\ ownGet (cm_map (@normalizeCategoryMeta B taxInfo
                              (objGet (params taxStream) "tax"))) opt
            = Some mapped
         /\ ownGet (@encodeComponentParams B taxStream override) "tax"
            = Some mapped.
Proof.
  assert (Hs : forall B : Builtins,
             In (@scenarioOf B [(taxAxis, "Tax 0.3")])
                (@buildScenarioList B policyState)).
  { intros B. right. left. reflexivity. }
  split; [exact Hs |].
  intros B.
  apply (@scenario_option_reaches_payload B policyState taxStream "tax"
           taxInfo (@scenarioOf B [(taxAxis, "Tax 0.3")])).
  - repeat constructor. intros [].
  - repeat constructor.
  - exact taxStream_properKeys.
  - left. reflexivity.
  - reflexivity.
  - left. reflexivity.
  - intros [E | [E | []]]; discriminate E.
  - apply Hs.
Defined.

Lemma merged_defaults_pass_validation_witness :
  nonempty "Price" = true
  /\ forall B : Builtins,
       exists merged,
         @mergeDefaultsForType B App.STREAM_DEFS (JStr "Price")
           [("drift", JNum 1%float)] = Normal merged
         /\ @checkStream B (requiredKeys App.STREAM_DEFS) 0 []
              (0, JObj [("type", JStr "Price");
                        ("params",
                         JObj (@encodeComponentParams B
                                 {| id := JStr "L1S1"; params := merged;
                                    paramMeta := [] |} []))])
            = Normal [].
Proof.
  split; [reflexivity |].
  intros B.
  destruct (@mergeDefaultsForType B App.STREAM_DEFS (JStr "Price")
              [("drift", JNum 1%float)]) as [merged | e] eqn:E;
    [| discriminate E].
  exists merged. split; [reflexivity |].
  apply (@merged_defaults_pass_validation B App.STREAM_DEFS "Price"
           [("drift", JNum 1%float)] merged (JStr "L1S1") [] _ 0 0 []).
  - reflexivity.
  - exact E.
  - reflexivity.
  - reflexivity.
Defined.

Lemma worker_load_failure_is_permanent_witness :
  snd (Worker.onmessage failingBackend Worker.fresh (InitRequest JUndef))
  = WorkerError "failed-to-fetch-playground-py:404"
  /\ snd (serveAll
            (fst (Worker.onmessage failingBackend Worker.fresh
                    (InitRequest JUndef)))
            retryMessages)
     = [WorkerError "Error: failed-to-fetch-playground-py:404";
        WorkerError "runtime-not-ready"].
Proof.
  pose proof (@worker_load_failure_is_permanent failingBackend Worker.fresh
                JUndef (Some "0.26.4")
                "Error: failed-to-fetch-playground-py:404"
                "failed-to-fetch-playground-py:404" retryMessages
                eq_refl eq_refl eq_refl) as H.
  assert (Hne : "Error: failed-to-fetch-playground-py:404" <> "")
    by discriminate.
  specialize (H Hne).
  destruct (Worker.onmessage failingBackend Worker.fresh (InitRequest JUndef))
    as [g' reply].
  destruct H as [H1 H2]. cbn [fst snd]. rewrite H1, H2.
  split; reflexivity.
Defined.

Lemma worker_ready_is_stable_witness :
  Worker.ready readyGlobals = true
  /\ serveAll readyGlobals retryMessages
     = (readyGlobals,
        [InitOk (Worker.versionInfo "0.26.4"); RunOk oneEpisodeResult]).
Proof.
  split; [reflexivity |].
  exact (@worker_ready_is_stable readyGlobals "0.26.4" retryMessages
           eq_refl eq_refl).
Defined.

Lemma parseState_idempotent_witness :
  (forall B : Builtins, @parseState B storedOnboarding = Some parsedOnboarding)
  /\ forall B : Builtins,
       PrimFloat.is_finite (last_seen_major parsedOnboarding) = true
       /\ @parseState B (stateObject parsedOnboarding) = Some parsedOnboarding.
Proof.
  assert (H : forall B : Builtins,
             @parseState B storedOnboarding = Some parsedOnboarding)
    by reflexivity.
  split; [exact H |].
  intros B. exact (@parseState_idempotent B storedOnboarding parsedOnboarding
                     (H B)).
Defined.

Lemma load_returns_saved_state_witness :
  (forall B : Builtins,
     let record :=
       fst (@saveOnboardingState B savedTime storedOnboarding None) in
     @loadOnboardingState B savedTime None (Some (storeHolding record))
     = record)
  /\ forall B : Builtins,
       let record :=
         fst (@saveOnboardingState B savedTime storedOnboarding None) in
       @loadOnboardingState B savedTime (Some record) None = record.
Proof.
  split; intros B record.
  - apply (proj1 (@load_returns_saved_state B savedTime savedTime
                    storedOnboarding None None None)).
    reflexivity.
  - apply (proj2 (@load_returns_saved_state B savedTime savedTime
                    storedOnboarding None None None)).
    intros st v E. discriminate E.
Defined.

Lemma hashText_fallback_is_fnv1a_witness :
  hashTextOf None [Byte.x61] = "fnv1a-e40c292c"
  /\ (- 2 ^ 53 < fnvStep fnvOffset Byte.x61 < 2 ^ 53)%Z.
Proof.
  split.
  - rewrite (proj1 (hashText_fallback_is_fnv1a [Byte.x61])). reflexivity.
  - apply (proj2 (hashText_fallback_is_fnv1a [Byte.x61]) [] Byte.x61 []).
    reflexivity.
Defined.
